(** * Studio testnet indexer: ingestion pipeline, store and interface detector

    A shallow embedding of
      - class [IndexerService] (module [./indexer]; its text follows the
        contract routes in [src/services/contract-routes.ts]),
      - class [BlockchainService] (module [./blockchain], same file),
      - class [DatabaseService] (module [./database]; its text follows the
        API service in [src/services/api.ts]): the write and read paths used
        by the indexer and by the interface detector,
      - function [detectAndStoreInterfaces] of
        [src/utils/contract-verifier.ts].

    The TypeScript code is asynchronous and talks to two outside parties, a
    JSON-RPC node (through ethers) and a PostgreSQL server (through pg).
    Both are modelled by a record of oracles, [World], that says how every
    outside call answers; the mutable objects of the program are the fields
    of one state record, [Sys], threaded through a small state-and-exception
    monad [M].  Every outside call leaves an [Event] in a chronological
    trace, so that "what was fetched" and "what was written" can be stated.
    Calls to [logger] have no effect on anything modelled and are left out.
    Each [async] method is run to completion before the next one starts.
    The one place where the code lets two of them share a field while both
    are pending, the backfill loop and the handler of live notifications,
    is modelled apart, by [processHistoricalBlocks_among], at the grain of
    the turns of the loop; finer interleavings of pending promises are
    outside the model. *)

From Stdlib Require Import ZArith List String Bool Lia DecimalString Ascii.
From stdpp Require Import base gmap strings list sorting.

Open Scope string_scope.
Open Scope list_scope.
Open Scope Z_scope.

(** ** JavaScript values used by the code *)

(** A [Date] is its number of milliseconds since the epoch. *)
Definition Date := Z.

(** [new Date(seconds * 1000)] *)
Definition Date_of_seconds (seconds : Z) : Date := seconds * 1000.

(** [BigNumber.prototype.toString()] : the decimal rendering. *)
Definition BigNumber_toString (z : Z) : string :=
  NilZero.string_of_int (Z.to_int z).

(** [s || d] on an optional string: [null], [undefined] and the empty string
    are falsy. *)
Definition or_string (s : option string) (d : string) : string :=
  match s with
  | Some v => if decide (v = EmptyString) then d else v
  | None => d
  end.

(** [s || undefined] *)
Definition or_undefined (s : option string) : option string :=
  match s with
  | Some v => if decide (v = EmptyString) then None else Some v
  | None => None
  end.

(** [n || 0] on an optional number: [undefined] and [0] are falsy. *)
Definition or_zero (n : option Z) : Z :=
  match n with
  | Some v => if decide (v = 0) then 0 else v
  | None => 0
  end.

(** [String.prototype.toLowerCase()], on the ASCII letters (addresses are
    hexadecimal strings). *)
Definition ascii_toLowerCase (c : ascii) : ascii :=
  let n := nat_of_ascii c in
  if (Nat.leb 65 n && Nat.leb n 90)%bool then ascii_of_nat (n + 32) else c.

Fixpoint toLowerCase (s : string) : string :=
  match s with
  | EmptyString => EmptyString
  | String c s' => String (ascii_toLowerCase c) (toLowerCase s')
  end.

(** ** Data model ([database.ts], and the ethers types the indexer reads) *)

Module Block.
Record t := mk {
  number : Z;
  hash : string;
  parent_hash : string;
  timestamp : Date;
  transactions_count : Z;
  gas_used : string;
  gas_limit : string;
  base_fee_per_gas : option string
}.
End Block.

Module Transaction.
Record t := mk {
  hash : string;
  block_number : Z;
  from_address : string;
  to_address : option string;
  value : string;
  gas_price : string;
  gas_used : string;
  input : string;
  status : bool;
  transaction_index : Z;
  nonce : Z;
  created_at : string
}.
End Transaction.

Module ContractInterface.
Record t := mk {
  address : string;
  interface_type : string;
  detected_at : Date
}.
End ContractInterface.

(** [ethers.providers.TransactionResponse], the fields read by the indexer. *)
Module TransactionResponse.
Record t := mk {
  hash : string;
  from : string;
  to : option string;
  value : Z;
  gasPrice : option Z;
  data : string;
  nonce : Z
}.
End TransactionResponse.

(** [ethers.providers.TransactionReceipt], the fields read by the indexer. *)
Module TransactionReceipt.
Record t := mk {
  gasUsed : Z;
  status : option Z;
  transactionIndex : Z
}.
End TransactionReceipt.

(** [BlockWithTransactions] of [blockchain.ts]. *)
Module BlockWithTransactions.
Record t := mk {
  hash : string;
  parentHash : string;
  timestamp : Z;
  transactions : list TransactionResponse.t;
  gasUsed : Z;
  gasLimit : Z;
  baseFeePerGas : option Z
}.
End BlockWithTransactions.

(** One entry of a contract ABI ([any] in the source; the detector reads
    [type] and [name]). *)
Module AbiItem.
Record t := mk {
  type_ : string;
  name : string
}.
End AbiItem.

#[global] Instance Block_eq_dec : EqDecision Block.t.
Proof. solve_decision. Defined.
#[global] Instance Transaction_eq_dec : EqDecision Transaction.t.
Proof. solve_decision. Defined.
#[global] Instance ContractInterface_eq_dec : EqDecision ContractInterface.t.
Proof. solve_decision. Defined.

(** ** The outside world *)

(** What a JavaScript [throw] carries.  The code never inspects it. *)
Inductive Exn :=
  | NotConnected        (* [new Error('Not connected to blockchain')] *)
  | TypeError           (* property read on [null] *)
  | RpcError            (* the provider rejected *)
  | PgError.            (* [pool.query] rejected *)

(** The answer of an outside call: a value or a rejection. *)
Inductive Res (A : Type) :=
  | Ok (a : A)
  | Rejected (e : Exn).
Arguments Ok {A} a.
Arguments Rejected {A} e.

(** How the node, the database server and the clock answer while one
    method of the program runs. *)
Record World := {
  (* ethers JsonRpcProvider *)
  rpc_getNetwork : Res unit;
  rpc_getBlockNumber : Res Z;
  rpc_getBlockWithTransactions : Z -> Res (option BlockWithTransactions.t);
  rpc_getTransactionReceipt : string -> Res (option TransactionReceipt.t);
  (* pg Pool: does the statement go through? *)
  pg_select : Res unit;
  pg_insert_block : Block.t -> Res unit;
  pg_insert_transaction : Transaction.t -> Res unit;
  pg_insert_contract_interface : string -> string -> Res unit;
  (* the clock and [Date.prototype.toISOString] *)
  now : Date;
  toISOString : Date -> string
}.

(** The function values the code passes around. [bind] makes a new function
    at every call; the model only needs to tell which kind it is. *)
Inductive Callback :=
  | handleNewBlock_bound     (* [this.handleNewBlock.bind(this)] *)
  | block_listener.          (* the arrow function given to [provider.on] *)

(** Outside calls, in the order they are made. *)
Inductive Event :=
  | EvGetNetwork
  | EvGetBlockNumber
  | EvGetBlockWithTransactions (blockNumber : Z)
  | EvGetTransactionReceipt (txHash : string)
  | EvProviderOn (listener : Callback)
  | EvProviderOff (listener : Callback)
  | EvSelectLatestBlock
  | EvSelectBlock (number : Z)
  | EvSelectTransaction (hash : string)
  | EvCountTransactions
  | EvSelectContractInterfaces (address : string)
  | EvInsertBlock (block : Block.t)
  | EvInsertTransaction (transaction : Transaction.t)
  | EvInsertContractInterface (address interfaceType : string)
  | EvSetTimeout (ms : Z).

(** ** Program state *)

Record Sys := mkSys {
  (* IndexerService *)
  isIndexing : bool;
  lastProcessedBlock : Z;
  (* BlockchainService *)
  newBlockCallback : option Callback;
  (* the tables behind DatabaseService, rows in insertion order *)
  blocks : list Block.t;
  transactions : list Transaction.t;
  contract_interfaces : list ContractInterface.t;
  (* outside calls made so far, oldest first *)
  trace : list Event
}.

Definition set_isIndexing (v : bool) (s : Sys) : Sys :=
  mkSys v (lastProcessedBlock s) (newBlockCallback s)
        (blocks s) (transactions s) (contract_interfaces s) (trace s).
Definition set_lastProcessedBlock (v : Z) (s : Sys) : Sys :=
  mkSys (isIndexing s) v (newBlockCallback s)
        (blocks s) (transactions s) (contract_interfaces s) (trace s).
Definition set_newBlockCallback (v : option Callback) (s : Sys) : Sys :=
  mkSys (isIndexing s) (lastProcessedBlock s) v
        (blocks s) (transactions s) (contract_interfaces s) (trace s).
Definition set_blocks (v : list Block.t) (s : Sys) : Sys :=
  mkSys (isIndexing s) (lastProcessedBlock s) (newBlockCallback s)
        v (transactions s) (contract_interfaces s) (trace s).
Definition set_transactions (v : list Transaction.t) (s : Sys) : Sys :=
  mkSys (isIndexing s) (lastProcessedBlock s) (newBlockCallback s)
        (blocks s) v (contract_interfaces s) (trace s).
Definition set_contract_interfaces (v : list ContractInterface.t) (s : Sys) : Sys :=
  mkSys (isIndexing s) (lastProcessedBlock s) (newBlockCallback s)
        (blocks s) (transactions s) v (trace s).
Definition set_trace (v : list Event) (s : Sys) : Sys :=
  mkSys (isIndexing s) (lastProcessedBlock s) (newBlockCallback s)
        (blocks s) (transactions s) (contract_interfaces s) v.

(** ** The monad of the program: world reader, state, exceptions, fuel *)

(** How a run ends: a value, a thrown exception, or the end of the
    observation ([processHistoricalBlocks] may loop for ever). *)
Inductive Outcome (A : Type) :=
  | Done (a : A)
  | Thrown (e : Exn)
  | OutOfFuel.
Arguments Done {A} a.
Arguments Thrown {A} e.
Arguments OutOfFuel {A}.

Definition M (A : Type) : Type := World -> Sys -> Outcome A * Sys.

Definition ret {A} (a : A) : M A := fun _ s => (Done a, s).

Definition bind {A B} (m : M A) (k : A -> M B) : M B :=
  fun w s =>
    match m w s with
    | (Done a, s') => k a w s'
    | (Thrown e, s') => (Thrown e, s')
    | (OutOfFuel, s') => (OutOfFuel, s')
    end.

Notation "'let*' x ':=' m 'in' k" := (bind m (fun x => k))
  (at level 10, x name, m at level 100, k at level 200).
Notation "m1 ';;' m2" := (bind m1 (fun _ => m2))
  (at level 100, m2 at level 200, right associativity).

(** [throw e] *)
Definition throw {A} (e : Exn) : M A := fun _ s => (Thrown e, s).

(** [try { m } catch (error) { h error }] *)
Definition try_catch {A} (m : M A) (h : Exn -> M A) : M A :=
  fun w s =>
    match m w s with
    | (Thrown e, s') => h e w s'
    | r => r
    end.

Definition out_of_fuel {A} : M A := fun _ s => (OutOfFuel, s).

(** Read a field of the state, update the state. *)
Definition gets {A} (f : Sys -> A) : M A := fun _ s => (Done (f s), s).
Definition modify (f : Sys -> Sys) : M unit := fun _ s => (Done tt, f s).

(** Read an oracle of the world. *)
Definition asks {A} (f : World -> A) : M A := fun w s => (Done (f w), s).

(** Record an outside call. *)
Definition emit (ev : Event) : M unit :=
  modify (fun s => set_trace (trace s ++ [ev]) s).

(** [await] of an outside call: its answer, or the rejection thrown. *)
Definition await {A} (ev : Event) (answer : World -> Res A) : M A :=
  emit ev ;;
  let* r := asks answer in
  match r with
  | Ok a => ret a
  | Rejected e => throw e
  end.

(** [for (const x of xs) { body x }] *)
Fixpoint for_of {A} (xs : list A) (body : A -> M unit) : M unit :=
  match xs with
  | [] => ret tt
  | x :: rest => body x ;; for_of rest body
  end.

(** ** [blockchain.ts] *)

Module BlockchainService.

Definition isConnected : M bool :=
  try_catch
    (await EvGetNetwork rpc_getNetwork ;;
     ret true)
    (fun _ => ret false).

Definition getLatestBlockNumber : M Z :=
  await EvGetBlockNumber rpc_getBlockNumber.

(** The provider answers [null] for a block it does not have; the cast
    [block as BlockWithTransactions] hides it from the type only. *)
Definition getBlockWithTransactions (blockNumber : Z)
  : M (option BlockWithTransactions.t) :=
  await (EvGetBlockWithTransactions blockNumber)
        (fun w => rpc_getBlockWithTransactions w blockNumber).

Definition getTransactionReceipt (txHash : string)
  : M (option TransactionReceipt.t) :=
  await (EvGetTransactionReceipt txHash)
        (fun w => rpc_getTransactionReceipt w txHash).

Definition subscribeToNewBlocks (callback : Callback) : M unit :=
  modify (set_newBlockCallback (Some callback)) ;;
  emit (EvProviderOn block_listener).

Definition unsubscribeFromNewBlocks (callback : Callback) : M unit :=
  emit (EvProviderOff callback) ;;
  modify (set_newBlockCallback None).

End BlockchainService.

(** ** [database.ts] *)

Module DatabaseService.

(** [INSERT ... ON CONFLICT (key) DO UPDATE SET ...] on a table held as a
    list of rows: the first row in conflict with the proposed one is
    updated in place, and without a conflict the row is appended. *)
Fixpoint insert_on_conflict {R} (conflict : R -> R -> bool)
    (do_update : R -> R -> R) (excluded : R) (rows : list R) : list R :=
  match rows with
  | [] => [excluded]
  | row :: rest =>
      if conflict row excluded
      then do_update row excluded :: rest
      else row :: insert_on_conflict conflict do_update excluded rest
  end.

(** [ON CONFLICT (number)] and the [SET] list of [insertBlock]. *)
Definition blocks_conflict (row excluded : Block.t) : bool :=
  bool_decide (Block.number row = Block.number excluded).

Definition blocks_do_update (row excluded : Block.t) : Block.t :=
  {| Block.number := Block.number row;
     Block.hash := Block.hash excluded;
     Block.parent_hash := Block.parent_hash excluded;
     Block.timestamp := Block.timestamp excluded;
     Block.transactions_count := Block.transactions_count excluded;
     Block.gas_used := Block.gas_used excluded;
     Block.gas_limit := Block.gas_limit excluded;
     Block.base_fee_per_gas := Block.base_fee_per_gas excluded |}.

(** [ON CONFLICT (hash)] and the [SET] list of [insertTransaction]. *)
Definition transactions_conflict (row excluded : Transaction.t) : bool :=
  bool_decide (Transaction.hash row = Transaction.hash excluded).

Definition transactions_do_update (row excluded : Transaction.t)
  : Transaction.t :=
  {| Transaction.hash := Transaction.hash row;
     Transaction.block_number := Transaction.block_number excluded;
     Transaction.from_address := Transaction.from_address excluded;
     Transaction.to_address := Transaction.to_address excluded;
     Transaction.value := Transaction.value excluded;
     Transaction.gas_price := Transaction.gas_price excluded;
     Transaction.gas_used := Transaction.gas_used excluded;
     Transaction.input := Transaction.input excluded;
     Transaction.status := Transaction.status excluded;
     Transaction.transaction_index := Transaction.transaction_index excluded;
     Transaction.nonce := Transaction.nonce excluded;
     Transaction.created_at := Transaction.created_at excluded |}.

(** [ON CONFLICT (address, interface_type)] and the [SET] list of
    [insertContractInterface]. *)
Definition contract_interfaces_conflict (row excluded : ContractInterface.t)
  : bool :=
  bool_decide (ContractInterface.address row = ContractInterface.address excluded)
  && bool_decide (ContractInterface.interface_type row
                  = ContractInterface.interface_type excluded).

Definition contract_interfaces_do_update (row excluded : ContractInterface.t)
  : ContractInterface.t :=
  {| ContractInterface.address := ContractInterface.address row;
     ContractInterface.interface_type := ContractInterface.interface_type row;
     ContractInterface.detected_at := ContractInterface.detected_at excluded |}.

(** [ORDER BY number DESC LIMIT 1], then [result.rows[0] || null]. *)
Fixpoint order_by_number_desc_limit_1 (rows : list Block.t) : option Block.t :=
  match rows with
  | [] => None
  | row :: rest =>
      match order_by_number_desc_limit_1 rest with
      | Some best =>
          if Block.number row <? Block.number best then Some best else Some row
      | None => Some row
      end
  end.

Definition getLatestBlock : M (option Block.t) :=
  try_catch
    (await EvSelectLatestBlock pg_select ;;
     let* rows := gets blocks in
     ret (order_by_number_desc_limit_1 rows))
    (fun _ => ret None).

(** [WHERE number = $1], then [result.rows[0] || null]. *)
Definition getBlock (number : Z) : M (option Block.t) :=
  try_catch
    (await (EvSelectBlock number) pg_select ;;
     let* rows := gets blocks in
     ret (head (filter (fun row => Block.number row = number) rows)))
    (fun _ => ret None).

Definition insertBlock (block : Block.t) : M unit :=
  try_catch
    (await (EvInsertBlock block) (fun w => pg_insert_block w block) ;;
     modify (fun s =>
       set_blocks
         (insert_on_conflict blocks_conflict blocks_do_update block (blocks s))
         s))
    (fun error => throw error).

Definition insertTransaction (transaction : Transaction.t) : M unit :=
  try_catch
    (await (EvInsertTransaction transaction)
           (fun w => pg_insert_transaction w transaction) ;;
     modify (fun s =>
       set_transactions
         (insert_on_conflict transactions_conflict transactions_do_update
            transaction (transactions s))
         s))
    (fun error => throw error).

(** [WHERE hash = $1], then [result.rows[0] || null]. *)
Definition getTransaction (hash : string) : M (option Transaction.t) :=
  try_catch
    (await (EvSelectTransaction hash) pg_select ;;
     let* rows := gets transactions in
     ret (head (filter (fun row => Transaction.hash row = hash) rows)))
    (fun _ => ret None).

(** [SELECT COUNT( * )], then [parseInt(result.rows[0].count)]. *)
Definition getTotalTransactions : M Z :=
  try_catch
    (await EvCountTransactions pg_select ;;
     let* rows := gets transactions in
     ret (Z.of_nat (length rows)))
    (fun _ => ret 0).

Definition insertContractInterface (address interfaceType : string) : M unit :=
  try_catch
    (let* detected_at := asks now in
     let row := ContractInterface.mk (toLowerCase address) interfaceType
                                     detected_at in
     await (EvInsertContractInterface (toLowerCase address) interfaceType)
           (fun w => pg_insert_contract_interface w (toLowerCase address)
                                                  interfaceType) ;;
     modify (fun s =>
       set_contract_interfaces
         (insert_on_conflict contract_interfaces_conflict
            contract_interfaces_do_update row (contract_interfaces s))
         s))
    (fun error => throw error).

(** [WHERE address = $1], then [rows.map(row => row.interface_type)]. *)
Definition getContractInterfaces (address : string) : M (list string) :=
  try_catch
    (await (EvSelectContractInterfaces (toLowerCase address)) pg_select ;;
     let* rows := gets contract_interfaces in
     ret (map ContractInterface.interface_type
            (filter (fun row => ContractInterface.address row
                                = toLowerCase address) rows)))
    (fun _ => ret []).

End DatabaseService.

(** ** [indexer.ts] *)

Module IndexerService.

(** [constructor(blockchain, database)]: a new service over the tables the
    database already holds. *)
Definition constructor (blocks : list Block.t)
    (transactions : list Transaction.t)
    (contract_interfaces : list ContractInterface.t) : Sys :=
  {| isIndexing := false;
     lastProcessedBlock := 0;
     newBlockCallback := None;
     blocks := blocks;
     transactions := transactions;
     contract_interfaces := contract_interfaces;
     trace := [] |}.

Definition getLastProcessedBlock (s : Sys) : Z := lastProcessedBlock s.

Definition isRunning (s : Sys) : bool := isIndexing s.

(** The [Block] literal of [processBlock]. *)
Definition prepare_block (blockNumber : Z)
    (blockWithTxs : BlockWithTransactions.t) : Block.t :=
  {| Block.number := blockNumber;
     Block.hash := BlockWithTransactions.hash blockWithTxs;
     Block.parent_hash := BlockWithTransactions.parentHash blockWithTxs;
     Block.timestamp :=
       Date_of_seconds (BlockWithTransactions.timestamp blockWithTxs);
     Block.transactions_count :=
       Z.of_nat (length (BlockWithTransactions.transactions blockWithTxs));
     Block.gas_used :=
       BigNumber_toString (BlockWithTransactions.gasUsed blockWithTxs);
     Block.gas_limit :=
       BigNumber_toString (BlockWithTransactions.gasLimit blockWithTxs);
     Block.base_fee_per_gas :=
       option_map BigNumber_toString
                  (BlockWithTransactions.baseFeePerGas blockWithTxs) |}.

(** The [Transaction] literal of [processBlock]. *)
Definition prepare_transaction (blockNumber : Z)
    (blockWithTxs : BlockWithTransactions.t) (tx : TransactionResponse.t)
    (receipt : TransactionReceipt.t) (toISOString : Date -> string)
  : Transaction.t :=
  {| Transaction.hash := TransactionResponse.hash tx;
     Transaction.block_number := blockNumber;
     Transaction.from_address := TransactionResponse.from tx;
     Transaction.to_address := or_undefined (TransactionResponse.to tx);
     Transaction.value := BigNumber_toString (TransactionResponse.value tx);
     Transaction.gas_price :=
       or_string (option_map BigNumber_toString
                             (TransactionResponse.gasPrice tx)) "0";
     Transaction.gas_used :=
       BigNumber_toString (TransactionReceipt.gasUsed receipt);
     Transaction.input := TransactionResponse.data tx;
     Transaction.status :=
       bool_decide (TransactionReceipt.status receipt = Some 1);
     Transaction.transaction_index :=
       TransactionReceipt.transactionIndex receipt;
     Transaction.nonce := TransactionResponse.nonce tx;
     Transaction.created_at :=
       toISOString
         (Date_of_seconds (BlockWithTransactions.timestamp blockWithTxs)) |}.

(** The body of the [for] loop of [processBlock]. *)
Definition process_transaction (blockNumber : Z)
    (blockWithTxs : BlockWithTransactions.t) (tx : TransactionResponse.t)
  : M unit :=
  let* receipt :=
    BlockchainService.getTransactionReceipt (TransactionResponse.hash tx) in
  match receipt with
  | None => ret tt                                   (* [continue] *)
  | Some receipt =>
      let* iso := asks toISOString in
      DatabaseService.insertTransaction
        (prepare_transaction blockNumber blockWithTxs tx receipt iso)
  end.

Definition processBlock (blockNumber : Z) : M unit :=
  try_catch
    (let* fetched := BlockchainService.getBlockWithTransactions blockNumber in
     match fetched with
     | None => throw TypeError              (* [blockWithTxs.hash] on [null] *)
     | Some blockWithTxs =>
         DatabaseService.insertBlock (prepare_block blockNumber blockWithTxs) ;;
         for_of (BlockWithTransactions.transactions blockWithTxs)
                (process_transaction blockNumber blockWithTxs) ;;
         modify (set_lastProcessedBlock blockNumber)
     end)
    (fun error => throw error).

(** One turn of the [while] loop of [processHistoricalBlocks]; the answer
    says whether the loop was left by [break]. *)
Definition historical_step : M bool :=
  try_catch
    (let* latestBlockNumber := BlockchainService.getLatestBlockNumber in
     let* last := gets lastProcessedBlock in
     let nextBlock := last + 1 in
     if nextBlock >? latestBlockNumber
     then ret true                                    (* [break] *)
     else (processBlock nextBlock ;; ret false))
    (fun _ =>
       emit (EvSetTimeout 5000) ;;
       ret false).

(** [while (this.isIndexing) { ... }], with [fuel] turns observed.  This is
    the loop run alone; [processHistoricalBlocks_among], further down, is
    the loop with the live notifications that are handled meanwhile. *)
Fixpoint processHistoricalBlocks (fuel : nat) : M unit :=
  let* running := gets isIndexing in
  if running then
    match fuel with
    | O => out_of_fuel
    | S fuel' =>
        let* left := historical_step in
        if left then ret tt else processHistoricalBlocks fuel'
    end
  else ret tt.

Definition start (fuel : nat) : M unit :=
  let* running := gets isIndexing in
  if running then ret tt
  else
    try_catch
      (let* isConnected := BlockchainService.isConnected in
       (if negb isConnected then throw NotConnected else ret tt) ;;
       let* lastBlock := DatabaseService.getLatestBlock in
       modify (set_lastProcessedBlock
                 (or_zero (option_map Block.number lastBlock))) ;;
       modify (set_isIndexing true) ;;
       BlockchainService.subscribeToNewBlocks handleNewBlock_bound ;;
       processHistoricalBlocks fuel)
      (fun error => throw error).

Definition stop : M unit :=
  let* running := gets isIndexing in
  if negb running then ret tt
  else
    modify (set_isIndexing false) ;;
    BlockchainService.unsubscribeFromNewBlocks handleNewBlock_bound.

Definition handleNewBlock (blockNumber : Z) : M unit :=
  let* running := gets isIndexing in
  if negb running then ret tt
  else
    try_catch
      (processBlock blockNumber)
      (fun _ => ret tt).

End IndexerService.

(** ** [contract-verifier.ts] *)

Definition interfaceDetectors : list (string * list string) :=
  [ ("ERC20", ["balanceOf"; "transfer"; "approve"; "allowance"; "transferFrom"]);
    ("ERC721", ["ownerOf"; "approve"; "transferFrom"; "safeTransferFrom"]);
    ("ERC1155", ["balanceOf"; "balanceOfBatch"; "safeBatchTransferFrom"]) ].

(** [new Set(abi.filter(item => item.type === 'function').map(item => item.name))] *)
Definition functions_of (abi : list AbiItem.t) : gset string :=
  list_to_set
    (map AbiItem.name
         (filter (fun item => AbiItem.type_ item = "function") abi)).

(** [requiredFunctions.every(func => functions.has(func))] *)
Definition every_has (requiredFunctions : list string)
    (functions : gset string) : bool :=
  forallb (fun func => bool_decide (func ∈ functions)) requiredFunctions.

Definition detectAndStoreInterfaces (address : string) (abi : list AbiItem.t)
  : M unit :=
  let functions := functions_of abi in
  for_of interfaceDetectors
    (fun '(interfaceType, requiredFunctions) =>
       if every_has requiredFunctions functions
       then DatabaseService.insertContractInterface address interfaceType
       else ret tt).

(** ** Reading traces and worlds *)

(** The block numbers asked of the node, the block numbers and the
    transaction hashes sent to the store, in the order of the trace. *)
Fixpoint fetched_blocks (evs : list Event) : list Z :=
  match evs with
  | [] => []
  | EvGetBlockWithTransactions n :: rest => n :: fetched_blocks rest
  | _ :: rest => fetched_blocks rest
  end.

Fixpoint written_blocks (evs : list Event) : list Z :=
  match evs with
  | [] => []
  | EvInsertBlock b :: rest => Block.number b :: written_blocks rest
  | _ :: rest => written_blocks rest
  end.

Fixpoint written_transactions (evs : list Event) : list string :=
  match evs with
  | [] => []
  | EvInsertTransaction t :: rest => Transaction.hash t :: written_transactions rest
  | _ :: rest => written_transactions rest
  end.

Fixpoint written_interfaces (evs : list Event) : list (string * string) :=
  match evs with
  | [] => []
  | EvInsertContractInterface a i :: rest => (a, i) :: written_interfaces rest
  | _ :: rest => written_interfaces rest
  end.

(** The waits set by [setTimeout], in milliseconds, in the order of the
    trace. *)
Fixpoint waits (evs : list Event) : list Z :=
  match evs with
  | [] => []
  | EvSetTimeout ms :: rest => ms :: waits rest
  | _ :: rest => waits rest
  end.

(** The three tables of the store. *)
Definition tables (s : Sys)
  : list Block.t * list Transaction.t * list ContractInterface.t :=
  (blocks s, transactions s, contract_interfaces s).

(** The rows stored under a block number, under a transaction hash. *)
Definition block_rows (number : Z) (s : Sys) : list Block.t :=
  filter (fun row => Block.number row = number) (blocks s).

Definition transaction_rows (hash : string) (s : Sys) : list Transaction.t :=
  filter (fun row => Transaction.hash row = hash) (transactions s).

Definition is_ok {A} (r : Res A) : bool :=
  match r with
  | Ok _ => true
  | Rejected _ => false
  end.

(** In world [w], the receipt fetch of [tx] is answered, and the row of a
    present receipt is accepted by the store. *)
Definition transaction_goes_through (w : World) (blockNumber : Z)
    (blockWithTxs : BlockWithTransactions.t) (tx : TransactionResponse.t)
  : bool :=
  match rpc_getTransactionReceipt w (TransactionResponse.hash tx) with
  | Ok None => true
  | Ok (Some receipt) =>
      is_ok (pg_insert_transaction w
               (IndexerService.prepare_transaction blockNumber blockWithTxs tx
                  receipt (toISOString w)))
  | Rejected _ => false
  end.

(** In world [w], every fetch and every write that [processBlock n] makes is
    answered without a rejection (a receipt may still be absent). *)
Definition pass_goes_through (w : World) (blockNumber : Z) : bool :=
  match rpc_getBlockWithTransactions w blockNumber with
  | Ok (Some blockWithTxs) =>
      is_ok (pg_insert_block w
               (IndexerService.prepare_block blockNumber blockWithTxs))
      && forallb (transaction_goes_through w blockNumber blockWithTxs)
                 (BlockWithTransactions.transactions blockWithTxs)
  | _ => false
  end.

Import IndexerService.

(** [insertBlock] and [insertTransaction] on a table. *)
Definition upsert_block :=
  DatabaseService.insert_on_conflict DatabaseService.blocks_conflict
                                     DatabaseService.blocks_do_update.

Definition upsert_transaction :=
  DatabaseService.insert_on_conflict DatabaseService.transactions_conflict
                                     DatabaseService.transactions_do_update.

(** The parts of the state a transaction loop cannot touch. *)
Definition outside_transactions (s : Sys) :=
  (isIndexing s, lastProcessedBlock s, newBlockCallback s, blocks s,
   contract_interfaces s).

(** The events a transaction loop in world [w] can leave: receipt fetches,
    and writes of rows whose receipt the node has. *)
Definition transaction_event (w : World) (ev : Event) : Prop :=
  match ev with
  | EvGetTransactionReceipt _ => True
  | EvInsertTransaction t =>
      exists receipt,
        rpc_getTransactionReceipt w (Transaction.hash t) = Ok (Some receipt)
  | _ => False
  end.

(** The classifier in the words of the specification: the standards whose
    required function names are all among [functionNames], in the order of
    the table of standards. *)
Definition classify (functionNames : gset string) : list string :=
  map fst
    (filter (fun standard : string * list string =>
               (list_to_set (snd standard) : gset string) ⊆ functionNames)
            interfaceDetectors).

(** The tags stored for a contract, as [getContractInterfaces] selects
    them. *)
Definition interface_rows (address : string) (s : Sys)
  : list ContractInterface.t :=
  filter (fun row => ContractInterface.address row = toLowerCase address)
         (contract_interfaces s).

(** [abi] has an entry of type [function] named [func]. *)
Definition exposes (abi : list AbiItem.t) (func : string) : Prop :=
  exists item,
    item ∈ abi /\ AbiItem.type_ item = "function" /\ AbiItem.name item = func.

(** The tags stored for [address] once [detectAndStoreInterfaces] has run
    on [abi] in world [w] from state [s]. *)
Definition tags_after_detection (w : World) (s : Sys) (address : string)
    (abi : list AbiItem.t) : list string :=
  map ContractInterface.interface_type
      (interface_rows address (snd (detectAndStoreInterfaces address abi w s))).

Definition ERC20_functions : gset string :=
  list_to_set ["balanceOf"; "transfer"; "approve"; "allowance"; "transferFrom"].

Definition ERC721_functions : gset string :=
  list_to_set ["ownerOf"; "approve"; "transferFrom"; "safeTransferFrom"].

Definition abi_of_functions (names : list string) : list AbiItem.t :=
  map (AbiItem.mk "function") names.

(** ** Scenarios *)

(** A node at height [head] that serves [chain] and [receipts], and a store
    and a clock that answer every call. *)
Definition node (head : Z) (chain : Z -> option BlockWithTransactions.t)
    (receipts : string -> option TransactionReceipt.t) : World :=
  {| rpc_getNetwork := Ok tt;
     rpc_getBlockNumber := Ok head;
     rpc_getBlockWithTransactions := fun n => Ok (chain n);
     rpc_getTransactionReceipt := fun h => Ok (receipts h);
     pg_select := Ok tt;
     pg_insert_block := fun _ => Ok tt;
     pg_insert_transaction := fun _ => Ok tt;
     pg_insert_contract_interface := fun _ _ => Ok tt;
     now := 1700000600000;
     toISOString := fun _ => "2023-11-14T22:13:20.000Z" |}.

(** The same, with a store that rejects every transaction row. *)
Definition node_rejecting_transactions (head : Z)
    (chain : Z -> option BlockWithTransactions.t)
    (receipts : string -> option TransactionReceipt.t) : World :=
  {| rpc_getNetwork := Ok tt;
     rpc_getBlockNumber := Ok head;
     rpc_getBlockWithTransactions := fun n => Ok (chain n);
     rpc_getTransactionReceipt := fun h => Ok (receipts h);
     pg_select := Ok tt;
     pg_insert_block := fun _ => Ok tt;
     pg_insert_transaction := fun _ => Rejected PgError;
     pg_insert_contract_interface := fun _ _ => Ok tt;
     now := 1700000600000;
     toISOString := fun _ => "2023-11-14T22:13:20.000Z" |}.

Definition a_transfer : TransactionResponse.t :=
  {| TransactionResponse.hash := "0xaa";
     TransactionResponse.from := "0x01";
     TransactionResponse.to := Some "0x02";
     TransactionResponse.value := 5;
     TransactionResponse.gasPrice := Some 1;
     TransactionResponse.data := "0x";
     TransactionResponse.nonce := 0 |}.

Definition a_receipt : TransactionReceipt.t :=
  {| TransactionReceipt.gasUsed := 21000;
     TransactionReceipt.status := Some 1;
     TransactionReceipt.transactionIndex := 0 |}.

Definition a_block (txs : list TransactionResponse.t)
  : BlockWithTransactions.t :=
  {| BlockWithTransactions.hash := "0xb1";
     BlockWithTransactions.parentHash := "0xb0";
     BlockWithTransactions.timestamp := 1700000000;
     BlockWithTransactions.transactions := txs;
     BlockWithTransactions.gasUsed := 21000;
     BlockWithTransactions.gasLimit := 30000000;
     BlockWithTransactions.baseFeePerGas := Some 7 |}.

(** Every block exists and is empty. *)
Definition empty_chain (n : Z) : option BlockWithTransactions.t :=
  Some (a_block []).

(** Blocks 0, 1 and 2 with no, one and no transaction. *)
Definition chain_0_1_0 (n : Z) : option BlockWithTransactions.t :=
  if decide (n = 0) then Some (a_block [])
  else if decide (n = 1) then Some (a_block [a_transfer])
  else if decide (n = 2) then Some (a_block [])
  else None.

Definition no_receipt (h : string) : option TransactionReceipt.t := None.
Definition every_receipt (h : string) : option TransactionReceipt.t :=
  Some a_receipt.

(** A second transfer, and block 1 holding both; the node has the receipt
    of the second only. *)
Definition another_transfer : TransactionResponse.t :=
  {| TransactionResponse.hash := "0xbb";
     TransactionResponse.from := "0x02";
     TransactionResponse.to := Some "0x03";
     TransactionResponse.value := 7;
     TransactionResponse.gasPrice := Some 1;
     TransactionResponse.data := "0x";
     TransactionResponse.nonce := 0 |}.

Definition two_transfers (n : Z) : option BlockWithTransactions.t :=
  if decide (n = 1) then Some (a_block [a_transfer; another_transfer])
  else None.

Definition receipt_of_second (h : string) : option TransactionReceipt.t :=
  if decide (h = "0xbb") then Some a_receipt else None.

(** The receipts of the two transfers of block 1, at positions 0 and 1. *)
Definition receipts_in_order (h : string) : option TransactionReceipt.t :=
  if decide (h = "0xaa") then Some a_receipt
  else if decide (h = "0xbb")
       then Some {| TransactionReceipt.gasUsed := 21000;
                    TransactionReceipt.status := Some 1;
                    TransactionReceipt.transactionIndex := 1 |}
       else None.

(** The store once block 1 with its two transfers has been processed. *)
Definition two_transfers_stored : Sys :=
  snd (processBlock 1 (node 1 two_transfers receipts_in_order)
         (constructor [] [] [])).

(** A service started on an empty store against a node at height 10, once
    its backfill is over: it runs and its watermark is 10. *)
Definition caught_up_at_10 : Sys :=
  snd (start 20 (node 10 empty_chain every_receipt) (constructor [] [] [])).

(** A service started on an empty store against a node at height 0: it
    runs, its backfill loop has been left at once, and its watermark is
    0. *)
Definition running_at_0 : Sys :=
  snd (start 1 (node 0 empty_chain every_receipt) (constructor [] [] [])).

(** The service of [caught_up_at_10] after [stop]. *)
Definition stopped_at_10 : Sys :=
  snd (stop (node 10 empty_chain every_receipt) caught_up_at_10).

(** ** Invariants of the store *)

(** One row per block number, one row per transaction hash, and every
    transaction row refers to a stored block. *)
Definition store_consistent (s : Sys) : Prop :=
  NoDup (map Block.number (blocks s))
  /\ NoDup (map Transaction.hash (transactions s))
  /\ forall t, t ∈ transactions s ->
               Transaction.block_number t ∈ map Block.number (blocks s).

(** The key of a row of [contract_interfaces]. *)
Definition interface_key (row : ContractInterface.t) : string * string :=
  (ContractInterface.address row, ContractInterface.interface_type row).

(** ** [indexer.ts]: the backfill loop among live notifications *)

(** [start] has registered [handleNewBlock] with the provider when it awaits
    [processHistoricalBlocks], so the provider calls the handler while the
    loop is suspended at an [await]; the handler and the loop share
    [lastProcessedBlock].  (Nothing else of the service runs meanwhile: the
    caller of [start] registers its shutdown handlers and starts the API
    after [start] has returned.)

    [processHistoricalBlocks_among announced] is the loop with, turn by
    turn, the block numbers whose notifications are handled before the loop
    reads the watermark in that turn, that is, during the five-second wait
    that ended the turn before or while the loop awaits the height of the
    node.  The handlers run one after the other, each to its end, and their
    outside calls come before those of the turn in the trace.  The length of
    [announced] is the number of turns observed.  A notification handled in
    the middle of a pass of the loop is outside the model. *)
Fixpoint processHistoricalBlocks_among (announced : list (list Z)) : M unit :=
  let* running := gets isIndexing in
  if running then
    match announced with
    | [] => out_of_fuel
    | blockNumbers :: later =>
        for_of blockNumbers handleNewBlock ;;
        let* left := historical_step in
        if left then ret tt else processHistoricalBlocks_among later
    end
  else ret tt.

(** ** [database.ts]: the ordered and paged reads *)

(** An outside call that the trace does not record ([Event] has no
    constructor for the queries below). *)
Definition query {A} (answer : World -> Res A) : M A :=
  let* r := asks answer in
  match r with
  | Ok a => ret a
  | Rejected e => throw e
  end.

(** [ORDER BY transaction_index ASC]: [a] may come before [b]. *)
Definition by_index_asc (a b : Transaction.t) : Prop :=
  Transaction.transaction_index a <= Transaction.transaction_index b.

(** [ORDER BY block_number DESC, transaction_index DESC]. *)
Definition latest_first (a b : Transaction.t) : Prop :=
  Transaction.block_number b < Transaction.block_number a
  \/ (Transaction.block_number a = Transaction.block_number b
      /\ Transaction.transaction_index b <= Transaction.transaction_index a).

#[global] Instance by_index_asc_dec : RelDecision by_index_asc.
Proof. intros a b. unfold by_index_asc. apply _. Defined.

#[global] Instance latest_first_dec : RelDecision latest_first.
Proof. intros a b. unfold latest_first. apply _. Defined.

(** [ORDER BY]: the rows sorted; rows that the order does not tell apart
    come in an order that PostgreSQL leaves open, here that of the merge
    sort.  What is proved of the ordered reads holds of every sorted
    arrangement of the rows, or is stated for rows that the order tells
    apart. *)
Definition order_by (R : relation Transaction.t) `{!RelDecision R}
    (rows : list Transaction.t) : list Transaction.t :=
  merge_sort R rows.

(** The largest value of the type [bigint] of PostgreSQL, and
    [Number.MAX_SAFE_INTEGER], up to which a JavaScript number holds an
    integer exactly. *)
Definition bigint_max : Z := 9223372036854775807.
Definition MAX_SAFE_INTEGER : Z := 9007199254740991.

(** [LIMIT $limit OFFSET $offset].  Both parameters are of type [bigint]:
    PostgreSQL rejects a value above the type, and rejects a negative limit
    or offset. *)
Definition limit_offset {A} (limit offset : Z) (rows : list A)
  : Res (list A) :=
  if (limit <? 0) || (offset <? 0)
     || (bigint_max <? limit) || (bigint_max <? offset)
  then Rejected PgError
  else Ok (take (Z.to_nat limit) (drop (Z.to_nat offset) rows)).

(** The place of a transaction in the chain, which is what [latest_first]
    compares. *)
Definition position (row : Transaction.t) : Z * Z :=
  (Transaction.block_number row, Transaction.transaction_index row).

(** [WHERE from_address = $1 OR to_address = $1] *)
Definition involves (address : string) (row : Transaction.t) : Prop :=
  Transaction.from_address row = address
  \/ Transaction.to_address row = Some address.

#[global] Instance involves_dec address row : Decision (involves address row).
Proof. unfold involves. apply _. Defined.

Module DatabaseQueries.

Definition getTransactionsByBlock (blockNumber : Z)
  : M (list Transaction.t) :=
  try_catch
    (query pg_select ;;
     let* rows := gets transactions in
     ret (order_by by_index_asc
            (filter (fun row => Transaction.block_number row = blockNumber)
                    rows)))
    (fun _ => ret []).

Definition getTransactionsByAddress (address : string) (limit offset : Z)
  : M (list Transaction.t) :=
  try_catch
    (query pg_select ;;
     let* rows := gets transactions in
     query (fun _ =>
              limit_offset limit offset
                (order_by latest_first (filter (involves address) rows))))
    (fun _ => ret []).

Definition getLatestTransactions (limit offset : Z)
  : M (list Transaction.t) :=
  try_catch
    (query pg_select ;;
     let* rows := gets transactions in
     query (fun _ => limit_offset limit offset (order_by latest_first rows)))
    (fun _ => ret []).

End DatabaseQueries.

(** ** [contract-verifier.ts]: verification *)

(** [s.replace(pattern, '')] with a string pattern: the first occurrence
    of [pattern] in [s] is cut out. *)
Fixpoint string_drop (n : nat) (s : string) : string :=
  match n, s with
  | O, _ => s
  | S n', EmptyString => EmptyString
  | S n', String _ rest => string_drop n' rest
  end.

Fixpoint replace_first (pattern s : string) : string :=
  if String.prefix pattern s then string_drop (String.length pattern) s
  else match s with
       | EmptyString => EmptyString
       | String c rest => String c (replace_first pattern rest)
       end.

Definition compareBytecode (compiledBytecode deployedBytecode
                            constructorArgs : string) : bool :=
  let deployedBytecodeWithoutConstructor :=
    replace_first constructorArgs deployedBytecode in
  bool_decide (compiledBytecode = deployedBytecodeWithoutConstructor).

Inductive VerificationStatus :=
  | pending
  | success
  | failure.

#[global] Instance VerificationStatus_eq_dec : EqDecision VerificationStatus.
Proof. solve_decision. Defined.

Module ContractVerification.
Record t := mk {
  address : string;
  name : string;
  source_code : string;
  compiler_version : string;
  optimization_used : bool;
  optimization_runs : Z;
  constructor_arguments : string;
  abi : string;
  verified_at : Date;
  is_verified : bool;
  license_type : string;
  verification_status : VerificationStatus;
  verification_error : option string
}.
End ContractVerification.

Module CompilationResult.
Record t := mk {
  abi : list AbiItem.t;
  bytecode : string
}.
End CompilationResult.

(** What a [catch] clause of the verifier receives: an [Error] with its
    message, or some other value. *)
Inductive JsValue :=
  | JsError (message : string)
  | JsOther.

Inductive Answer (A : Type) :=
  | Answered (a : A)
  | Failed (error : JsValue).
Arguments Answered {A} a.
Arguments Failed {A} error.

(** The world of the verifier: that of the indexer, the code of the
    contracts on the node, the answers of the server on the table of
    verifications, [JSON.stringify], and how a thrown [Exn] of the
    indexer's side looks to a [catch] clause. *)
Record VerifierWorld := {
  indexer_world : World;
  rpc_getCode : string -> Answer string;
  pg_select_verification : Answer unit;
  pg_update_verification : string -> VerificationStatus -> Answer unit;
  pg_insert_verification : ContractVerification.t -> Answer unit;
  JSON_stringify : list AbiItem.t -> string;
  thrown_value : Exn -> JsValue
}.

(** The state of the verifier: that of the indexer, and the table
    [contract_verifications]. *)
Record VerifierSys := mkVerifierSys {
  sys : Sys;
  contract_verifications : list ContractVerification.t
}.

Inductive VOutcome (A : Type) :=
  | Returned (a : A)
  | Raised (error : JsValue)
  | Unfinished.
Arguments Returned {A} a.
Arguments Raised {A} error.
Arguments Unfinished {A}.

Definition V (A : Type) : Type :=
  VerifierWorld -> VerifierSys -> VOutcome A * VerifierSys.

Definition vret {A} (a : A) : V A := fun _ vs => (Returned a, vs).

Definition vbind {A B} (m : V A) (k : A -> V B) : V B :=
  fun vw vs =>
    match m vw vs with
    | (Returned a, vs') => k a vw vs'
    | (Raised error, vs') => (Raised error, vs')
    | (Unfinished, vs') => (Unfinished, vs')
    end.

Notation "'let+' x ':=' m 'in' k" := (vbind m (fun x => k))
  (at level 10, x name, m at level 100, k at level 200).
Notation "m1 ';+' m2" := (vbind m1 (fun _ => m2))
  (at level 100, m2 at level 200, right associativity).

Definition vthrow {A} (error : JsValue) : V A :=
  fun _ vs => (Raised error, vs).

Definition vtry_catch {A} (m : V A) (h : JsValue -> V A) : V A :=
  fun vw vs =>
    match m vw vs with
    | (Raised error, vs') => h error vw vs'
    | r => r
    end.

Definition vawait {A} (answer : VerifierWorld -> Answer A) : V A :=
  fun vw vs =>
    match answer vw with
    | Answered a => (Returned a, vs)
    | Failed error => (Raised error, vs)
    end.

Definition vasks {A} (f : VerifierWorld -> A) : V A :=
  fun vw vs => (Returned (f vw), vs).

Definition vmodify_verifications
    (f : list ContractVerification.t -> list ContractVerification.t)
  : V unit :=
  fun _ vs => (Returned tt, mkVerifierSys (sys vs) (f (contract_verifications vs))).

(** A computation of the indexer's side run inside the verifier. *)
Definition lift {A} (m : M A) : V A :=
  fun vw vs =>
    match m (indexer_world vw) (sys vs) with
    | (Done a, s') => (Returned a, mkVerifierSys s' (contract_verifications vs))
    | (Thrown e, s') =>
        (Raised (thrown_value vw e), mkVerifierSys s' (contract_verifications vs))
    | (OutOfFuel, s') => (Unfinished, mkVerifierSys s' (contract_verifications vs))
    end.

Module VerificationStore.

(** [ON CONFLICT (address)] and the [SET] list of
    [insertContractVerification]. *)
Definition verifications_conflict (row excluded : ContractVerification.t)
  : bool :=
  bool_decide (ContractVerification.address row
               = ContractVerification.address excluded).

Definition verifications_do_update (row excluded : ContractVerification.t)
  : ContractVerification.t :=
  {| ContractVerification.address := ContractVerification.address row;
     ContractVerification.name := ContractVerification.name excluded;
     ContractVerification.source_code :=
       ContractVerification.source_code excluded;
     ContractVerification.compiler_version :=
       ContractVerification.compiler_version excluded;
     ContractVerification.optimization_used :=
       ContractVerification.optimization_used excluded;
     ContractVerification.optimization_runs :=
       ContractVerification.optimization_runs excluded;
     ContractVerification.constructor_arguments :=
       ContractVerification.constructor_arguments excluded;
     ContractVerification.abi := ContractVerification.abi excluded;
     ContractVerification.verified_at :=
       ContractVerification.verified_at excluded;
     ContractVerification.is_verified :=
       ContractVerification.is_verified excluded;
     ContractVerification.license_type :=
       ContractVerification.license_type excluded;
     ContractVerification.verification_status :=
       ContractVerification.verification_status excluded;
     ContractVerification.verification_error :=
       ContractVerification.verification_error excluded |}.

(** The row that [insertContractVerification] proposes: the record with
    its address in lower case. *)
Definition proposed_row (verification : ContractVerification.t)
  : ContractVerification.t :=
  {| ContractVerification.address :=
       toLowerCase (ContractVerification.address verification);
     ContractVerification.name := ContractVerification.name verification;
     ContractVerification.source_code :=
       ContractVerification.source_code verification;
     ContractVerification.compiler_version :=
       ContractVerification.compiler_version verification;
     ContractVerification.optimization_used :=
       ContractVerification.optimization_used verification;
     ContractVerification.optimization_runs :=
       ContractVerification.optimization_runs verification;
     ContractVerification.constructor_arguments :=
       ContractVerification.constructor_arguments verification;
     ContractVerification.abi := ContractVerification.abi verification;
     ContractVerification.verified_at :=
       ContractVerification.verified_at verification;
     ContractVerification.is_verified :=
       ContractVerification.is_verified verification;
     ContractVerification.license_type :=
       ContractVerification.license_type verification;
     ContractVerification.verification_status :=
       ContractVerification.verification_status verification;
     ContractVerification.verification_error :=
       ContractVerification.verification_error verification |}.

(** [WHERE address = $1], then [result.rows[0] || null]. *)
Definition getContractVerification (address : string)
  : V (option ContractVerification.t) :=
  vtry_catch
    (vawait pg_select_verification ;+
     fun _ vs =>
       (Returned
          (head (filter (fun row => ContractVerification.address row
                                    = toLowerCase address)
                        (contract_verifications vs))),
        vs))
    (fun _ => vret None).

Definition insertContractVerification (verification : ContractVerification.t)
  : V unit :=
  vtry_catch
    (vawait (fun vw => pg_insert_verification vw (proposed_row verification)) ;+
     vmodify_verifications
       (DatabaseService.insert_on_conflict verifications_conflict
          verifications_do_update (proposed_row verification)))
    (fun error => vthrow error).

(** The [SET] list of [updateVerificationStatus] on one row. *)
Definition set_status (status : VerificationStatus) (error : option string)
    (verified_at : Date) (row : ContractVerification.t)
  : ContractVerification.t :=
  {| ContractVerification.address := ContractVerification.address row;
     ContractVerification.name := ContractVerification.name row;
     ContractVerification.source_code := ContractVerification.source_code row;
     ContractVerification.compiler_version :=
       ContractVerification.compiler_version row;
     ContractVerification.optimization_used :=
       ContractVerification.optimization_used row;
     ContractVerification.optimization_runs :=
       ContractVerification.optimization_runs row;
     ContractVerification.constructor_arguments :=
       ContractVerification.constructor_arguments row;
     ContractVerification.abi := ContractVerification.abi row;
     ContractVerification.verified_at := verified_at;
     ContractVerification.is_verified := bool_decide (status = success);
     ContractVerification.license_type := ContractVerification.license_type row;
     ContractVerification.verification_status := status;
     ContractVerification.verification_error := error |}.

(** [UPDATE contract_verifications SET ... WHERE address = $5] *)
Definition updateVerificationStatus (address : string)
    (status : VerificationStatus) (error : option string) : V unit :=
  vtry_catch
    (let+ verified_at := vasks (fun vw => now (indexer_world vw)) in
     vawait (fun vw => pg_update_verification vw (toLowerCase address) status) ;+
     vmodify_verifications
       (map (fun row =>
               if decide (ContractVerification.address row
                          = toLowerCase address)
               then set_status status error verified_at row
               else row)))
    (fun error => vthrow error).

End VerificationStore.

(** [error instanceof Error ? error.message : 'Unknown error during verification'] *)
Definition error_message (error : JsValue) : string :=
  match error with
  | JsError message => message
  | JsOther => "Unknown error during verification"
  end.

Definition compileContract (sourceCode compilerVersion : string)
    (optimizationUsed : bool) (optimizationRuns : Z)
  : V CompilationResult.t :=
  vthrow (JsError "Compilation not implemented").

(** The record written on success:
    [{...verification, abi, is_verified, verification_status, verified_at}] *)
Definition verified_record (verification : ContractVerification.t)
    (abi : string) (verified_at : Date) : ContractVerification.t :=
  {| ContractVerification.address := ContractVerification.address verification;
     ContractVerification.name := ContractVerification.name verification;
     ContractVerification.source_code :=
       ContractVerification.source_code verification;
     ContractVerification.compiler_version :=
       ContractVerification.compiler_version verification;
     ContractVerification.optimization_used :=
       ContractVerification.optimization_used verification;
     ContractVerification.optimization_runs :=
       ContractVerification.optimization_runs verification;
     ContractVerification.constructor_arguments :=
       ContractVerification.constructor_arguments verification;
     ContractVerification.abi := abi;
     ContractVerification.verified_at := verified_at;
     ContractVerification.is_verified := true;
     ContractVerification.license_type :=
       ContractVerification.license_type verification;
     ContractVerification.verification_status := success;
     ContractVerification.verification_error :=
       ContractVerification.verification_error verification |}.

Definition verifyContract (verification : ContractVerification.t) : V unit :=
  vtry_catch
    (let+ deployedBytecode :=
       vawait (fun vw =>
                 rpc_getCode vw (ContractVerification.address verification)) in
     let+ compilationResult :=
       compileContract
         (ContractVerification.source_code verification)
         (ContractVerification.compiler_version verification)
         (ContractVerification.optimization_used verification)
         (ContractVerification.optimization_runs verification) in
     let bytecodeMatches :=
       compareBytecode
         (CompilationResult.bytecode compilationResult)
         deployedBytecode
         (ContractVerification.constructor_arguments verification) in
     if bytecodeMatches then
       VerificationStore.updateVerificationStatus
         (ContractVerification.address verification) success None ;+
       let+ abi :=
         vasks (fun vw =>
                  JSON_stringify vw (CompilationResult.abi compilationResult)) in
       let+ verified_at := vasks (fun vw => now (indexer_world vw)) in
       VerificationStore.insertContractVerification
         (verified_record verification abi verified_at) ;+
       lift (detectAndStoreInterfaces
               (ContractVerification.address verification)
               (CompilationResult.abi compilationResult))
     else
       VerificationStore.updateVerificationStatus
         (ContractVerification.address verification) failure
         (Some "Compiled bytecode does not match deployed bytecode"))
    (fun error =>
       let errorMessage := error_message error in
       VerificationStore.updateVerificationStatus
         (ContractVerification.address verification) failure
         (Some errorMessage)).

(** A verifier world in which node and server answer every call. *)
Definition verifier_world (w : World) : VerifierWorld :=
  {| indexer_world := w;
     rpc_getCode := fun _ => Answered "0x6080";
     pg_select_verification := Answered tt;
     pg_update_verification := fun _ _ => Answered tt;
     pg_insert_verification := fun _ => Answered tt;
     JSON_stringify := fun _ => "[]";
     thrown_value := fun _ => JsError "query failed" |}.

Definition a_verification : ContractVerification.t :=
  {| ContractVerification.address := "0xAbCd01";
     ContractVerification.name := "Token";
     ContractVerification.source_code := "contract Token {}";
     ContractVerification.compiler_version := "0.8.20";
     ContractVerification.optimization_used := true;
     ContractVerification.optimization_runs := 200;
     ContractVerification.constructor_arguments := EmptyString;
     ContractVerification.abi := EmptyString;
     ContractVerification.verified_at := 1700000000000;
     ContractVerification.is_verified := false;
     ContractVerification.license_type := "MIT";
     ContractVerification.verification_status := pending;
     ContractVerification.verification_error := None |}.

(** The state after the verification route has stored the pending
    record. *)
Definition verification_submitted : VerifierSys :=
  snd (VerificationStore.insertContractVerification a_verification
         (verifier_world (node 10 empty_chain every_receipt))
         (mkVerifierSys caught_up_at_10 [])).

(** ** What a pass writes *)

(** The transaction rows that a pass over [txs] sends to the store in
    world [w]: one for each transaction whose receipt the node has, in the
    order of the block. *)
Definition rows_of_pass (w : World) (blockNumber : Z)
    (blockWithTxs : BlockWithTransactions.t)
    (txs : list TransactionResponse.t) : list Transaction.t :=
  omap (fun tx =>
          match rpc_getTransactionReceipt w (TransactionResponse.hash tx) with
          | Ok (Some receipt) =>
              Some (prepare_transaction blockNumber blockWithTxs tx receipt
                      (toISOString w))
          | _ => None
          end) txs.

(** Rows upserted one after the other. *)
Definition upsert_transactions (rows table : list Transaction.t)
  : list Transaction.t :=
  fold_left (fun table row => upsert_transaction row table) rows table.

(** * Proofs *)

(** ** The monad *)

Ltac split3 := split; [|split].
Ltac split4 := split; [|split; [|split]].

Ltac unfold_monad :=
  unfold await, emit, modify, gets, asks, throw, ret, bind, try_catch,
         out_of_fuel in *.

Lemma await_Ok {A} (ev : Event) (answer : World -> Res A) w s a :
  answer w = Ok a ->
  await ev answer w s = (Done a, set_trace (trace s ++ [ev]) s).
Proof. intros E. unfold_monad. now rewrite E. Qed.

Lemma await_Rejected {A} (ev : Event) (answer : World -> Res A) w s e :
  answer w = Rejected e ->
  await ev answer w s = (Thrown e, set_trace (trace s ++ [ev]) s).
Proof. intros E. unfold_monad. now rewrite E. Qed.

Lemma bind_Done {A B} (m : M A) (k : A -> M B) w s a s' :
  m w s = (Done a, s') -> bind m k w s = k a w s'.
Proof. intros E. unfold bind. now rewrite E. Qed.

Lemma bind_Thrown {A B} (m : M A) (k : A -> M B) w s e s' :
  m w s = (Thrown e, s') -> bind m k w s = (Thrown e, s').
Proof. intros E. unfold bind. now rewrite E. Qed.

(** ** The store *)

Section InsertOnConflict.
Context {R K : Type} `{EqDecision K} (key : R -> K).
Variable do_update : R -> R -> R.
Hypothesis do_update_key :
  forall row excluded, key (do_update row excluded) = key row.
Hypothesis do_update_excluded :
  forall row excluded, key row = key excluded -> do_update row excluded = excluded.

Let conflict (row excluded : R) : bool := bool_decide (key row = key excluded).
Let upsert := DatabaseService.insert_on_conflict conflict do_update.

Lemma upsert_idempotent (excluded : R) (rows : list R) :
  upsert excluded (upsert excluded rows) = upsert excluded rows.
Proof.
  subst upsert conflict. induction rows as [|row rest IH]; simpl.
  - rewrite bool_decide_eq_true_2 by reflexivity.
    now rewrite do_update_excluded.
  - destruct (bool_decide (key row = key excluded)) eqn:E; simpl.
    + apply bool_decide_eq_true_1 in E.
      rewrite (do_update_excluded _ _ E).
      rewrite bool_decide_eq_true_2 by reflexivity.
      now rewrite do_update_excluded.
    + rewrite E. now rewrite IH.
Qed.

Lemma upsert_keys_other (excluded : R) (rows : list R) (k : K) :
  key excluded <> k ->
  filter (fun row => key row = k) (upsert excluded rows)
  = filter (fun row => key row = k) rows.
Proof.
  intros Hk. subst upsert conflict. induction rows as [|row rest IH]; simpl.
  - rewrite filter_cons_False by assumption. reflexivity.
  - destruct (bool_decide (key row = key excluded)) eqn:E.
    + apply bool_decide_eq_true_1 in E.
      rewrite !filter_cons_False; [reflexivity | congruence |].
      rewrite do_update_key. congruence.
    + rewrite !filter_cons. rewrite IH. reflexivity.
Qed.

Lemma upsert_keys (excluded : R) (rows : list R) :
  map key (upsert excluded rows)
  = if bool_decide (key excluded ∈ map key rows)
    then map key rows
    else map key rows ++ [key excluded].
Proof.
  subst upsert conflict. induction rows as [|row rest IH]; cbn [map].
  - rewrite bool_decide_eq_false_2 by apply not_elem_of_nil. reflexivity.
  - cbn [DatabaseService.insert_on_conflict].
    destruct (decide (key row = key excluded)) as [E|E].
    + rewrite (bool_decide_eq_true_2 (key row = key excluded)) by assumption.
      rewrite bool_decide_eq_true_2 by (rewrite E; apply list_elem_of_here).
      cbn [map]. now rewrite do_update_key.
    + rewrite (bool_decide_eq_false_2 (key row = key excluded)) by assumption.
      cbn [map]. rewrite IH.
      destruct (decide (key excluded ∈ map key rest)) as [E'|E'].
      * rewrite !bool_decide_eq_true_2; [reflexivity| |assumption].
        now apply list_elem_of_further.
      * rewrite !bool_decide_eq_false_2; [reflexivity| |assumption].
        intros [?|?]%elem_of_cons; congruence.
Qed.

Lemma upsert_NoDup (excluded : R) (rows : list R) :
  NoDup (map key rows) -> NoDup (map key (upsert excluded rows)).
Proof.
  intros Hnd. rewrite upsert_keys.
  destruct (bool_decide (key excluded ∈ map key rows)) eqn:E; [assumption|].
  apply bool_decide_eq_false_1 in E.
  apply NoDup_app. split; [assumption|]. split.
  - intros x Hx Hx'. apply list_elem_of_singleton in Hx'. congruence.
  - apply NoDup_singleton.
Qed.

Lemma no_row_under_absent_key (k : K) (rows : list R) :
  k ∉ map key rows -> filter (fun row => key row = k) rows = [].
Proof.
  induction rows as [|row rest IH]; cbn [map]; intros Hk; [reflexivity|].
  apply not_elem_of_cons in Hk as [Hne Hk].
  rewrite filter_cons_False by congruence. now apply IH.
Qed.

Lemma upsert_stored_once (excluded : R) (rows : list R) :
  NoDup (map key rows) ->
  filter (fun row => key row = key excluded) (upsert excluded rows) = [excluded].
Proof.
  subst upsert conflict. induction rows as [|row rest IH]; simpl; intros Hnd.
  - now rewrite filter_cons_True by reflexivity.
  - apply NoDup_cons in Hnd as [Hnotin Hnd].
    destruct (bool_decide (key row = key excluded)) eqn:E.
    + apply bool_decide_eq_true_1 in E.
      rewrite (do_update_excluded _ _ E).
      rewrite filter_cons_True by reflexivity. f_equal.
      apply no_row_under_absent_key. now rewrite <- E.
    + apply bool_decide_eq_false_1 in E.
      rewrite filter_cons_False by assumption. now apply IH.
Qed.

Lemma upsert_first_row (excluded : R) (rows : list R) :
  head (filter (fun row => key row = key excluded) (upsert excluded rows))
  = Some excluded.
Proof.
  subst upsert conflict. induction rows as [|row rest IH]; simpl.
  - now rewrite filter_cons_True by reflexivity.
  - destruct (bool_decide (key row = key excluded)) eqn:E.
    + apply bool_decide_eq_true_1 in E.
      rewrite (do_update_excluded _ _ E).
      now rewrite filter_cons_True by reflexivity.
    + apply bool_decide_eq_false_1 in E.
      now rewrite filter_cons_False by assumption.
Qed.

End InsertOnConflict.

Lemma blocks_do_update_key row excluded :
  Block.number (DatabaseService.blocks_do_update row excluded) = Block.number row.
Proof. reflexivity. Qed.

Lemma blocks_do_update_excluded row excluded :
  Block.number row = Block.number excluded ->
  DatabaseService.blocks_do_update row excluded = excluded.
Proof.
  destruct excluded. unfold DatabaseService.blocks_do_update. cbn.
  now intros ->.
Qed.

Lemma transactions_do_update_key row excluded :
  Transaction.hash (DatabaseService.transactions_do_update row excluded)
  = Transaction.hash row.
Proof. reflexivity. Qed.

Lemma transactions_do_update_excluded row excluded :
  Transaction.hash row = Transaction.hash excluded ->
  DatabaseService.transactions_do_update row excluded = excluded.
Proof.
  destruct excluded. unfold DatabaseService.transactions_do_update. cbn.
  now intros ->.
Qed.

Lemma upsert_block_idempotent b rows :
  upsert_block b (upsert_block b rows) = upsert_block b rows.
Proof.
  apply (upsert_idempotent Block.number _ blocks_do_update_excluded).
Qed.

Lemma upsert_transaction_idempotent t rows :
  upsert_transaction t (upsert_transaction t rows) = upsert_transaction t rows.
Proof.
  apply (upsert_idempotent Transaction.hash _ transactions_do_update_excluded).
Qed.

Lemma upsert_block_NoDup b rows :
  NoDup (map Block.number rows) ->
  NoDup (map Block.number (upsert_block b rows)).
Proof. apply (upsert_NoDup Block.number _ blocks_do_update_key). Qed.

Lemma upsert_transaction_NoDup t rows :
  NoDup (map Transaction.hash rows) ->
  NoDup (map Transaction.hash (upsert_transaction t rows)).
Proof. apply (upsert_NoDup Transaction.hash _ transactions_do_update_key). Qed.

Lemma upsert_block_stored_once b rows :
  NoDup (map Block.number rows) ->
  filter (fun row => Block.number row = Block.number b) (upsert_block b rows)
  = [b].
Proof.
  apply (upsert_stored_once Block.number _ blocks_do_update_excluded).
Qed.

Lemma upsert_transaction_stored_once t rows :
  NoDup (map Transaction.hash rows) ->
  filter (fun row => Transaction.hash row = Transaction.hash t)
         (upsert_transaction t rows)
  = [t].
Proof.
  apply (upsert_stored_once Transaction.hash _ transactions_do_update_excluded).
Qed.

Lemma upsert_block_other b rows n :
  Block.number b <> n ->
  filter (fun row => Block.number row = n) (upsert_block b rows)
  = filter (fun row => Block.number row = n) rows.
Proof. apply (upsert_keys_other Block.number _ blocks_do_update_key). Qed.

Lemma upsert_transaction_other t rows h :
  Transaction.hash t <> h ->
  filter (fun row => Transaction.hash row = h) (upsert_transaction t rows)
  = filter (fun row => Transaction.hash row = h) rows.
Proof.
  apply (upsert_keys_other Transaction.hash _ transactions_do_update_key).
Qed.

Lemma upsert_block_first_row b rows :
  head (filter (fun row => Block.number row = Block.number b)
               (upsert_block b rows))
  = Some b.
Proof.
  apply (upsert_first_row Block.number _ blocks_do_update_excluded).
Qed.

(** What [insertBlock] and [insertTransaction] do, by the answer of the
    server. *)
Lemma insertBlock_eq (block : Block.t) w s :
  DatabaseService.insertBlock block w s
  = match pg_insert_block w block with
    | Ok _ =>
        (Done tt,
         set_blocks (upsert_block block (blocks s))
                    (set_trace (trace s ++ [EvInsertBlock block]) s))
    | Rejected e =>
        (Thrown e, set_trace (trace s ++ [EvInsertBlock block]) s)
    end.
Proof.
  unfold DatabaseService.insertBlock. unfold_monad.
  destruct (pg_insert_block w block); reflexivity.
Qed.

Lemma insertTransaction_eq (transaction : Transaction.t) w s :
  DatabaseService.insertTransaction transaction w s
  = match pg_insert_transaction w transaction with
    | Ok _ =>
        (Done tt,
         set_transactions (upsert_transaction transaction (transactions s))
                          (set_trace (trace s ++ [EvInsertTransaction transaction]) s))
    | Rejected e =>
        (Thrown e, set_trace (trace s ++ [EvInsertTransaction transaction]) s)
    end.
Proof.
  unfold DatabaseService.insertTransaction. unfold_monad.
  destruct (pg_insert_transaction w transaction); reflexivity.
Qed.

(** ** One pass of [processBlock] *)

(** What the body of the transaction loop does, by the answers it gets. *)
Lemma process_transaction_eq n bwt tx w s :
  process_transaction n bwt tx w s
  = let s1 := set_trace (trace s ++ [EvGetTransactionReceipt
                                       (TransactionResponse.hash tx)]) s in
    match rpc_getTransactionReceipt w (TransactionResponse.hash tx) with
    | Rejected e => (Thrown e, s1)
    | Ok None => (Done tt, s1)
    | Ok (Some receipt) =>
        DatabaseService.insertTransaction
          (prepare_transaction n bwt tx receipt (toISOString w)) w s1
    end.
Proof.
  unfold process_transaction, BlockchainService.getTransactionReceipt.
  unfold_monad. cbn.
  destruct (rpc_getTransactionReceipt w (TransactionResponse.hash tx))
    as [[receipt|]|e]; reflexivity.
Qed.

Lemma transaction_loop_frame n bwt txs w s r s' :
  for_of txs (process_transaction n bwt) w s = (r, s') ->
  outside_transactions s' = outside_transactions s
  /\ r <> OutOfFuel
  /\ (exists evs, trace s' = trace s ++ evs
                  /\ Forall (transaction_event w) evs)
  /\ (forall h, (forall receipt,
                   rpc_getTransactionReceipt w h <> Ok (Some receipt)) ->
                transaction_rows h s' = transaction_rows h s).
Proof.
  revert s. induction txs as [|tx rest IH]; intros s Hrun; cbn [for_of] in Hrun.
  - injection Hrun as <- <-.
    split4; [reflexivity | discriminate | | reflexivity].
    exists []. now rewrite app_nil_r.
  - unfold bind at 1 in Hrun. rewrite process_transaction_eq in Hrun.
    cbn zeta in Hrun.
    destruct (rpc_getTransactionReceipt w (TransactionResponse.hash tx))
      as [[receipt|]|e] eqn:Ereceipt.
    + rewrite insertTransaction_eq in Hrun.
      destruct (pg_insert_transaction w _) as [[]|e].
      * apply IH in Hrun as (Hout & Hfuel & (evs & Htr & Hevs) & Hrows).
        split4; [ now rewrite Hout | assumption | | ].
        -- eexists. rewrite Htr. cbn [trace set_transactions set_trace].
           rewrite <- !app_assoc. split; [reflexivity|].
           cbn. repeat constructor; [|assumption].
           exists receipt. exact Ereceipt.
        -- intros h Hh. rewrite Hrows by assumption.
           unfold transaction_rows. cbn [transactions set_transactions].
           apply upsert_transaction_other. cbn. intros <-.
           now apply (Hh receipt).
      * injection Hrun as <- <-.
        split4; [reflexivity | discriminate | | reflexivity].
        eexists. cbn [trace set_trace]. rewrite <- app_assoc.
        split; [reflexivity|].
        cbn. repeat constructor. exists receipt. exact Ereceipt.
    + apply IH in Hrun as (Hout & Hfuel & (evs & Htr & Hevs) & Hrows).
      split4; [ now rewrite Hout | assumption | | ].
      * eexists. rewrite Htr. cbn [trace set_trace].
        rewrite <- app_assoc. split; [reflexivity|].
        cbn. now repeat constructor.
      * intros h Hh. now rewrite Hrows.
    + injection Hrun as <- <-.
      split4; [reflexivity | discriminate | | reflexivity].
      eexists. split; [reflexivity|]. cbn. now repeat constructor.
Qed.
Lemma transaction_loop_outcome n bwt txs w s r s' :
  for_of txs (process_transaction n bwt) w s = (r, s') ->
  (r = Done tt /\ forallb (transaction_goes_through w n bwt) txs = true)
  \/ ((exists e, r = Thrown e)
      /\ forallb (transaction_goes_through w n bwt) txs = false).
Proof.
  revert s. induction txs as [|tx rest IH]; intros s Hrun;
    cbn [for_of forallb] in *.
  - injection Hrun as <- <-. now left.
  - unfold bind at 1 in Hrun. rewrite process_transaction_eq in Hrun.
    cbn zeta in Hrun. unfold transaction_goes_through at 1 3.
    destruct (rpc_getTransactionReceipt w (TransactionResponse.hash tx))
      as [[receipt|]|e] eqn:Ereceipt.
    + rewrite insertTransaction_eq in Hrun.
      destruct (pg_insert_transaction w _) as [[]|e]; cbn [is_ok andb].
      * now apply IH in Hrun.
      * injection Hrun as <- <-. right. split; [now exists e | reflexivity].
    + cbn [andb]. now apply IH in Hrun.
    + injection Hrun as <- <-. right. split; [now exists e | reflexivity].
Qed.

(** What [processBlock] does, by the answers it gets. *)
Lemma processBlock_eq n w s :
  processBlock n w s
  = let s1 := set_trace (trace s ++ [EvGetBlockWithTransactions n]) s in
    match rpc_getBlockWithTransactions w n with
    | Rejected e => (Thrown e, s1)
    | Ok None => (Thrown TypeError, s1)
    | Ok (Some bwt) =>
        match DatabaseService.insertBlock (prepare_block n bwt) w s1 with
        | (Done _, s2) =>
            match for_of (BlockWithTransactions.transactions bwt)
                         (process_transaction n bwt) w s2 with
            | (Done _, s3) => (Done tt, set_lastProcessedBlock n s3)
            | (Thrown e, s3) => (Thrown e, s3)
            | (OutOfFuel, s3) => (OutOfFuel, s3)
            end
        | (Thrown e, s2) => (Thrown e, s2)
        | (OutOfFuel, s2) => (OutOfFuel, s2)
        end
    end.
Proof.
  unfold processBlock, BlockchainService.getBlockWithTransactions.
  unfold try_catch, bind at 1, await. unfold bind at 1 2, emit, modify, asks.
  cbn zeta.
  destruct (rpc_getBlockWithTransactions w n) as [[bwt|]|e]; try reflexivity.
  unfold ret at 1. unfold bind at 1.
  destruct (DatabaseService.insertBlock _ w _) as [[[]|e|] s2]; try reflexivity.
  unfold bind at 1.
  destruct (for_of _ _ w s2) as [[[]|e|] s3]; reflexivity.
Qed.
Lemma fetched_blocks_app evs1 evs2 :
  fetched_blocks (evs1 ++ evs2) = fetched_blocks evs1 ++ fetched_blocks evs2.
Proof.
  induction evs1 as [|ev rest IH]; [reflexivity|].
  destruct ev; cbn; now rewrite ?IH.
Qed.

Lemma written_blocks_app evs1 evs2 :
  written_blocks (evs1 ++ evs2) = written_blocks evs1 ++ written_blocks evs2.
Proof.
  induction evs1 as [|ev rest IH]; [reflexivity|].
  destruct ev; cbn; now rewrite ?IH.
Qed.

Lemma written_transactions_app evs1 evs2 :
  written_transactions (evs1 ++ evs2)
  = written_transactions evs1 ++ written_transactions evs2.
Proof.
  induction evs1 as [|ev rest IH]; [reflexivity|].
  destruct ev; cbn; now rewrite ?IH.
Qed.

Lemma transaction_events_no_block w evs :
  Forall (transaction_event w) evs ->
  fetched_blocks evs = [] /\ written_blocks evs = [].
Proof.
  induction 1 as [|ev rest Hev _ IH]; [now split|].
  destruct ev; cbn in *; solve [assumption | contradiction].
Qed.

Lemma transaction_events_written w evs h :
  Forall (transaction_event w) evs ->
  h ∈ written_transactions evs ->
  exists receipt, rpc_getTransactionReceipt w h = Ok (Some receipt).
Proof.
  induction 1 as [|ev rest Hev _ IH]; cbn; intros Hin.
  - now apply elem_of_nil in Hin.
  - destruct ev; cbn in *; try solve [now apply IH | contradiction].
    apply elem_of_cons in Hin as [->|Hin]; [assumption | now apply IH].
Qed.

(** A pass ends by a return or a throw; it returns exactly when every fetch
    and write goes through, and only then is the watermark moved, to the
    number of the block. *)
Lemma processBlock_watermark n w s r s' :
  processBlock n w s = (r, s') ->
  (r = Done tt /\ pass_goes_through w n = true /\ lastProcessedBlock s' = n)
  \/ ((exists e, r = Thrown e) /\ pass_goes_through w n = false
      /\ lastProcessedBlock s' = lastProcessedBlock s).
Proof.
  rewrite processBlock_eq. cbn zeta. unfold pass_goes_through.
  destruct (rpc_getBlockWithTransactions w n) as [[bwt|]|e].
  - rewrite insertBlock_eq.
    destruct (pg_insert_block w _) as [[]|e]; cbn [is_ok andb].
    + destruct (for_of _ _ w _) as [r3 s3] eqn:Hloop.
      pose proof (transaction_loop_frame _ _ _ _ _ _ _ Hloop)
        as (Hout & Hfuel & _).
      apply transaction_loop_outcome in Hloop
        as [[-> Hall]|[[e ->] Hall]]; intros [= <- <-].
      * left. now rewrite Hall.
      * right. rewrite Hall. split; [now exists e|]. split; [reflexivity|].
        now injection Hout.
    + intros [= <- <-]. right. split; [now exists e | now split].
  - intros [= <- <-]. right. split; [now exists TypeError | now split].
  - intros [= <- <-]. right. split; [now exists e | now split].
Qed.

(** A pass asks the node for its own block only, writes no other block row,
    and leaves alone the flag, the rows of other blocks and the rows of
    transactions whose receipt the node does not have. *)
Lemma processBlock_frame n w s r s' :
  processBlock n w s = (r, s') ->
  isIndexing s' = isIndexing s
  /\ (exists evs, trace s' = trace s ++ evs
                  /\ fetched_blocks evs = [n]
                  /\ Forall (fun m => m = n) (written_blocks evs)
                  /\ (forall h, h ∈ written_transactions evs ->
                        exists receipt,
                          rpc_getTransactionReceipt w h = Ok (Some receipt)))
  /\ (forall m, m <> n -> block_rows m s' = block_rows m s)
  /\ (forall h, (forall receipt,
                   rpc_getTransactionReceipt w h <> Ok (Some receipt)) ->
                transaction_rows h s' = transaction_rows h s).
Proof.
  rewrite processBlock_eq. cbn zeta.
  assert (Hstop : forall e,
    let s1 := set_trace (trace s ++ [EvGetBlockWithTransactions n]) s in
    (Thrown e, s1) = (r, s') ->
    isIndexing s' = isIndexing s
    /\ (exists evs, trace s' = trace s ++ evs
                  /\ fetched_blocks evs = [n]
                  /\ Forall (fun m => m = n) (written_blocks evs)
                  /\ (forall h, h ∈ written_transactions evs ->
                        exists receipt,
                          rpc_getTransactionReceipt w h = Ok (Some receipt)))
    /\ (forall m, m <> n -> block_rows m s' = block_rows m s)
    /\ (forall h, (forall receipt,
                   rpc_getTransactionReceipt w h <> Ok (Some receipt)) ->
                transaction_rows h s' = transaction_rows h s)).
  { intros e s1 [= <- <-]. split4; try reflexivity.
    eexists. split; [reflexivity|]. cbn. split3; try easy. }
  destruct (rpc_getBlockWithTransactions w n) as [[bwt|]|e];
    [|apply Hstop..].
  clear Hstop. rewrite insertBlock_eq.
  destruct (pg_insert_block w _) as [[]|e].
  - destruct (for_of _ _ w _) as [r3 s3] eqn:Hloop.
    apply transaction_loop_frame in Hloop
      as (Hout & Hfuel & (evs & Htr & Hevs) & Hrows).
    injection Hout as Hidx Hlast Hcb Hblocks Hifaces.
    pose proof (transaction_events_no_block _ _ Hevs) as [Hfetched Hwritten].
    assert (Hgoal :
      isIndexing s3 = isIndexing s
      /\ (exists evs, trace s3 = trace s ++ evs
                  /\ fetched_blocks evs = [n]
                  /\ Forall (fun m => m = n) (written_blocks evs)
                  /\ (forall h, h ∈ written_transactions evs ->
                        exists receipt,
                          rpc_getTransactionReceipt w h = Ok (Some receipt)))
      /\ (forall m, m <> n -> block_rows m s3 = block_rows m s)
      /\ (forall h, (forall receipt,
                   rpc_getTransactionReceipt w h <> Ok (Some receipt)) ->
                transaction_rows h s3 = transaction_rows h s)).
    { split4.
      - exact Hidx.
      - eexists. rewrite Htr. cbn [trace set_blocks set_trace].
        rewrite <- !app_assoc. split; [reflexivity|].
        cbn [app fetched_blocks written_blocks written_transactions
             prepare_block Block.number].
        rewrite Hfetched, Hwritten. split3; [reflexivity | | ].
        + now repeat constructor.
        + intros h. apply (transaction_events_written _ _ _ Hevs).
      - intros m Hm. unfold block_rows. rewrite Hblocks.
        cbn [blocks set_blocks set_trace].
        now apply upsert_block_other.
      - intros h Hh. now rewrite Hrows. }
    destruct r3 as [[]|e|]; intros [= <- <-]; try exact Hgoal.
  - intros [= <- <-]. split4; try reflexivity.
    eexists. cbn [trace set_trace]. rewrite <- app_assoc.
    split; [reflexivity|]. cbn. split3; try easy.
    now repeat constructor.
Qed.

(** ** The scenarios *)

Example caught_up_at_10_watermark :
  isRunning caught_up_at_10 = true
  /\ getLastProcessedBlock caught_up_at_10 = 10
  /\ map Block.number (blocks caught_up_at_10) = [1; 2; 3; 4; 5; 6; 7; 8; 9; 10].
Proof. vm_compute. repeat split. Qed.

(** ** C1: a pass with an absent receipt *)

(** C1, as the code has it.  In every block pass where the receipt fetch
    of a transaction returns absent, [processBlock] skips that transaction:
    no row is written for its hash and the stored rows under its hash are
    what they were, whatever else happens in the pass.  When no fetch and no
    write of the pass is rejected, the pass still returns normally with the
    watermark set to the number of the block, although that transaction is
    not persisted.  When a fetch or a write of the pass is rejected, the
    pass throws and the watermark is what it was: an error never moves the
    watermark, a skip does. *)
Theorem processBlock_absent_receipt_still_advances w s n bwt tx :
  rpc_getBlockWithTransactions w n = Ok (Some bwt) ->
  tx ∈ BlockWithTransactions.transactions bwt ->
  rpc_getTransactionReceipt w (TransactionResponse.hash tx) = Ok None ->
  exists r s' evs,
    processBlock n w s = (r, s')
    /\ trace s' = trace s ++ evs
    /\ (TransactionResponse.hash tx ∉ written_transactions evs)
    /\ transaction_rows (TransactionResponse.hash tx) s'
       = transaction_rows (TransactionResponse.hash tx) s
    /\ (pass_goes_through w n = true ->
        r = Done tt /\ getLastProcessedBlock s' = n)
    /\ (pass_goes_through w n = false ->
        (exists e, r = Thrown e)
        /\ getLastProcessedBlock s' = getLastProcessedBlock s).
Proof.
  intros Hblock Hin Habsent.
  destruct (processBlock n w s) as [r s'] eqn:Hrun.
  pose proof (processBlock_frame _ _ _ _ _ Hrun)
    as (_ & (evs & Htr & _ & _ & Hwritten) & _ & Hrows).
  exists r, s', evs. split; [reflexivity|]. split; [assumption|].
  split; [|split; [|split]].
  - intros [receipt Hreceipt]%Hwritten. congruence.
  - apply Hrows. intros receipt. congruence.
  - intros Hpass. apply processBlock_watermark in Hrun
      as [(-> & _ & Hlast)|(_ & Hfalse & _)]; [now split | congruence].
  - intros Hpass. apply processBlock_watermark in Hrun
      as [(_ & Htrue & _)|(Hthrown & _ & Hlast)]; [congruence | now split].
Qed.

Lemma processBlock_absent_receipt_still_advances_witness :
  let w := node_rejecting_transactions 1 two_transfers receipt_of_second in
  let s := constructor [] [] [] in
  exists r s' evs,
    processBlock 1 w s = (r, s')
    /\ trace s' = trace s ++ evs
    /\ ("0xaa" ∉ written_transactions evs)
    /\ transaction_rows "0xaa" s' = transaction_rows "0xaa" s
    /\ (pass_goes_through w 1 = true ->
        r = Done tt /\ getLastProcessedBlock s' = 1)
    /\ (pass_goes_through w 1 = false ->
        (exists e, r = Thrown e)
        /\ getLastProcessedBlock s' = getLastProcessedBlock s).
Proof.
  apply (processBlock_absent_receipt_still_advances
           (node_rejecting_transactions 1 two_transfers receipt_of_second)
           (constructor [] [] []) 1
           (a_block [a_transfer; another_transfer]) a_transfer).
  - reflexivity.
  - apply list_elem_of_here.
  - reflexivity.
Defined.

(** The two outcomes of a pass with an absent receipt, on the code: with
    nothing rejected the watermark moves to the block, and with the row of
    another transaction of the block rejected the pass throws, the
    watermark stays, and in both no row is written under the hash whose
    receipt is absent. *)
Example processBlock_absent_receipt_examples :
  let s := constructor [] [] [] in
  let skipped := processBlock 1 (node 1 chain_0_1_0 no_receipt) s in
  let failed :=
    processBlock 1
      (node_rejecting_transactions 1 two_transfers receipt_of_second) s in
  fst skipped = Done tt
  /\ getLastProcessedBlock (snd skipped) = 1
  /\ transaction_rows "0xaa" (snd skipped) = []
  /\ fst failed = Thrown PgError
  /\ getLastProcessedBlock (snd failed) = 0
  /\ transaction_rows "0xaa" (snd failed) = []
  /\ written_transactions (trace (snd failed)) = ["0xbb"].
Proof. vm_compute. repeat split. Qed.

(** C1 fails as stated: block 1 holds one transaction whose receipt is
    absent; the pass writes no transaction row and yet moves the watermark
    from 0 to 1. *)
Lemma processBlock_absent_receipt_counterexample :
  let w := node 1 chain_0_1_0 no_receipt in
  let s := constructor [] [] [] in
  let s' := snd (processBlock 1 w s) in
  rpc_getTransactionReceipt w "0xaa" = Ok None
  /\ fst (processBlock 1 w s) = Done tt
  /\ transactions s' = []
  /\ getLastProcessedBlock s = 0
  /\ getLastProcessedBlock s' = 1
  /\ getLastProcessedBlock s' <> getLastProcessedBlock s.
Proof. vm_compute. repeat split. discriminate. Qed.
(** ** Live notifications *)

Lemma handleNewBlock_eq b w s :
  handleNewBlock b w s
  = if isIndexing s
    then match processBlock b w s with
         | (Thrown _, s') => (Done tt, s')
         | rs => rs
         end
    else (Done tt, s).
Proof.
  unfold handleNewBlock, bind, gets, try_catch, ret.
  destruct (isIndexing s); reflexivity.
Qed.

(** A pass that goes through stores the row of its block and leaves the
    write in the trace. *)
Lemma processBlock_stores_block n w s bwt r s' :
  rpc_getBlockWithTransactions w n = Ok (Some bwt) ->
  is_ok (pg_insert_block w (prepare_block n bwt)) = true ->
  processBlock n w s = (r, s') ->
  head (block_rows n s') = Some (prepare_block n bwt)
  /\ exists evs, trace s' = trace s ++ evs
                 /\ EvInsertBlock (prepare_block n bwt) ∈ evs.
Proof.
  intros Hblock Hinsert. rewrite processBlock_eq, Hblock. cbn zeta.
  rewrite insertBlock_eq.
  destruct (pg_insert_block w _) as [[]|e]; [|discriminate].
  destruct (for_of _ _ w _) as [r3 s3] eqn:Hloop.
  apply transaction_loop_frame in Hloop as (Hout & _ & (evs & Htr & _) & _).
  injection Hout as _ _ _ Hblocks _.
  assert (Hgoal :
    head (block_rows n s3) = Some (prepare_block n bwt)
    /\ exists evs, trace s3 = trace s ++ evs
                   /\ EvInsertBlock (prepare_block n bwt) ∈ evs).
  { split.
    - unfold block_rows. rewrite Hblocks. cbn [blocks set_blocks set_trace].
      apply (upsert_block_first_row (prepare_block n bwt)).
    - eexists. rewrite Htr. cbn [trace set_blocks set_trace].
      rewrite <- !app_assoc. split; [reflexivity|].
      cbn. apply list_elem_of_further, list_elem_of_here. }
  destruct r3 as [[]|e|]; intros [= <- <-]; exact Hgoal.
Qed.

(** ** C3: a notification ahead of the watermark *)

(** C3, as the code has it.  A live notification for block [b], whatever
    the watermark, makes the running pipeline process block [b] alone: [b]
    is the only block asked of the node and the only block written, the
    rows of every other block number are what they were (so none of
    watermark+1 .. b-1 is ingested), and the watermark then reads [b] when
    the pass went through and is unchanged otherwise. *)
Theorem handleNewBlock_processes_only_that_block w s b :
  isRunning s = true ->
  exists s' evs,
    handleNewBlock b w s = (Done tt, s')
    /\ trace s' = trace s ++ evs
    /\ fetched_blocks evs = [b]
    /\ Forall (fun m => m = b) (written_blocks evs)
    /\ (forall m, m <> b -> block_rows m s' = block_rows m s)
    /\ getLastProcessedBlock s'
       = if pass_goes_through w b then b else getLastProcessedBlock s.
Proof.
  unfold isRunning. intros Hrunning. rewrite handleNewBlock_eq, Hrunning.
  destruct (processBlock b w s) as [r s'] eqn:Hrun.
  pose proof (processBlock_frame _ _ _ _ _ Hrun)
    as (_ & (evs & Htr & Hfetched & Hwritten & _) & Hrows & _).
  apply processBlock_watermark in Hrun
    as [(-> & -> & Hlast)|([e ->] & -> & Hlast)];
    exists s', evs; split4; try done; split4; done.
Qed.

Lemma handleNewBlock_processes_only_that_block_witness :
  exists s' evs,
    handleNewBlock 15 (node 15 empty_chain every_receipt) caught_up_at_10
    = (Done tt, s')
    /\ trace s' = trace caught_up_at_10 ++ evs
    /\ fetched_blocks evs = [15]
    /\ Forall (fun m => m = 15) (written_blocks evs)
    /\ (forall m, m <> 15 -> block_rows m s' = block_rows m caught_up_at_10)
    /\ getLastProcessedBlock s'
       = if pass_goes_through (node 15 empty_chain every_receipt) 15
         then 15 else getLastProcessedBlock caught_up_at_10.
Proof.
  apply (handleNewBlock_processes_only_that_block
           (node 15 empty_chain every_receipt) caught_up_at_10 15).
  vm_compute. reflexivity.
Defined.

(** C3 fails as stated: with the watermark at 10, the notification for
    block 15 makes the pipeline fetch block 15 only; blocks 11 to 14 are
    never stored and [getLastProcessedBlock] returns 15. *)
Lemma handleNewBlock_gap_counterexample :
  let w := node 15 empty_chain every_receipt in
  let s' := snd (handleNewBlock 15 w caught_up_at_10) in
  getLastProcessedBlock caught_up_at_10 = 10
  /\ fetched_blocks (drop (length (trace caught_up_at_10)) (trace s')) = [15]
  /\ fetched_blocks (drop (length (trace caught_up_at_10)) (trace s'))
     <> [11; 12; 13; 14; 15]
  /\ map Block.number (blocks s') = [1; 2; 3; 4; 5; 6; 7; 8; 9; 10; 15]
  /\ block_rows 11 s' = [] /\ block_rows 12 s' = []
  /\ block_rows 13 s' = [] /\ block_rows 14 s' = []
  /\ getLastProcessedBlock s' = 15.
Proof. vm_compute. repeat split. discriminate. Qed.

(** ** C4: a notification at or behind the watermark *)

(** C4, as the code has it.  A live notification for a block [b] at or
    below the watermark is processed like any other while the pipeline
    runs: the row of block [b] is written to the store again, and when the
    pass goes through the watermark is set back to [b]. *)
Theorem handleNewBlock_stale_is_reprocessed w s b bwt :
  isRunning s = true ->
  b <= getLastProcessedBlock s ->
  rpc_getBlockWithTransactions w b = Ok (Some bwt) ->
  pass_goes_through w b = true ->
  exists s' evs,
    handleNewBlock b w s = (Done tt, s')
    /\ trace s' = trace s ++ evs
    /\ EvInsertBlock (prepare_block b bwt) ∈ evs
    /\ head (block_rows b s') = Some (prepare_block b bwt)
    /\ getLastProcessedBlock s' = b.
Proof.
  unfold isRunning. intros Hrunning _ Hblock Hpass.
  rewrite handleNewBlock_eq, Hrunning.
  destruct (processBlock b w s) as [r s'] eqn:Hrun.
  assert (Hinsert : is_ok (pg_insert_block w (prepare_block b bwt)) = true).
  { unfold pass_goes_through in Hpass. rewrite Hblock in Hpass.
    now apply andb_prop in Hpass as [? _]. }
  pose proof (processBlock_stores_block _ _ _ _ _ _ Hblock Hinsert Hrun)
    as (Hrow & evs & Htr & Hev).
  apply processBlock_watermark in Hrun
    as [(-> & _ & Hlast)|(_ & Hfalse & _)]; [|congruence].
  exists s', evs. split4; done.
Qed.

Lemma handleNewBlock_stale_is_reprocessed_witness :
  exists s' evs,
    handleNewBlock 5 (node 10 empty_chain every_receipt) caught_up_at_10
    = (Done tt, s')
    /\ trace s' = trace caught_up_at_10 ++ evs
    /\ EvInsertBlock (prepare_block 5 (a_block [])) ∈ evs
    /\ head (block_rows 5 s') = Some (prepare_block 5 (a_block []))
    /\ getLastProcessedBlock s' = 5.
Proof.
  apply (handleNewBlock_stale_is_reprocessed
           (node 10 empty_chain every_receipt) caught_up_at_10 5 (a_block [])).
  - vm_compute. reflexivity.
  - vm_compute. discriminate.
  - reflexivity.
  - vm_compute. reflexivity.
Defined.

(** C4 fails as stated: with the watermark at 10, the notification for
    block 5 writes the row of block 5 again and moves the watermark back
    to 5. *)
Lemma handleNewBlock_stale_counterexample :
  let w := node 10 empty_chain every_receipt in
  let s' := snd (handleNewBlock 5 w caught_up_at_10) in
  getLastProcessedBlock caught_up_at_10 = 10
  /\ written_blocks (drop (length (trace caught_up_at_10)) (trace s')) = [5]
  /\ getLastProcessedBlock s' = 5
  /\ getLastProcessedBlock s' <> getLastProcessedBlock caught_up_at_10.
Proof. vm_compute. repeat split. discriminate. Qed.
(** ** The backfill loop *)

(** One turn of the loop never throws and never runs out of fuel. *)
Lemma historical_step_eq w s :
  historical_step w s
  = let s1 := set_trace (trace s ++ [EvGetBlockNumber]) s in
    match rpc_getBlockNumber w with
    | Rejected _ =>
        (Done false, set_trace (trace s1 ++ [EvSetTimeout 5000]) s1)
    | Ok latestBlockNumber =>
        if lastProcessedBlock s + 1 >? latestBlockNumber
        then (Done true, s1)
        else match processBlock (lastProcessedBlock s + 1) w s1 with
             | (Done _, s2) => (Done false, s2)
             | (Thrown _, s2) =>
                 (Done false, set_trace (trace s2 ++ [EvSetTimeout 5000]) s2)
             | (OutOfFuel, s2) => (OutOfFuel, s2)
             end
    end.
Proof.
  unfold historical_step, BlockchainService.getLatestBlockNumber.
  unfold try_catch, bind at 1, await. unfold bind at 1 2, emit, modify, asks.
  cbn zeta.
  destruct (rpc_getBlockNumber w) as [latest|e]; [|reflexivity].
  unfold ret at 1. unfold bind at 1, gets. cbn [lastProcessedBlock set_trace].
  destruct (lastProcessedBlock s + 1 >? latest); [reflexivity|].
  unfold bind at 1.
  destruct (processBlock _ w _) as [[[]|e|] s2]; reflexivity.
Qed.

Lemma historical_step_returns w s :
  exists left s', historical_step w s = (Done left, s')
                  /\ isIndexing s' = isIndexing s
                  /\ exists evs, trace s' = trace s ++ evs.
Proof.
  rewrite historical_step_eq. cbn zeta.
  destruct (rpc_getBlockNumber w) as [latest|e].
  - destruct (lastProcessedBlock s + 1 >? latest).
    + eexists _, _. split3; [reflexivity | reflexivity | now eexists].
    + destruct (processBlock _ w _) as [r s2] eqn:Hrun.
      pose proof (processBlock_frame _ _ _ _ _ Hrun)
        as (Hidx & (evs & Htr & _) & _).
      apply processBlock_watermark in Hrun as [(-> & _)|([e ->] & _)].
      * eexists _, _. split3; [reflexivity | exact Hidx |].
        eexists. rewrite Htr. cbn [trace set_trace].
        now rewrite <- app_assoc.
      * eexists _, _. split3; [reflexivity | exact Hidx |].
        eexists. cbn [trace set_trace]. rewrite Htr. cbn [trace set_trace].
        now rewrite <- !app_assoc.
  - eexists _, _. split3; [reflexivity | reflexivity |].
    eexists. cbn [trace set_trace]. now rewrite <- app_assoc.
Qed.

(** The loop never throws, keeps the flag, and only adds to the trace. *)
Lemma processHistoricalBlocks_frame fuel w s r s' :
  processHistoricalBlocks fuel w s = (r, s') ->
  (forall e, r <> Thrown e)
  /\ isIndexing s' = isIndexing s
  /\ exists evs, trace s' = trace s ++ evs.
Proof.
  revert s. induction fuel as [|fuel IH]; intros s;
    cbn [processHistoricalBlocks]; unfold bind at 1, gets;
    destruct (isIndexing s) eqn:Hrunning.
  - intros [= <- <-]. split3; [discriminate | done |].
    exists []. now rewrite app_nil_r.
  - intros [= <- <-]. split3; [discriminate | done |].
    exists []. now rewrite app_nil_r.
  - unfold bind at 1.
    destruct (historical_step_returns w s)
      as (left & s1 & -> & Hidx & evs1 & Htr1).
    destruct left.
    + intros [= <- <-]. split3; [discriminate | congruence | now exists evs1].
    + intros (Hthrow & Hidx' & evs & Htr)%IH.
      split3; [assumption | congruence |].
      exists (evs1 ++ evs). now rewrite Htr, Htr1, app_assoc.
  - intros [= <- <-]. split3; [discriminate | done |].
    exists []. now rewrite app_nil_r.
Qed.

Lemma try_catch_rethrow {A} (m : M A) w s :
  try_catch m (fun error => throw error) w s = m w s.
Proof. unfold try_catch, throw. now destruct (m w s) as [[a|e|] s']. Qed.

(** What [start] does before it enters the backfill loop. *)
Lemma start_eq fuel w s :
  start fuel w s
  = if isIndexing s then (Done tt, s)
    else
      let s1 := set_trace (trace s ++ [EvGetNetwork]) s in
      match rpc_getNetwork w with
      | Rejected _ => (Thrown NotConnected, s1)
      | Ok _ =>
          let lastBlock :=
            match pg_select w with
            | Ok _ => DatabaseService.order_by_number_desc_limit_1 (blocks s)
            | Rejected _ => None
            end in
          processHistoricalBlocks fuel w
            (set_trace
               (trace s ++ [EvGetNetwork; EvSelectLatestBlock;
                            EvProviderOn block_listener])
               (set_newBlockCallback (Some handleNewBlock_bound)
                  (set_isIndexing true
                     (set_lastProcessedBlock
                        (or_zero (option_map Block.number lastBlock)) s))))
      end.
Proof.
  unfold start. unfold bind at 1, gets.
  destruct (isIndexing s); [reflexivity|].
  rewrite try_catch_rethrow.
  unfold BlockchainService.isConnected, DatabaseService.getLatestBlock,
         BlockchainService.subscribeToNewBlocks.
  unfold_monad. cbn zeta.
  destruct (rpc_getNetwork w) as [[]|e0]; cbn [negb]; [|reflexivity].
  destruct (pg_select w) as [[]|e1];
    cbn [trace set_trace set_isIndexing set_lastProcessedBlock
         set_newBlockCallback blocks isIndexing lastProcessedBlock
         newBlockCallback transactions contract_interfaces];
    rewrite <- !app_assoc; reflexivity.
Qed.

(** ** C5: [start] on a running pipeline *)

(** C5, as the code has it.  Calling [start] while the pipeline is running
    returns normally and changes nothing: no call is made to the node or to
    the store, and no error reaches the caller. *)
Theorem start_when_running_returns w s fuel :
  isRunning s = true ->
  start fuel w s = (Done tt, s).
Proof.
  unfold isRunning, start, bind, gets, ret. now intros ->.
Qed.

Lemma start_when_running_returns_witness :
  start 20 (node 10 empty_chain every_receipt) caught_up_at_10
  = (Done tt, caught_up_at_10).
Proof.
  apply (start_when_running_returns
           (node 10 empty_chain every_receipt) caught_up_at_10 20).
  vm_compute. reflexivity.
Defined.

(** C5 fails as stated: [start] on a running pipeline returns normally, it
    does not end in a thrown error. *)
Lemma start_when_running_counterexample :
  isRunning caught_up_at_10 = true
  /\ fst (start 20 (node 10 empty_chain every_receipt) caught_up_at_10)
     = Done tt
  /\ forall e,
       fst (start 20 (node 10 empty_chain every_receipt) caught_up_at_10)
       <> Thrown e.
Proof. vm_compute. repeat split. discriminate. Qed.

(** ** C10: notifications while the pipeline does not run *)

Lemma stop_eq w s :
  stop w s
  = if isIndexing s
    then (Done tt,
          set_newBlockCallback None
            (set_trace (trace s ++ [EvProviderOff handleNewBlock_bound])
                       (set_isIndexing false s)))
    else (Done tt, s).
Proof.
  unfold stop, BlockchainService.unsubscribeFromNewBlocks.
  unfold_monad. destruct (isIndexing s); reflexivity.
Qed.

(** C10.  While the pipeline does not run, a live notification returns at
    once and leaves the whole state as it was: nothing is fetched, nothing
    is written, the watermark stays.  The pipeline does not run in a newly
    built service, after a [start] that threw, and after [stop]. *)
Theorem handleNewBlock_when_not_running w s b :
  isRunning s = false ->
  handleNewBlock b w s = (Done tt, s)
  /\ (forall blocks transactions contract_interfaces,
        isRunning (constructor blocks transactions contract_interfaces) = false)
  /\ (forall w0 fuel e s', start fuel w0 s = (Thrown e, s') ->
        isRunning s' = false /\ handleNewBlock b w s' = (Done tt, s'))
  /\ (forall w0 s0, isRunning (snd (stop w0 s0)) = false
        /\ handleNewBlock b w (snd (stop w0 s0)) = (Done tt, snd (stop w0 s0))).
Proof.
  unfold isRunning. intros Hstopped.
  assert (Hidle : forall s1, isIndexing s1 = false ->
                             handleNewBlock b w s1 = (Done tt, s1)).
  { intros s1 H1. now rewrite handleNewBlock_eq, H1. }
  split4.
  - now apply Hidle.
  - reflexivity.
  - intros w0 fuel e s' Hstart.
    assert (isIndexing s' = false) as Hs';
      [|split; [assumption | now apply Hidle]].
    rewrite start_eq, Hstopped in Hstart. cbn zeta in Hstart.
    destruct (rpc_getNetwork w0) as [[]|e0].
    + apply processHistoricalBlocks_frame in Hstart as (Hthrow & _).
      now destruct (Hthrow e).
    + now injection Hstart as _ <-.
  - intros w0 s0. rewrite stop_eq.
    destruct (isIndexing s0) eqn:H0; cbn [snd];
      (split; [try reflexivity; assumption | now apply Hidle]).
Qed.
Lemma handleNewBlock_when_not_running_witness :
  handleNewBlock 11 (node 11 empty_chain every_receipt) stopped_at_10
  = (Done tt, stopped_at_10)
  /\ (forall blocks transactions contract_interfaces,
        isRunning (constructor blocks transactions contract_interfaces) = false)
  /\ (forall w0 fuel e s', start fuel w0 stopped_at_10 = (Thrown e, s') ->
        isRunning s' = false
        /\ handleNewBlock 11 (node 11 empty_chain every_receipt) s'
           = (Done tt, s'))
  /\ (forall w0 s0, isRunning (snd (stop w0 s0)) = false
        /\ handleNewBlock 11 (node 11 empty_chain every_receipt)
                          (snd (stop w0 s0))
           = (Done tt, snd (stop w0 s0))).
Proof.
  apply (handleNewBlock_when_not_running
           (node 11 empty_chain every_receipt) stopped_at_10 11).
  vm_compute. reflexivity.
Defined.

(** ** C7: a transaction row the store rejects *)

Lemma transaction_loop_rejected w n bwt txs tx receipt e :
  tx ∈ txs ->
  rpc_getTransactionReceipt w (TransactionResponse.hash tx)
  = Ok (Some receipt) ->
  pg_insert_transaction w (prepare_transaction n bwt tx receipt (toISOString w))
  = Rejected e ->
  forallb (transaction_goes_through w n bwt) txs = false.
Proof.
  intros Hin Hreceipt Hinsert.
  destruct (forallb _ txs) eqn:Hall; [|reflexivity].
  rewrite forallb_forall in Hall.
  apply list_elem_of_In, Hall in Hin.
  unfold transaction_goes_through in Hin.
  now rewrite Hreceipt, Hinsert in Hin.
Qed.

(** The outside calls of a pass: the fetch of its block, then the write of
    the block row, receipt fetches and writes of transaction rows; a pass
    sets no timer. *)
Lemma processBlock_never_waits n w s r s' evs ms :
  processBlock n w s = (r, s') ->
  trace s' = trace s ++ evs ->
  EvSetTimeout ms ∉ evs.
Proof.
  intros Hrun Htr.
  assert (Hevents : exists evs0,
    trace s' = trace s ++ EvGetBlockWithTransactions n :: evs0
    /\ forall ev, ev ∈ evs0 -> ev <> EvSetTimeout ms).
  { revert Hrun. rewrite processBlock_eq. cbn zeta.
    destruct (rpc_getBlockWithTransactions w n) as [[bwt|]|e];
      [| intros [= <- <-]; exists []; split; [reflexivity|];
         now intros ev ?%elem_of_nil..].
    rewrite insertBlock_eq.
    destruct (pg_insert_block w _) as [[]|e].
    - destruct (for_of _ _ w _) as [r3 s3] eqn:Hloop.
      apply transaction_loop_frame in Hloop as (_ & _ & (evs3 & Htr3 & Hevs3) & _).
      assert (Hs3 : exists evs0,
        trace s3 = trace s ++ EvGetBlockWithTransactions n :: evs0
        /\ forall ev, ev ∈ evs0 -> ev <> EvSetTimeout ms).
      { eexists. rewrite Htr3. cbn [trace set_blocks set_trace].
        rewrite <- !app_assoc. split; [reflexivity|].
        intros ev [->|Hin]%elem_of_cons; [discriminate|].
        rewrite Forall_forall in Hevs3. apply Hevs3 in Hin.
        intros ->. exact Hin. }
      destruct r3 as [[]|e|]; intros [= <- <-]; exact Hs3.
    - intros [= <- <-]. eexists. cbn [trace set_trace].
      rewrite <- app_assoc. split; [reflexivity|].
      intros ev [->|Hin]%elem_of_cons; [discriminate|].
      now apply elem_of_nil in Hin. }
  destruct Hevents as (evs0 & Htr0 & Hevs0).
  rewrite Htr in Htr0. apply app_inv_head in Htr0 as ->.
  intros [Heq|Hin]%elem_of_cons; [discriminate|].
  now apply (Hevs0 _ Hin).
Qed.

Lemma waits_app evs1 evs2 : waits (evs1 ++ evs2) = waits evs1 ++ waits evs2.
Proof.
  induction evs1 as [|ev rest IH]; [reflexivity|].
  destruct ev; cbn; now rewrite ?IH.
Qed.

Lemma waits_none evs :
  (forall ms, EvSetTimeout ms ∉ evs) -> waits evs = [].
Proof.
  induction evs as [|ev rest IH]; intros Hnone; [reflexivity|].
  assert (Hrest : waits rest = []).
  { apply IH. intros ms Hin. apply (Hnone ms). now apply list_elem_of_further. }
  destruct ev; cbn; try exact Hrest.
  destruct (Hnone ms). apply list_elem_of_here.
Qed.

Lemma processBlock_waits n w s r s' evs :
  processBlock n w s = (r, s') ->
  trace s' = trace s ++ evs ->
  waits evs = [].
Proof.
  intros Hrun Htr. apply waits_none. intros ms.
  exact (processBlock_never_waits _ _ _ _ _ _ ms Hrun Htr).
Qed.

(** A turn of the backfill loop whose pass fails: the block after the
    watermark is fetched, the turn ends on the five-second wait without
    leaving the loop, and the flag and the watermark are what they were. *)
Lemma historical_step_failing_pass w s latest :
  rpc_getBlockNumber w = Ok latest ->
  lastProcessedBlock s + 1 <= latest ->
  pass_goes_through w (lastProcessedBlock s + 1) = false ->
  exists s1 evs,
    historical_step w s = (Done false, s1)
    /\ trace s1 = trace s ++ evs
    /\ fetched_blocks evs = [lastProcessedBlock s + 1]
    /\ last evs = Some (EvSetTimeout 5000)
    /\ waits evs = [5000]
    /\ isIndexing s1 = isIndexing s
    /\ lastProcessedBlock s1 = lastProcessedBlock s
    /\ (forall h, (forall receipt,
                     rpc_getTransactionReceipt w h <> Ok (Some receipt)) ->
                  transaction_rows h s1 = transaction_rows h s).
Proof.
  intros Hlatest Hle Hfails.
  rewrite historical_step_eq, Hlatest. cbn zeta.
  destruct (lastProcessedBlock s + 1 >? latest) eqn:Hgt; [lia|].
  destruct (processBlock _ w _) as [r1 s1] eqn:Hrun.
  pose proof (processBlock_frame _ _ _ _ _ Hrun)
    as (Hidx & (evs1 & Htr1 & Hfetched1 & _) & _ & Hrows).
  pose proof (processBlock_waits _ _ _ _ _ _ Hrun Htr1) as Hwaits1.
  apply processBlock_watermark in Hrun
    as [(_ & Htrue & _)|([e ->] & _ & Hlast)]; [congruence|].
  cbn [isIndexing lastProcessedBlock trace set_trace] in Hidx, Htr1, Hlast.
  eexists _, ([EvGetBlockNumber] ++ evs1 ++ [EvSetTimeout 5000]).
  split; [reflexivity|].
  cbn [isIndexing lastProcessedBlock trace set_trace].
  split; [now rewrite Htr1, <- !app_assoc|].
  split; [rewrite !fetched_blocks_app, Hfetched1; reflexivity|].
  split; [now rewrite app_assoc, last_snoc|].
  split; [rewrite !waits_app, Hwaits1; reflexivity|].
  split; [assumption|]. split; [assumption|].
  intros h Hh. specialize (Hrows h Hh). unfold transaction_rows in *.
  cbn [transactions set_trace] in *. exact Hrows.
Qed.

(** C7, as the code has it.  In a block pass where the block row is
    persisted and the store rejects the row of one of the transactions,
    [processBlock] throws to its caller, the block row is in the store, and
    the watermark is what it was.  What happens next depends on the caller.
    The backfill loop, whose next block this is, fetches the block, ends
    its turn on the five-second wait without leaving the loop and with the
    watermark unchanged, and its next turn, run from the state the first
    one left (no notification has moved the watermark meanwhile), fetches
    the same block again.  The handler of live notifications swallows the
    failure: it returns normally, sets no timer, and the next notification
    whose pass goes through is processed for its own block alone and moves
    the watermark there, so the failed block is not fetched again. *)
Theorem processBlock_transaction_write_failure w s n bwt tx receipt e :
  rpc_getBlockWithTransactions w n = Ok (Some bwt) ->
  pg_insert_block w (prepare_block n bwt) = Ok tt ->
  tx ∈ BlockWithTransactions.transactions bwt ->
  rpc_getTransactionReceipt w (TransactionResponse.hash tx)
  = Ok (Some receipt) ->
  pg_insert_transaction w (prepare_transaction n bwt tx receipt (toISOString w))
  = Rejected e ->
  (exists e' s',
     processBlock n w s = (Thrown e', s')
     /\ head (block_rows n s') = Some (prepare_block n bwt)
     /\ getLastProcessedBlock s' = getLastProcessedBlock s)
  /\ (forall latest,
        rpc_getBlockNumber w = Ok latest ->
        n = getLastProcessedBlock s + 1 ->
        n <= latest ->
        exists s1 evs1 s2 evs2,
          historical_step w s = (Done false, s1)
          /\ trace s1 = trace s ++ evs1
          /\ fetched_blocks evs1 = [n]
          /\ last evs1 = Some (EvSetTimeout 5000)
          /\ getLastProcessedBlock s1 = getLastProcessedBlock s
          /\ historical_step w s1 = (Done false, s2)
          /\ trace s2 = trace s1 ++ evs2
          /\ fetched_blocks evs2 = [n]
          /\ last evs2 = Some (EvSetTimeout 5000)
          /\ getLastProcessedBlock s2 = getLastProcessedBlock s)
  /\ (isRunning s = true ->
      exists s1 evs1,
        handleNewBlock n w s = (Done tt, s1)
        /\ trace s1 = trace s ++ evs1
        /\ fetched_blocks evs1 = [n]
        /\ (forall ms, EvSetTimeout ms ∉ evs1)
        /\ head (block_rows n s1) = Some (prepare_block n bwt)
        /\ getLastProcessedBlock s1 = getLastProcessedBlock s
        /\ forall b,
             pass_goes_through w b = true ->
             exists s2 evs2,
               handleNewBlock b w s1 = (Done tt, s2)
               /\ trace s2 = trace s1 ++ evs2
               /\ fetched_blocks evs2 = [b]
               /\ getLastProcessedBlock s2 = b).
Proof.
  intros Hblock Hinsert Hin Hreceipt Hrejected.
  assert (Hpass : pass_goes_through w n = false).
  { unfold pass_goes_through. rewrite Hblock, Hinsert. cbn [is_ok andb].
    now apply (transaction_loop_rejected w n bwt _ tx receipt e). }
  assert (Hthrows : forall s0, exists e' s',
    processBlock n w s0 = (Thrown e', s')
    /\ head (block_rows n s') = Some (prepare_block n bwt)
    /\ lastProcessedBlock s' = lastProcessedBlock s0).
  { intros s0. destruct (processBlock n w s0) as [r s'] eqn:Hrun.
    assert (Hok : is_ok (pg_insert_block w (prepare_block n bwt)) = true)
      by now rewrite Hinsert.
    pose proof (processBlock_stores_block _ _ _ _ _ _ Hblock Hok Hrun)
      as (Hrow & _).
    apply processBlock_watermark in Hrun
      as [(_ & Htrue & _)|([e' ->] & _ & Hlast)]; [congruence|].
    now exists e', s'. }
  split; [apply Hthrows|]. split.
  - unfold getLastProcessedBlock. intros latest Hlatest -> Hle.
    destruct (historical_step_failing_pass w s latest Hlatest Hle Hpass)
      as (s1 & evs1 & Hturn1 & Htr1 & Hfetched1 & Hlast1 & _ & _ & Hmark1 & _).
    rewrite <- Hmark1 in Hle, Hpass.
    destruct (historical_step_failing_pass w s1 latest Hlatest Hle Hpass)
      as (s2 & evs2 & Hturn2 & Htr2 & Hfetched2 & Hlast2 & _ & _ & Hmark2 & _).
    exists s1, evs1, s2, evs2.
    rewrite Hmark1 in Hfetched2.
    split; [assumption|]. split; [assumption|]. split; [assumption|].
    split; [assumption|]. split; [assumption|]. split; [assumption|].
    split; [assumption|]. split; [assumption|]. split; [assumption|].
    congruence.
  - unfold isRunning, getLastProcessedBlock. intros Hrunning.
    rewrite handleNewBlock_eq, Hrunning.
    destruct (Hthrows s) as (e' & s1 & Hrun & Hrow & Hmark).
    pose proof (processBlock_frame _ _ _ _ _ Hrun)
      as (Hidx & (evs1 & Htr1 & Hfetched1 & _) & _).
    rewrite Hrun. exists s1, evs1.
    split; [reflexivity|]. split; [assumption|]. split; [assumption|].
    split; [intros ms; exact (processBlock_never_waits _ _ _ _ _ _ ms Hrun Htr1)|].
    split; [assumption|]. split; [assumption|].
    intros b Hb. rewrite handleNewBlock_eq, Hidx, Hrunning.
    destruct (processBlock b w s1) as [r2 s2] eqn:Hrun2.
    pose proof (processBlock_frame _ _ _ _ _ Hrun2)
      as (_ & (evs2 & Htr2 & Hfetched2 & _) & _).
    apply processBlock_watermark in Hrun2
      as [(-> & _ & Hmark2)|(_ & Hfalse & _)]; [|congruence].
    now exists s2, evs2.
Qed.

Lemma processBlock_transaction_write_failure_witness :
  let w := node_rejecting_transactions 2 chain_0_1_0 every_receipt in
  let s := running_at_0 in
  (exists e' s',
     processBlock 1 w s = (Thrown e', s')
     /\ head (block_rows 1 s') = Some (prepare_block 1 (a_block [a_transfer]))
     /\ getLastProcessedBlock s' = getLastProcessedBlock s)
  /\ (forall latest,
        rpc_getBlockNumber w = Ok latest ->
        1 = getLastProcessedBlock s + 1 ->
        1 <= latest ->
        exists s1 evs1 s2 evs2,
          historical_step w s = (Done false, s1)
          /\ trace s1 = trace s ++ evs1
          /\ fetched_blocks evs1 = [1]
          /\ last evs1 = Some (EvSetTimeout 5000)
          /\ getLastProcessedBlock s1 = getLastProcessedBlock s
          /\ historical_step w s1 = (Done false, s2)
          /\ trace s2 = trace s1 ++ evs2
          /\ fetched_blocks evs2 = [1]
          /\ last evs2 = Some (EvSetTimeout 5000)
          /\ getLastProcessedBlock s2 = getLastProcessedBlock s)
  /\ (isRunning s = true ->
      exists s1 evs1,
        handleNewBlock 1 w s = (Done tt, s1)
        /\ trace s1 = trace s ++ evs1
        /\ fetched_blocks evs1 = [1]
        /\ (forall ms, EvSetTimeout ms ∉ evs1)
        /\ head (block_rows 1 s1) = Some (prepare_block 1 (a_block [a_transfer]))
        /\ getLastProcessedBlock s1 = getLastProcessedBlock s
        /\ forall b,
             pass_goes_through w b = true ->
             exists s2 evs2,
               handleNewBlock b w s1 = (Done tt, s2)
               /\ trace s2 = trace s1 ++ evs2
               /\ fetched_blocks evs2 = [b]
               /\ getLastProcessedBlock s2 = b).
Proof.
  apply (processBlock_transaction_write_failure
           (node_rejecting_transactions 2 chain_0_1_0 every_receipt)
           running_at_0 1 (a_block [a_transfer]) a_transfer
           a_receipt PgError).
  - reflexivity.
  - reflexivity.
  - apply list_elem_of_here.
  - reflexivity.
  - reflexivity.
Defined.

(** C7 fails as stated: the store rejects the row of the transaction of
    block 1 after the row of the block is stored, and the block is not
    retried.  Announced by a live notification, block 1 is fetched once;
    the notification of block 2 then moves the watermark from 0 to 2, and
    the transaction of block 1 is not in the store.  In the backfill loop
    the same happens when the notification of block 2 is handled during the
    wait that follows the failed pass: the next turn leaves the loop. *)
Lemma processBlock_transaction_write_failure_counterexample :
  let w := node_rejecting_transactions 2 chain_0_1_0 every_receipt in
  let s := running_at_0 in
  let live := snd (handleNewBlock 2 w (snd (handleNewBlock 1 w s))) in
  let backfill :=
    (historical_step ;; handleNewBlock 2 ;; historical_step) w s in
  isRunning s = true
  /\ getLastProcessedBlock s = 0
  /\ fst (processBlock 1 w s) = Thrown PgError
  /\ map Block.number (blocks (snd (processBlock 1 w s))) = [1]
  /\ getLastProcessedBlock (snd (processBlock 1 w s)) = 0
  /\ fst (handleNewBlock 1 w s) = Done tt
  /\ getLastProcessedBlock (snd (handleNewBlock 1 w s)) = 0
  /\ fetched_blocks (trace live) = [1; 2]
  /\ getLastProcessedBlock live = 2
  /\ transaction_rows "0xaa" live = []
  /\ fst backfill = Done true
  /\ fetched_blocks (trace (snd backfill)) = [1; 2]
  /\ getLastProcessedBlock (snd backfill) = 2
  /\ transaction_rows "0xaa" (snd backfill) = [].
Proof. vm_compute. repeat split. Qed.

(** ** C2: [start] on an empty store *)

(** The first turn of a running loop that is behind the node asks the node
    for the block after the watermark before any other block. *)
Lemma processHistoricalBlocks_first_fetch fuel w s latest r s' :
  isIndexing s = true ->
  rpc_getBlockNumber w = Ok latest ->
  lastProcessedBlock s + 1 <= latest ->
  processHistoricalBlocks (S fuel) w s = (r, s') ->
  exists evs rest,
    trace s' = trace s ++ evs
    /\ fetched_blocks evs = (lastProcessedBlock s + 1) :: rest.
Proof.
  intros Hrunning Hlatest Hle.
  cbn [processHistoricalBlocks]. unfold bind at 1, gets. rewrite Hrunning.
  unfold bind at 1. rewrite historical_step_eq, Hlatest. cbn zeta.
  destruct (lastProcessedBlock s + 1 >? latest) eqn:Hgt; [lia|].
  destruct (processBlock _ w _) as [r1 s1] eqn:Hrun.
  pose proof (processBlock_frame _ _ _ _ _ Hrun)
    as (_ & (evs1 & Htr1 & Hfetched1 & _) & _).
  cbn [trace set_trace] in Htr1.
  destruct r1 as [[]|e|].
  - destruct (processHistoricalBlocks fuel w s1) as [r2 s2] eqn:Hloop.
    apply processHistoricalBlocks_frame in Hloop as (_ & _ & evs2 & Htr2).
    intros [= <- <-].
    exists ([EvGetBlockNumber] ++ evs1 ++ evs2), (fetched_blocks evs2).
    rewrite Htr2, Htr1, <- !app_assoc. split; [reflexivity|].
    rewrite !fetched_blocks_app, Hfetched1. reflexivity.
  - destruct (processHistoricalBlocks fuel w _) as [r2 s2] eqn:Hloop.
    apply processHistoricalBlocks_frame in Hloop as (_ & _ & evs2 & Htr2).
    cbn [trace set_trace] in Htr2.
    intros [= <- <-].
    exists ([EvGetBlockNumber] ++ evs1 ++ [EvSetTimeout 5000] ++ evs2),
           (fetched_blocks evs2).
    rewrite Htr2, Htr1, <- !app_assoc. split; [reflexivity|].
    rewrite !fetched_blocks_app, Hfetched1. reflexivity.
  - intros [= <- <-].
    exists ([EvGetBlockNumber] ++ evs1), [].
    rewrite Htr1, <- !app_assoc. split; [reflexivity|].
    rewrite !fetched_blocks_app, Hfetched1. reflexivity.
Qed.

(** C2, as the code has it.  When [start] finds no block in the store, the
    watermark with which the backfill loop is entered is 0, so the first
    block backfilled is block 1; with a node that has no block above 0,
    [start] returns with nothing fetched and the watermark still 0; and a
    newly built service answers 0 as well. *)
Theorem start_on_empty_store w s fuel :
  isRunning s = false ->
  blocks s = [] ->
  rpc_getNetwork w = Ok tt ->
  getLastProcessedBlock (snd (start 0 w s)) = 0
  /\ (forall latest,
        rpc_getBlockNumber w = Ok latest -> 1 <= latest ->
        exists evs rest,
          trace (snd (start (S fuel) w s)) = trace s ++ evs
          /\ fetched_blocks evs = 1 :: rest)
  /\ (forall latest,
        rpc_getBlockNumber w = Ok latest -> latest < 1 ->
        exists s' evs,
          start (S fuel) w s = (Done tt, s')
          /\ trace s' = trace s ++ evs
          /\ fetched_blocks evs = []
          /\ blocks s' = []
          /\ getLastProcessedBlock s' = 0)
  /\ getLastProcessedBlock
       (constructor (blocks s) (transactions s) (contract_interfaces s)) = 0.
Proof.
  unfold isRunning, getLastProcessedBlock. intros Hstopped Hempty Hnet.
  assert (Hlast :
    or_zero (option_map Block.number
               match pg_select w with
               | Ok _ => DatabaseService.order_by_number_desc_limit_1 (blocks s)
               | Rejected _ => None
               end) = 0).
  { rewrite Hempty. now destruct (pg_select w). }
  split4.
  - rewrite start_eq, Hstopped, Hnet. cbn zeta. rewrite Hlast. reflexivity.
  - intros latest Hlatest Hle.
    rewrite start_eq, Hstopped, Hnet. cbn zeta. rewrite Hlast.
    destruct (processHistoricalBlocks (S fuel) w _) as [r s'] eqn:Hloop.
    apply (processHistoricalBlocks_first_fetch _ _ _ latest) in Hloop
      as (evs & rest & Htr & Hfetched); [|reflexivity|assumption|assumption].
    cbn [trace set_trace lastProcessedBlock set_newBlockCallback
         set_isIndexing set_lastProcessedBlock] in Htr, Hfetched.
    eexists _, rest. cbn [snd]. rewrite Htr, <- app_assoc.
    split; [reflexivity|]. rewrite fetched_blocks_app. exact Hfetched.
  - intros latest Hlatest Hlt.
    rewrite start_eq, Hstopped, Hnet. cbn zeta. rewrite Hlast.
    cbn [processHistoricalBlocks]. unfold bind at 1, gets.
    cbn [isIndexing set_trace set_newBlockCallback set_isIndexing].
    unfold bind at 1. rewrite historical_step_eq, Hlatest. cbn zeta.
    cbn [lastProcessedBlock set_trace set_newBlockCallback set_isIndexing
         set_lastProcessedBlock].
    destruct (0 + 1 >? latest) eqn:Hgt; [|lia].
    eexists _, _. split; [reflexivity|].
    cbn [trace set_trace blocks lastProcessedBlock].
    rewrite <- app_assoc. split4; [reflexivity | reflexivity | assumption |].
    reflexivity.
  - reflexivity.
Qed.

Lemma start_on_empty_store_witness :
  let w := node 2 chain_0_1_0 every_receipt in
  let s := constructor [] [] [] in
  getLastProcessedBlock (snd (start 0 w s)) = 0
  /\ (forall latest,
        rpc_getBlockNumber w = Ok latest -> 1 <= latest ->
        exists evs rest,
          trace (snd (start 3 w s)) = trace s ++ evs
          /\ fetched_blocks evs = 1 :: rest)
  /\ (forall latest,
        rpc_getBlockNumber w = Ok latest -> latest < 1 ->
        exists s' evs,
          start 3 w s = (Done tt, s')
          /\ trace s' = trace s ++ evs
          /\ fetched_blocks evs = []
          /\ blocks s' = []
          /\ getLastProcessedBlock s' = 0)
  /\ getLastProcessedBlock
       (constructor (blocks s) (transactions s) (contract_interfaces s)) = 0.
Proof.
  apply (start_on_empty_store (node 2 chain_0_1_0 every_receipt)
                              (constructor [] [] []) 2).
  - reflexivity.
  - reflexivity.
  - reflexivity.
Defined.

(** C2 fails as stated: on an empty store the watermark is 0, not -1, when
    the backfill loop is entered and in a newly built service, and the
    backfill of a chain of height 2 fetches blocks 1 and 2, never block 0. *)
Lemma start_on_empty_store_counterexample :
  let w := node 2 chain_0_1_0 every_receipt in
  let s := constructor [] [] [] in
  blocks s = []
  /\ getLastProcessedBlock s = 0
  /\ getLastProcessedBlock (snd (start 0 w s)) = 0
  /\ getLastProcessedBlock (snd (start 0 w s)) <> -1
  /\ fetched_blocks (trace (snd (start 3 w s))) = [1; 2]
  /\ block_rows 0 (snd (start 3 w s)) = [].
Proof. vm_compute. repeat split. discriminate. Qed.
(** ** C6: the backfill of three blocks *)

(** A pass over a block without transactions, in full. *)
Lemma processBlock_without_transactions n w s bwt :
  rpc_getBlockWithTransactions w n = Ok (Some bwt) ->
  BlockWithTransactions.transactions bwt = [] ->
  pg_insert_block w (prepare_block n bwt) = Ok tt ->
  processBlock n w s
  = (Done tt,
     set_lastProcessedBlock n
       (set_blocks (upsert_block (prepare_block n bwt) (blocks s))
          (set_trace (trace s ++ [EvGetBlockWithTransactions n;
                                  EvInsertBlock (prepare_block n bwt)]) s))).
Proof.
  intros Hblock Htxs Hinsert.
  rewrite processBlock_eq, Hblock. cbn zeta.
  rewrite insertBlock_eq, Hinsert, Htxs. cbn [for_of]. unfold ret.
  cbn [trace set_trace set_blocks blocks]. now rewrite <- app_assoc.
Qed.

(** A pass over a block with one transaction whose receipt is there. *)
Lemma processBlock_with_one_transaction n w s bwt tx receipt :
  rpc_getBlockWithTransactions w n = Ok (Some bwt) ->
  BlockWithTransactions.transactions bwt = [tx] ->
  pg_insert_block w (prepare_block n bwt) = Ok tt ->
  rpc_getTransactionReceipt w (TransactionResponse.hash tx)
  = Ok (Some receipt) ->
  pg_insert_transaction w (prepare_transaction n bwt tx receipt (toISOString w))
  = Ok tt ->
  processBlock n w s
  = (Done tt,
     set_lastProcessedBlock n
       (set_transactions
          (upsert_transaction
             (prepare_transaction n bwt tx receipt (toISOString w))
             (transactions s))
          (set_blocks (upsert_block (prepare_block n bwt) (blocks s))
             (set_trace
                (trace s ++
                 [EvGetBlockWithTransactions n;
                  EvInsertBlock (prepare_block n bwt);
                  EvGetTransactionReceipt (TransactionResponse.hash tx);
                  EvInsertTransaction
                    (prepare_transaction n bwt tx receipt (toISOString w))])
                s)))).
Proof.
  intros Hblock Htxs Hinsert Hreceipt Hwrite.
  rewrite processBlock_eq, Hblock. cbn zeta.
  rewrite insertBlock_eq, Hinsert, Htxs. cbn [for_of]. unfold bind at 1.
  rewrite process_transaction_eq, Hreceipt. cbn zeta.
  rewrite insertTransaction_eq, Hwrite. unfold ret.
  cbn [trace set_trace set_blocks blocks transactions set_transactions].
  now rewrite <- !app_assoc.
Qed.

(** C6.  The store is empty, the node is at height 2 and serves blocks 0, 1
    and 2 holding no, one and no transaction, the receipt of that
    transaction is there, and store and node answer every call.  Then
    [start], given three turns of the backfill loop or more, returns; the
    store then counts one transaction and the watermark is 2. *)
Theorem start_backfills_three_blocks w s fuel b0 b1 b2 tx receipt :
  isRunning s = false ->
  blocks s = [] ->
  transactions s = [] ->
  rpc_getNetwork w = Ok tt ->
  pg_select w = Ok tt ->
  (forall block, pg_insert_block w block = Ok tt) ->
  (forall transaction, pg_insert_transaction w transaction = Ok tt) ->
  rpc_getBlockNumber w = Ok 2 ->
  rpc_getBlockWithTransactions w 0 = Ok (Some b0) ->
  rpc_getBlockWithTransactions w 1 = Ok (Some b1) ->
  rpc_getBlockWithTransactions w 2 = Ok (Some b2) ->
  BlockWithTransactions.transactions b0 = [] ->
  BlockWithTransactions.transactions b1 = [tx] ->
  BlockWithTransactions.transactions b2 = [] ->
  rpc_getTransactionReceipt w (TransactionResponse.hash tx)
  = Ok (Some receipt) ->
  (3 <= fuel)%nat ->
  exists s',
    start fuel w s = (Done tt, s')
    /\ fst (DatabaseService.getTotalTransactions w s') = Done 1
    /\ getLastProcessedBlock s' = 2.
Proof.
  unfold isRunning, getLastProcessedBlock.
  intros Hstopped Hblocks Htransactions Hnet Hselect Hinsert Hwrite Hhead
         _ Hb1 Hb2 _ Htx1 Htx2 Hreceipt Hfuel.
  destruct fuel as [|[|[|fuel]]]; try lia.
  rewrite start_eq, Hstopped, Hnet, Hselect, Hblocks. cbn zeta.
  cbn [DatabaseService.order_by_number_desc_limit_1 option_map or_zero].
  (* first turn: block 1 *)
  cbn [processHistoricalBlocks]. unfold bind at 1, gets.
  cbn [isIndexing set_trace set_newBlockCallback set_isIndexing].
  unfold bind at 1. rewrite historical_step_eq, Hhead. cbn zeta.
  cbn [lastProcessedBlock set_trace set_newBlockCallback set_isIndexing
       set_lastProcessedBlock].
  change (0 + 1 >? 2) with false. cbn iota.
  rewrite (processBlock_with_one_transaction 1 w _ b1 tx receipt)
    by auto.
  (* second turn: block 2 *)
  unfold bind at 1, gets.
  cbn [isIndexing set_trace set_newBlockCallback set_isIndexing
       set_lastProcessedBlock set_transactions set_blocks].
  unfold bind at 1. rewrite historical_step_eq, Hhead. cbn zeta.
  cbn [lastProcessedBlock set_trace set_newBlockCallback set_isIndexing
       set_lastProcessedBlock set_transactions set_blocks].
  change (1 + 1 >? 2) with false. cbn iota. change (1 + 1) with 2.
  rewrite (processBlock_without_transactions 2 w _ b2) by auto.
  (* third turn: caught up *)
  unfold bind at 1, gets.
  cbn [isIndexing set_trace set_newBlockCallback set_isIndexing
       set_lastProcessedBlock set_transactions set_blocks].
  unfold bind at 1. rewrite historical_step_eq, Hhead. cbn zeta.
  cbn [lastProcessedBlock set_trace set_newBlockCallback set_isIndexing
       set_lastProcessedBlock set_transactions set_blocks].
  change (2 + 1 >? 2) with true. cbn iota. unfold ret.
  eexists. split; [reflexivity|]. split; [|reflexivity].
  unfold DatabaseService.getTotalTransactions. unfold_monad.
  rewrite Hselect. cbn [fst transactions set_trace set_transactions
                        set_blocks set_lastProcessedBlock
                        set_newBlockCallback set_isIndexing].
  rewrite Htransactions. reflexivity.
Qed.

Lemma start_backfills_three_blocks_witness :
  exists s',
    start 3 (node 2 chain_0_1_0 every_receipt) (constructor [] [] [])
    = (Done tt, s')
    /\ fst (DatabaseService.getTotalTransactions
              (node 2 chain_0_1_0 every_receipt) s') = Done 1
    /\ getLastProcessedBlock s' = 2.
Proof.
  apply (start_backfills_three_blocks
           (node 2 chain_0_1_0 every_receipt) (constructor [] [] []) 3
           (a_block []) (a_block [a_transfer]) (a_block [])
           a_transfer a_receipt);
    reflexivity.
Defined.
(** ** C8: writing the same row twice *)

Lemma upsert_block_replaces b rows :
  Block.number b ∈ map Block.number rows ->
  length (upsert_block b rows) = length rows.
Proof.
  intros Hin.
  pose proof (upsert_keys Block.number _ blocks_do_update_key b rows) as Hkeys.
  rewrite bool_decide_eq_true_2 in Hkeys by assumption.
  apply (f_equal length) in Hkeys. now rewrite !length_map in Hkeys.
Qed.

Lemma upsert_transaction_replaces t rows :
  Transaction.hash t ∈ map Transaction.hash rows ->
  length (upsert_transaction t rows) = length rows.
Proof.
  intros Hin.
  pose proof (upsert_keys Transaction.hash _ transactions_do_update_key t rows)
    as Hkeys.
  rewrite bool_decide_eq_true_2 in Hkeys by assumption.
  apply (f_equal length) in Hkeys. now rewrite !length_map in Hkeys.
Qed.

(** C8.  On a store whose tables hold one row per block number and one row
    per transaction hash, [insertBlock] (and [insertTransaction]) applied a
    second time with the same data leaves the three tables as the first
    application left them; the tables still hold one row per key; and when
    the server accepts the write, the rows stored under the key of the row
    are that row alone, and the table has not grown if the key was already
    stored. *)
Theorem upsert_twice_is_upsert_once w s block transaction :
  NoDup (map Block.number (blocks s)) ->
  NoDup (map Transaction.hash (transactions s)) ->
  let sb := snd (DatabaseService.insertBlock block w s) in
  let st := snd (DatabaseService.insertTransaction transaction w s) in
  tables (snd (DatabaseService.insertBlock block w sb)) = tables sb
  /\ tables (snd (DatabaseService.insertTransaction transaction w st))
     = tables st
  /\ NoDup (map Block.number (blocks sb))
  /\ NoDup (map Transaction.hash (transactions st))
  /\ (pg_insert_block w block = Ok tt ->
      block_rows (Block.number block) sb = [block]
      /\ (Block.number block ∈ map Block.number (blocks s) ->
          length (blocks sb) = length (blocks s)))
  /\ (pg_insert_transaction w transaction = Ok tt ->
      transaction_rows (Transaction.hash transaction) st = [transaction]
      /\ (Transaction.hash transaction ∈ map Transaction.hash (transactions s) ->
          length (transactions st) = length (transactions s))).
Proof.
  intros Hblocks Htransactions sb st. subst sb st.
  rewrite !insertBlock_eq, !insertTransaction_eq.
  destruct (pg_insert_block w block) as [[]|eb];
    destruct (pg_insert_transaction w transaction) as [[]|et];
    cbn [snd tables blocks transactions contract_interfaces
         set_blocks set_transactions set_trace];
    rewrite ?upsert_block_idempotent, ?upsert_transaction_idempotent;
    (split; [reflexivity|]); (split; [reflexivity|]);
    (split; [auto using upsert_block_NoDup|]);
    (split; [auto using upsert_transaction_NoDup|]);
    (split; [intros [=] || intros _|intros [=] || intros _]);
    unfold block_rows, transaction_rows;
    cbn [blocks transactions set_blocks set_transactions set_trace];
    auto using upsert_block_stored_once, upsert_block_replaces,
               upsert_transaction_stored_once, upsert_transaction_replaces.
Qed.

Lemma upsert_twice_is_upsert_once_witness :
  let w := node 10 empty_chain every_receipt in
  let s := caught_up_at_10 in
  let block := prepare_block 5 (a_block [a_transfer]) in
  let transaction :=
    prepare_transaction 5 (a_block [a_transfer]) a_transfer a_receipt
                        (toISOString w) in
  let sb := snd (DatabaseService.insertBlock block w s) in
  let st := snd (DatabaseService.insertTransaction transaction w s) in
  tables (snd (DatabaseService.insertBlock block w sb)) = tables sb
  /\ tables (snd (DatabaseService.insertTransaction transaction w st))
     = tables st
  /\ NoDup (map Block.number (blocks sb))
  /\ NoDup (map Transaction.hash (transactions st))
  /\ (pg_insert_block w block = Ok tt ->
      block_rows (Block.number block) sb = [block]
      /\ (Block.number block ∈ map Block.number (blocks s) ->
          length (blocks sb) = length (blocks s)))
  /\ (pg_insert_transaction w transaction = Ok tt ->
      transaction_rows (Transaction.hash transaction) st = [transaction]
      /\ (Transaction.hash transaction ∈ map Transaction.hash (transactions s) ->
          length (transactions st) = length (transactions s))).
Proof.
  apply (upsert_twice_is_upsert_once
           (node 10 empty_chain every_receipt) caught_up_at_10
           (prepare_block 5 (a_block [a_transfer]))
           (prepare_transaction 5 (a_block [a_transfer]) a_transfer a_receipt
              (toISOString (node 10 empty_chain every_receipt)))).
  - apply (bool_decide_unpack _). vm_compute. exact I.
  - apply (bool_decide_unpack _). vm_compute. exact I.
Defined.
(** ** C9: the interface classifier *)

Lemma every_has_subseteq (requiredFunctions : list string)
    (functions : gset string) :
  every_has requiredFunctions functions = true
  <-> (list_to_set requiredFunctions : gset string) ⊆ functions.
Proof.
  unfold every_has. rewrite forallb_forall. split.
  - intros Hall func Hfunc. apply elem_of_list_to_set in Hfunc.
    apply list_elem_of_In, Hall in Hfunc. now apply bool_decide_eq_true_1 in Hfunc.
  - intros Hsub func Hfunc. apply bool_decide_eq_true_2, Hsub.
    now apply elem_of_list_to_set, list_elem_of_In.
Qed.

Lemma insertContractInterface_eq address interfaceType w s :
  DatabaseService.insertContractInterface address interfaceType w s
  = let ev := EvInsertContractInterface (toLowerCase address) interfaceType in
    match pg_insert_contract_interface w (toLowerCase address) interfaceType with
    | Ok _ =>
        (Done tt,
         set_contract_interfaces
           (DatabaseService.insert_on_conflict
              DatabaseService.contract_interfaces_conflict
              DatabaseService.contract_interfaces_do_update
              (ContractInterface.mk (toLowerCase address) interfaceType (now w))
              (contract_interfaces s))
           (set_trace (trace s ++ [ev]) s))
    | Rejected e => (Thrown e, set_trace (trace s ++ [ev]) s)
    end.
Proof.
  unfold DatabaseService.insertContractInterface. unfold_monad.
  destruct (pg_insert_contract_interface w _ _); reflexivity.
Qed.

(** Without a row in conflict, the proposed row is appended. *)
Lemma insert_without_conflict {R} (conflict : R -> R -> bool)
    (do_update : R -> R -> R) (excluded : R) (rows : list R) :
  Forall (fun row => conflict row excluded = false) rows ->
  DatabaseService.insert_on_conflict conflict do_update excluded rows
  = rows ++ [excluded].
Proof.
  induction 1 as [|row rest Hrow _ IH]; cbn; [reflexivity|].
  now rewrite Hrow, IH.
Qed.

(** The rows of the other contracts are never in conflict, and those of the
    same contract are in conflict when they carry the same tag. *)
Lemma interface_conflicts address interfaceType detected_at rows :
  interfaceType
    ∉ map ContractInterface.interface_type
          (filter (fun row => ContractInterface.address row = address) rows) ->
  Forall (fun row =>
            DatabaseService.contract_interfaces_conflict row
              (ContractInterface.mk address interfaceType detected_at) = false)
         rows.
Proof.
  induction rows as [|row rest IH]; intros Hnotin; constructor.
  - unfold DatabaseService.contract_interfaces_conflict. cbn.
    destruct (decide (ContractInterface.address row = address)) as [Ha|Ha].
    + rewrite filter_cons_True in Hnotin by assumption. cbn in Hnotin.
      apply not_elem_of_cons in Hnotin as [Hne _].
      rewrite (bool_decide_eq_false_2
                 (ContractInterface.interface_type row = interfaceType))
        by congruence.
      apply andb_false_r.
    + now rewrite (bool_decide_eq_false_2 _ Ha).
  - apply IH.
    destruct (decide (ContractInterface.address row = address)) as [Ha|Ha].
    + rewrite filter_cons_True in Hnotin by assumption. cbn in Hnotin.
      now apply not_elem_of_cons in Hnotin as [_ ?].
    + now rewrite filter_cons_False in Hnotin by assumption.
Qed.

Section DetectLoop.
Variables (w : World) (address : string) (functions : gset string).
Hypothesis store_accepts :
  forall a i, pg_insert_contract_interface w a i = Ok tt.

Let body : string * list string -> M unit :=
  fun '(interfaceType, requiredFunctions) =>
    if every_has requiredFunctions functions
    then DatabaseService.insertContractInterface address interfaceType
    else ret tt.

Let matching (standards : list (string * list string)) : list string :=
  map fst
    (filter (fun standard : string * list string =>
               (list_to_set (snd standard) : gset string) ⊆ functions)
            standards).

Lemma detect_loop standards : forall s stored,
  map ContractInterface.interface_type (interface_rows address s) = stored ->
  NoDup (stored ++ map fst standards) ->
  exists s',
    for_of standards body w s = (Done tt, s')
    /\ trace s'
       = trace s ++ map (EvInsertContractInterface (toLowerCase address))
                        (matching standards)
    /\ map ContractInterface.interface_type (interface_rows address s')
       = stored ++ matching standards.
Proof.
  subst body matching.
  induction standards as [|[interfaceType required] rest IH];
    intros s stored Hstored Hnodup; cbn [for_of].
  - exists s. cbn. rewrite !app_nil_r. now split3.
  - cbn [map fst] in Hnodup. unfold bind at 1.
    destruct (every_has required functions) eqn:Hevery.
    + rewrite insertContractInterface_eq, store_accepts. cbn zeta.
      rewrite filter_cons_True by now apply every_has_subseteq.
      cbn [map fst].
      rewrite insert_without_conflict.
      2:{ apply interface_conflicts. fold (interface_rows address s).
          rewrite Hstored. apply NoDup_app in Hnodup as (_ & Hdisjoint & _).
          intros Hin. apply (Hdisjoint _ Hin). apply list_elem_of_here. }
      match goal with |- context [for_of rest _ w ?s1] =>
        destruct (IH s1 (stored ++ [interfaceType])) as (s' & Hrun & Htr & Hrows)
      end.
      * unfold interface_rows. cbn [contract_interfaces set_contract_interfaces].
        rewrite filter_app, filter_cons_True by reflexivity.
        rewrite map_app. fold (interface_rows address s). now rewrite Hstored.
      * now rewrite <- app_assoc.
      * exists s'. split3; [exact Hrun | |].
        -- rewrite Htr. cbn [trace set_contract_interfaces set_trace].
           now rewrite <- app_assoc.
        -- rewrite Hrows. now rewrite <- app_assoc.
    + unfold ret at 1.
      rewrite filter_cons_False.
      2:{ rewrite <- every_has_subseteq. cbn [snd]. congruence. }
      apply IH; [assumption|].
      apply NoDup_app in Hnodup as (Hs & Hdisjoint & Hrest).
      apply NoDup_app. split3; [assumption | | now apply NoDup_cons in Hrest as [_ ?]].
      intros x Hx Hx'. apply (Hdisjoint x Hx). now apply list_elem_of_further.
Qed.

End DetectLoop.
Lemma classify_spec (functionNames : gset string) (standard : string) :
  standard ∈ classify functionNames
  <-> exists required,
        (standard, required) ∈ interfaceDetectors
        /\ (list_to_set required : gset string) ⊆ functionNames.
Proof.
  unfold classify. rewrite list_elem_of_In, in_map_iff. split.
  - intros [[name required] [<- Hin]].
    apply list_elem_of_In, list_elem_of_filter in Hin as [Hsub Hin].
    now exists required.
  - intros [required [Hin Hsub]]. exists (standard, required).
    split; [reflexivity|]. now apply list_elem_of_In, list_elem_of_filter.
Qed.

Lemma elem_of_functions_of abi name :
  name ∈ functions_of abi <-> exposes abi name.
Proof.
  unfold functions_of, exposes.
  rewrite elem_of_list_to_set, list_elem_of_In, in_map_iff.
  split.
  - intros [item [<- Hin]].
    apply list_elem_of_In, list_elem_of_filter in Hin as [Htype Hin].
    now exists item.
  - intros [item (Hin & Htype & <-)]. exists item. split; [reflexivity|].
    now apply list_elem_of_In, list_elem_of_filter.
Qed.

(** On a contract without a tag and a store that accepts the writes, the
    detector writes the standards of [classify], in that order. *)
Lemma detectAndStoreInterfaces_on_untagged w s address abi :
  (forall a i, pg_insert_contract_interface w a i = Ok tt) ->
  interface_rows address s = [] ->
  exists s',
    detectAndStoreInterfaces address abi w s = (Done tt, s')
    /\ trace s'
       = trace s ++ map (EvInsertContractInterface (toLowerCase address))
                        (classify (functions_of abi))
    /\ map ContractInterface.interface_type (interface_rows address s')
       = classify (functions_of abi).
Proof.
  intros Haccepts Hnone. unfold detectAndStoreInterfaces. cbn zeta.
  destruct (detect_loop w address (functions_of abi) Haccepts
              interfaceDetectors s [])
    as (s' & Hrun & Htr & Hrows).
  - now rewrite Hnone.
  - apply (bool_decide_unpack _). vm_compute. exact I.
  - exists s'. now split3.
Qed.

Lemma tags_after_detection_eq w s address abi :
  (forall a i, pg_insert_contract_interface w a i = Ok tt) ->
  interface_rows address s = [] ->
  tags_after_detection w s address abi = classify (functions_of abi).
Proof.
  intros Haccepts Hnone. unfold tags_after_detection.
  destruct (detectAndStoreInterfaces_on_untagged w s address abi Haccepts Hnone)
    as (s' & -> & _ & Hrows).
  exact Hrows.
Qed.

Lemma required_subseteq_exposes (required : list string) abi :
  (list_to_set required : gset string) ⊆ functions_of abi
  <-> forall func, func ∈ required -> exposes abi func.
Proof.
  split.
  - intros Hsub func Hfunc. apply elem_of_functions_of, Hsub.
    now apply elem_of_list_to_set.
  - intros Hall func Hfunc. apply elem_of_functions_of, Hall.
    now apply elem_of_list_to_set in Hfunc.
Qed.

(** C9.  When the store accepts the writes and holds no tag yet for the
    contract, [detectAndStoreInterfaces] returns after writing one tag for
    each standard that [classify] gives for the function names of the ABI,
    and nothing else.  The function names of the ABI are the names of its
    entries of type [function], so a standard is among the tags stored
    exactly when every one of its required names is the name of such an
    entry.  Run on the ABI made of the five ERC20 names the code stores the
    ERC20 tag, on the four ERC721 names the ERC721 tag, on their union both
    tags, and on an ABI that lacks a required name of every standard it
    stores no tag and writes nothing. *)
Theorem detectAndStoreInterfaces_classifies w s address abi :
  (forall a i, pg_insert_contract_interface w a i = Ok tt) ->
  interface_rows address s = [] ->
  (exists s',
     detectAndStoreInterfaces address abi w s = (Done tt, s')
     /\ trace s'
        = trace s ++ map (EvInsertContractInterface (toLowerCase address))
                         (classify (functions_of abi))
     /\ map ContractInterface.interface_type (interface_rows address s')
        = classify (functions_of abi))
  /\ (forall func, func ∈ functions_of abi <-> exposes abi func)
  /\ (forall standard,
        standard ∈ tags_after_detection w s address abi
        <-> exists required,
              (standard, required) ∈ interfaceDetectors
              /\ forall func, func ∈ required -> exposes abi func)
  /\ (forall standard,
        standard ∈ classify (functions_of abi)
        <-> exists required,
              (standard, required) ∈ interfaceDetectors
              /\ (list_to_set required : gset string) ⊆ functions_of abi)
  /\ tags_after_detection w s address
       (abi_of_functions
          ["balanceOf"; "transfer"; "approve"; "allowance"; "transferFrom"])
     = ["ERC20"]
  /\ tags_after_detection w s address
       (abi_of_functions
          ["ownerOf"; "approve"; "transferFrom"; "safeTransferFrom"])
     = ["ERC721"]
  /\ tags_after_detection w s address
       (abi_of_functions
          ["balanceOf"; "transfer"; "approve"; "allowance"; "transferFrom";
           "ownerOf"; "safeTransferFrom"])
     = ["ERC20"; "ERC721"]
  /\ tags_after_detection w s address
       (abi_of_functions ["balanceOf"; "transfer"; "approve"])
     = []
  /\ classify ERC20_functions = ["ERC20"]
  /\ classify ERC721_functions = ["ERC721"]
  /\ classify (ERC20_functions ∪ ERC721_functions) = ["ERC20"; "ERC721"]
  /\ ((forall standard required,
         (standard, required) ∈ interfaceDetectors ->
         ~ (forall func, func ∈ required -> exposes abi func)) ->
      tags_after_detection w s address abi = []
      /\ trace (snd (detectAndStoreInterfaces address abi w s)) = trace s).
Proof.
  intros Haccepts Hnone.
  pose proof (detectAndStoreInterfaces_on_untagged w s address abi
                Haccepts Hnone) as Hrun.
  split; [exact Hrun|].
  split; [apply elem_of_functions_of|].
  split.
  { intros standard. rewrite tags_after_detection_eq by assumption.
    rewrite classify_spec. split.
    - intros (required & Hin & Hsub). exists required.
      split; [assumption|]. now apply required_subseteq_exposes.
    - intros (required & Hin & Hall). exists required.
      split; [assumption|]. now apply required_subseteq_exposes. }
  split; [apply classify_spec|].
  split; [rewrite tags_after_detection_eq by assumption; vm_compute; reflexivity|].
  split; [rewrite tags_after_detection_eq by assumption; vm_compute; reflexivity|].
  split; [rewrite tags_after_detection_eq by assumption; vm_compute; reflexivity|].
  split; [rewrite tags_after_detection_eq by assumption; vm_compute; reflexivity|].
  split; [vm_compute; reflexivity|].
  split; [vm_compute; reflexivity|].
  split; [vm_compute; reflexivity|].
  intros Hnomatch.
  assert (Hempty : classify (functions_of abi) = []).
  { destruct (classify (functions_of abi)) as [|standard rest] eqn:Hc;
      [reflexivity|].
    assert (Hin : standard ∈ classify (functions_of abi))
      by (rewrite Hc; apply list_elem_of_here).
    apply classify_spec in Hin as (required & Hin & Hsub).
    destruct (Hnomatch _ _ Hin). now apply required_subseteq_exposes. }
  split.
  - now rewrite tags_after_detection_eq.
  - destruct Hrun as (s' & -> & Htr & _). cbn [snd].
    rewrite Htr, Hempty. cbn. apply app_nil_r.
Qed.

Lemma detectAndStoreInterfaces_classifies_witness :
  let w := node 10 empty_chain every_receipt in
  let s := caught_up_at_10 in
  let address := "0xAbCdEf0000000000000000000000000000000001" in
  let abi :=
    AbiItem.mk "event" "Transfer"
    :: abi_of_functions
         ["balanceOf"; "transfer"; "approve"; "allowance"; "transferFrom"] in
  (exists s',
     detectAndStoreInterfaces address abi w s = (Done tt, s')
     /\ trace s'
        = trace s ++ map (EvInsertContractInterface (toLowerCase address))
                         (classify (functions_of abi))
     /\ map ContractInterface.interface_type (interface_rows address s')
        = classify (functions_of abi))
  /\ (forall func, func ∈ functions_of abi <-> exposes abi func)
  /\ (forall standard,
        standard ∈ tags_after_detection w s address abi
        <-> exists required,
              (standard, required) ∈ interfaceDetectors
              /\ forall func, func ∈ required -> exposes abi func)
  /\ (forall standard,
        standard ∈ classify (functions_of abi)
        <-> exists required,
              (standard, required) ∈ interfaceDetectors
              /\ (list_to_set required : gset string) ⊆ functions_of abi)
  /\ tags_after_detection w s address
       (abi_of_functions
          ["balanceOf"; "transfer"; "approve"; "allowance"; "transferFrom"])
     = ["ERC20"]
  /\ tags_after_detection w s address
       (abi_of_functions
          ["ownerOf"; "approve"; "transferFrom"; "safeTransferFrom"])
     = ["ERC721"]
  /\ tags_after_detection w s address
       (abi_of_functions
          ["balanceOf"; "transfer"; "approve"; "allowance"; "transferFrom";
           "ownerOf"; "safeTransferFrom"])
     = ["ERC20"; "ERC721"]
  /\ tags_after_detection w s address
       (abi_of_functions ["balanceOf"; "transfer"; "approve"])
     = []
  /\ classify ERC20_functions = ["ERC20"]
  /\ classify ERC721_functions = ["ERC721"]
  /\ classify (ERC20_functions ∪ ERC721_functions) = ["ERC20"; "ERC721"]
  /\ ((forall standard required,
         (standard, required) ∈ interfaceDetectors ->
         ~ (forall func, func ∈ required -> exposes abi func)) ->
      tags_after_detection w s address abi = []
      /\ trace (snd (detectAndStoreInterfaces address abi w s)) = trace s).
Proof.
  apply (detectAndStoreInterfaces_classifies
           (node 10 empty_chain every_receipt) caught_up_at_10
           "0xAbCdEf0000000000000000000000000000000001"
           (AbiItem.mk "event" "Transfer"
            :: abi_of_functions
                 ["balanceOf"; "transfer"; "approve"; "allowance";
                  "transferFrom"])).
  - reflexivity.
  - vm_compute. reflexivity.
Defined.

(** The examples of C9 run on the code: the tags written for four ABIs. *)
Example detectAndStoreInterfaces_examples :
  let w := node 10 empty_chain every_receipt in
  let tags names :=
    written_interfaces
      (trace (snd (detectAndStoreInterfaces "0xAB" (abi_of_functions names) w
                     (constructor [] [] [])))) in
  tags ["balanceOf"; "transfer"; "approve"; "allowance"; "transferFrom"]
  = [("0xab", "ERC20")]
  /\ tags ["ownerOf"; "approve"; "transferFrom"; "safeTransferFrom"]
     = [("0xab", "ERC721")]
  /\ tags ["balanceOf"; "transfer"; "approve"; "allowance"; "transferFrom";
           "ownerOf"; "safeTransferFrom"]
     = [("0xab", "ERC20"); ("0xab", "ERC721")]
  /\ tags ["balanceOf"; "transfer"; "approve"] = []
  /\ tags [] = [].
Proof. vm_compute. repeat split. Qed.


(** * Further properties of the code *)

(** ** The store: reads *)

(** X1.  The reads of [DatabaseService] never throw and never change a
    table; when the server rejects the query they answer [null], 0 or the
    empty list. *)
Theorem store_reads_never_throw w s number hash address :
  (exists r s', DatabaseService.getLatestBlock w s = (Done r, s')
     /\ tables s' = tables s
     /\ (is_ok (pg_select w) = false -> r = None))
  /\ (exists r s', DatabaseService.getBlock number w s = (Done r, s')
        /\ tables s' = tables s
        /\ (is_ok (pg_select w) = false -> r = None))
  /\ (exists r s', DatabaseService.getTransaction hash w s = (Done r, s')
        /\ tables s' = tables s
        /\ (is_ok (pg_select w) = false -> r = None))
  /\ (exists r s', DatabaseService.getTotalTransactions w s = (Done r, s')
        /\ tables s' = tables s
        /\ (is_ok (pg_select w) = false -> r = 0))
  /\ (exists r s', DatabaseService.getContractInterfaces address w s = (Done r, s')
        /\ tables s' = tables s
        /\ (is_ok (pg_select w) = false -> r = [])).
Proof.
  unfold DatabaseService.getLatestBlock, DatabaseService.getBlock,
         DatabaseService.getTransaction, DatabaseService.getTotalTransactions,
         DatabaseService.getContractInterfaces.
  unfold_monad.
  destruct (pg_select w) as [[]|e]; cbn [is_ok];
    repeat split; eexists _, _; (split; [reflexivity|]);
    (split; [reflexivity | (discriminate || reflexivity)]).
Qed.

(** [getLatestBlock], [getBlock], [getTransaction] and
    [getTotalTransactions] when the server answers. *)
Lemma getLatestBlock_eq w s :
  DatabaseService.getLatestBlock w s
  = (Done (match pg_select w with
           | Ok _ => DatabaseService.order_by_number_desc_limit_1 (blocks s)
           | Rejected _ => None
           end),
     set_trace (trace s ++ [EvSelectLatestBlock]) s).
Proof.
  unfold DatabaseService.getLatestBlock. unfold_monad.
  destruct (pg_select w) as [[]|e]; reflexivity.
Qed.

Lemma getBlock_eq number w s :
  DatabaseService.getBlock number w s
  = (Done (match pg_select w with
           | Ok _ => head (block_rows number s)
           | Rejected _ => None
           end),
     set_trace (trace s ++ [EvSelectBlock number]) s).
Proof.
  unfold DatabaseService.getBlock. unfold_monad.
  destruct (pg_select w) as [[]|e]; reflexivity.
Qed.

Lemma getTransaction_eq hash w s :
  DatabaseService.getTransaction hash w s
  = (Done (match pg_select w with
           | Ok _ => head (transaction_rows hash s)
           | Rejected _ => None
           end),
     set_trace (trace s ++ [EvSelectTransaction hash]) s).
Proof.
  unfold DatabaseService.getTransaction. unfold_monad.
  destruct (pg_select w) as [[]|e]; reflexivity.
Qed.

Lemma getTotalTransactions_eq w s :
  DatabaseService.getTotalTransactions w s
  = (Done (match pg_select w with
           | Ok _ => Z.of_nat (length (transactions s))
           | Rejected _ => 0
           end),
     set_trace (trace s ++ [EvCountTransactions]) s).
Proof.
  unfold DatabaseService.getTotalTransactions. unfold_monad.
  destruct (pg_select w) as [[]|e]; reflexivity.
Qed.

Lemma order_by_number_desc_limit_1_max rows :
  match DatabaseService.order_by_number_desc_limit_1 rows with
  | Some best =>
      best ∈ rows
      /\ forall row, row ∈ rows -> Block.number row <= Block.number best
  | None => rows = []
  end.
Proof.
  induction rows as [|row rest IH];
    cbn [DatabaseService.order_by_number_desc_limit_1]; [reflexivity|].
  destruct (DatabaseService.order_by_number_desc_limit_1 rest) as [best|].
  - destruct IH as [Hin Hmax].
    destruct (Block.number row <? Block.number best) eqn:Hlt.
    + apply Z.ltb_lt in Hlt. split; [now apply list_elem_of_further|].
      intros row' [->|Hin']%elem_of_cons; [lia | now apply Hmax].
    + apply Z.ltb_ge in Hlt. split; [apply list_elem_of_here|].
      intros row' [->|Hin']%elem_of_cons; [lia|].
      apply Hmax in Hin'. lia.
  - subst rest. split; [apply list_elem_of_here|].
    intros row' [->|Hin']%elem_of_cons; [lia | now apply elem_of_nil in Hin'].
Qed.

(** X2.  When the server answers, [getLatestBlock] returns a stored block
    whose number no stored block exceeds, and returns [null] only on a
    table without a row. *)
Theorem getLatestBlock_is_highest w s :
  pg_select w = Ok tt ->
  match fst (DatabaseService.getLatestBlock w s) with
  | Done (Some best) =>
      best ∈ blocks s
      /\ forall row, row ∈ blocks s -> Block.number row <= Block.number best
  | Done None => blocks s = []
  | _ => False
  end.
Proof.
  intros Hselect. rewrite getLatestBlock_eq, Hselect. cbn [fst].
  apply order_by_number_desc_limit_1_max.
Qed.

Lemma getLatestBlock_is_highest_witness :
  match fst (DatabaseService.getLatestBlock
               (node 10 empty_chain every_receipt) caught_up_at_10) with
  | Done (Some best) =>
      best ∈ blocks caught_up_at_10
      /\ forall row, row ∈ blocks caught_up_at_10 ->
                     Block.number row <= Block.number best
  | Done None => blocks caught_up_at_10 = []
  | _ => False
  end.
Proof.
  apply (getLatestBlock_is_highest
           (node 10 empty_chain every_receipt) caught_up_at_10).
  reflexivity.
Defined.

(** ** The store: writes *)

(** X3.  A row that the server accepts is what the next lookup of its key
    returns, and the lookups of the other keys return what they did. *)
Theorem insert_then_get w w' s block transaction :
  pg_insert_block w block = Ok tt ->
  pg_insert_transaction w transaction = Ok tt ->
  pg_select w' = Ok tt ->
  let sb := snd (DatabaseService.insertBlock block w s) in
  let st := snd (DatabaseService.insertTransaction transaction w s) in
  fst (DatabaseService.getBlock (Block.number block) w' sb) = Done (Some block)
  /\ (forall number, number <> Block.number block ->
        fst (DatabaseService.getBlock number w' sb)
        = fst (DatabaseService.getBlock number w' s))
  /\ fst (DatabaseService.getTransaction (Transaction.hash transaction) w' st)
     = Done (Some transaction)
  /\ (forall hash, hash <> Transaction.hash transaction ->
        fst (DatabaseService.getTransaction hash w' st)
        = fst (DatabaseService.getTransaction hash w' s)).
Proof.
  intros Hblock Htransaction Hselect sb st. subst sb st.
  rewrite insertBlock_eq, insertTransaction_eq, Hblock, Htransaction.
  cbn [snd]. split4.
  - rewrite getBlock_eq, Hselect. cbn [fst]. unfold block_rows.
    cbn [blocks set_blocks set_trace]. f_equal.
    apply upsert_block_first_row.
  - intros number Hne. rewrite !getBlock_eq, Hselect. cbn [fst].
    unfold block_rows. cbn [blocks set_blocks set_trace].
    now rewrite upsert_block_other by congruence.
  - rewrite getTransaction_eq, Hselect. cbn [fst]. unfold transaction_rows.
    cbn [transactions set_transactions set_trace]. f_equal.
    apply (upsert_first_row Transaction.hash _ transactions_do_update_excluded).
  - intros hash Hne. rewrite !getTransaction_eq, Hselect. cbn [fst].
    unfold transaction_rows. cbn [transactions set_transactions set_trace].
    now rewrite upsert_transaction_other by congruence.
Qed.

Lemma insert_then_get_witness :
  let w := node 10 empty_chain every_receipt in
  let s := caught_up_at_10 in
  let block := prepare_block 5 (a_block [a_transfer]) in
  let transaction :=
    prepare_transaction 5 (a_block [a_transfer]) a_transfer a_receipt
                        (toISOString w) in
  let sb := snd (DatabaseService.insertBlock block w s) in
  let st := snd (DatabaseService.insertTransaction transaction w s) in
  fst (DatabaseService.getBlock (Block.number block) w sb) = Done (Some block)
  /\ (forall number, number <> Block.number block ->
        fst (DatabaseService.getBlock number w sb)
        = fst (DatabaseService.getBlock number w s))
  /\ fst (DatabaseService.getTransaction (Transaction.hash transaction) w st)
     = Done (Some transaction)
  /\ (forall hash, hash <> Transaction.hash transaction ->
        fst (DatabaseService.getTransaction hash w st)
        = fst (DatabaseService.getTransaction hash w s)).
Proof.
  apply (insert_then_get
           (node 10 empty_chain every_receipt)
           (node 10 empty_chain every_receipt) caught_up_at_10
           (prepare_block 5 (a_block [a_transfer]))
           (prepare_transaction 5 (a_block [a_transfer]) a_transfer a_receipt
              (toISOString (node 10 empty_chain every_receipt))));
    reflexivity.
Defined.

(** X4.  A write that the server rejects is thrown to the caller with the
    error of the server, and no table has changed. *)
Theorem rejected_write_changes_nothing w s block transaction address
    interfaceType e :
  (pg_insert_block w block = Rejected e ->
   exists s', DatabaseService.insertBlock block w s = (Thrown e, s')
              /\ tables s' = tables s)
  /\ (pg_insert_transaction w transaction = Rejected e ->
      exists s', DatabaseService.insertTransaction transaction w s
                 = (Thrown e, s')
                 /\ tables s' = tables s)
  /\ (pg_insert_contract_interface w (toLowerCase address) interfaceType
      = Rejected e ->
      exists s', DatabaseService.insertContractInterface address
                   interfaceType w s = (Thrown e, s')
                 /\ tables s' = tables s).
Proof.
  split3; intros Hrejected.
  - rewrite insertBlock_eq, Hrejected. now eexists.
  - rewrite insertTransaction_eq, Hrejected. now eexists.
  - rewrite insertContractInterface_eq, Hrejected. now eexists.
Qed.

Lemma rejected_write_changes_nothing_witness :
  let w := node_rejecting_transactions 2 chain_0_1_0 every_receipt in
  let s := constructor [] [] [] in
  let block := prepare_block 1 (a_block [a_transfer]) in
  let transaction :=
    prepare_transaction 1 (a_block [a_transfer]) a_transfer a_receipt
                        (toISOString w) in
  (pg_insert_block w block = Rejected PgError ->
   exists s', DatabaseService.insertBlock block w s = (Thrown PgError, s')
              /\ tables s' = tables s)
  /\ (pg_insert_transaction w transaction = Rejected PgError ->
      exists s', DatabaseService.insertTransaction transaction w s
                 = (Thrown PgError, s')
                 /\ tables s' = tables s)
  /\ (pg_insert_contract_interface w (toLowerCase "0xAB") "ERC20"
      = Rejected PgError ->
      exists s', DatabaseService.insertContractInterface "0xAB" "ERC20" w s
                 = (Thrown PgError, s')
                 /\ tables s' = tables s).
Proof.
  exact (rejected_write_changes_nothing
           (node_rejecting_transactions 2 chain_0_1_0 every_receipt)
           (constructor [] [] [])
           (prepare_block 1 (a_block [a_transfer]))
           (prepare_transaction 1 (a_block [a_transfer]) a_transfer a_receipt
              (toISOString
                 (node_rejecting_transactions 2 chain_0_1_0 every_receipt)))
           "0xAB" "ERC20" PgError).
Defined.

Lemma upsert_transaction_keys t rows :
  map Transaction.hash (upsert_transaction t rows)
  = if bool_decide (Transaction.hash t ∈ map Transaction.hash rows)
    then map Transaction.hash rows
    else map Transaction.hash rows ++ [Transaction.hash t].
Proof. apply (upsert_keys Transaction.hash _ transactions_do_update_key). Qed.

Lemma upsert_block_keys b rows :
  map Block.number (upsert_block b rows)
  = if bool_decide (Block.number b ∈ map Block.number rows)
    then map Block.number rows
    else map Block.number rows ++ [Block.number b].
Proof. apply (upsert_keys Block.number _ blocks_do_update_key). Qed.

(** X5.  An accepted [insertTransaction] makes [getTotalTransactions] grow
    by one when the hash was not stored, and leaves it as it was when the
    hash was stored. *)
Theorem insertTransaction_counts_hashes w w' s transaction :
  pg_insert_transaction w transaction = Ok tt ->
  pg_select w' = Ok tt ->
  exists before,
    fst (DatabaseService.getTotalTransactions w' s) = Done before
    /\ fst (DatabaseService.getTotalTransactions w'
              (snd (DatabaseService.insertTransaction transaction w s)))
       = Done (if bool_decide (Transaction.hash transaction
                               ∈ map Transaction.hash (transactions s))
               then before else before + 1).
Proof.
  intros Haccepted Hselect.
  rewrite insertTransaction_eq, Haccepted, !getTotalTransactions_eq, Hselect.
  cbn [fst snd transactions set_transactions set_trace].
  eexists. split; [reflexivity|]. f_equal.
  pose proof (upsert_transaction_keys transaction (transactions s)) as Hkeys.
  apply (f_equal length) in Hkeys. rewrite length_map in Hkeys.
  rewrite Hkeys.
  destruct (bool_decide _); rewrite ?length_app, length_map; cbn; lia.
Qed.

Lemma insertTransaction_counts_hashes_witness :
  let w := node 10 empty_chain every_receipt in
  let transaction :=
    prepare_transaction 5 (a_block [a_transfer]) a_transfer a_receipt
                        (toISOString w) in
  exists before,
    fst (DatabaseService.getTotalTransactions w caught_up_at_10) = Done before
    /\ fst (DatabaseService.getTotalTransactions w
              (snd (DatabaseService.insertTransaction transaction w
                      caught_up_at_10)))
       = Done (if bool_decide (Transaction.hash transaction
                               ∈ map Transaction.hash
                                     (transactions caught_up_at_10))
               then before else before + 1).
Proof.
  apply (insertTransaction_counts_hashes
           (node 10 empty_chain every_receipt)
           (node 10 empty_chain every_receipt) caught_up_at_10
           (prepare_transaction 5 (a_block [a_transfer]) a_transfer a_receipt
              (toISOString (node 10 empty_chain every_receipt))));
    reflexivity.
Defined.

(** ** The indexer: errors of [start], [stop] and [processBlock] *)

(** X6.  [start] throws in one case only: the pipeline does not run and
    the network check of the node fails.  The error is then the
    "Not connected" error, nothing but the check has been done, and the
    pipeline still does not run. *)
Theorem start_throws_iff_unreachable w s fuel e s' :
  start fuel w s = (Thrown e, s')
  <-> isRunning s = false
      /\ is_ok (rpc_getNetwork w) = false
      /\ e = NotConnected
      /\ s' = set_trace (trace s ++ [EvGetNetwork]) s.
Proof.
  unfold isRunning. rewrite start_eq. split.
  - destruct (isIndexing s); [discriminate|]. cbn zeta.
    destruct (rpc_getNetwork w) as [[]|e0].
    + intros (Hthrow & _)%processHistoricalBlocks_frame.
      now destruct (Hthrow e).
    + now intros [= <- <-].
  - intros (-> & Hnet & -> & ->). cbn zeta.
    now destruct (rpc_getNetwork w).
Qed.

(** X7.  [stop] always returns; afterwards the pipeline does not run, the
    tables and the watermark are what they were, and a second [stop]
    changes nothing at all; on a pipeline that does not run the first
    [stop] changes nothing either. *)
Theorem stop_is_idempotent w w' s :
  let s1 := snd (stop w s) in
  fst (stop w s) = Done tt
  /\ isRunning s1 = false
  /\ tables s1 = tables s
  /\ getLastProcessedBlock s1 = getLastProcessedBlock s
  /\ stop w' s1 = (Done tt, s1)
  /\ (isRunning s = false -> s1 = s)
  /\ (isRunning s = true ->
      trace s1 = trace s ++ [EvProviderOff handleNewBlock_bound]).
Proof.
  unfold isRunning, getLastProcessedBlock. cbn zeta. rewrite (stop_eq w s).
  destruct (isIndexing s) eqn:Hrunning; cbn [fst snd]; rewrite stop_eq.
  - cbn. repeat split; discriminate.
  - rewrite Hrunning. repeat split; (assumption || discriminate).
Qed.

(** X8.  A pass whose block the node does not give (a rejection, or
    [null] for a block it does not have) throws after the fetch alone; a
    pass whose block row the store rejects throws after the fetch and the
    rejected write alone.  In both cases no receipt is asked for, no table
    has changed and the watermark is what it was. *)
Theorem processBlock_fails_before_transactions w s n :
  (forall e, rpc_getBlockWithTransactions w n = Rejected e ->
     processBlock n w s
     = (Thrown e, set_trace (trace s ++ [EvGetBlockWithTransactions n]) s))
  /\ (rpc_getBlockWithTransactions w n = Ok None ->
      processBlock n w s
      = (Thrown TypeError,
         set_trace (trace s ++ [EvGetBlockWithTransactions n]) s))
  /\ (forall bwt e,
        rpc_getBlockWithTransactions w n = Ok (Some bwt) ->
        pg_insert_block w (prepare_block n bwt) = Rejected e ->
        processBlock n w s
        = (Thrown e,
           set_trace (trace s ++ [EvGetBlockWithTransactions n;
                                  EvInsertBlock (prepare_block n bwt)]) s)).
Proof.
  split3.
  - intros e Hblock. now rewrite processBlock_eq, Hblock.
  - intros Hblock. now rewrite processBlock_eq, Hblock.
  - intros bwt e Hblock Hinsert. rewrite processBlock_eq, Hblock. cbn zeta.
    rewrite insertBlock_eq, Hinsert. cbn [trace set_trace].
    now rewrite <- app_assoc.
Qed.

Lemma processBlock_fails_before_transactions_witness :
  let w := node 1 chain_0_1_0 no_receipt in
  let s := constructor [] [] [] in
  (forall e, rpc_getBlockWithTransactions w 7 = Rejected e ->
     processBlock 7 w s
     = (Thrown e, set_trace (trace s ++ [EvGetBlockWithTransactions 7]) s))
  /\ (rpc_getBlockWithTransactions w 7 = Ok None ->
      processBlock 7 w s
      = (Thrown TypeError,
         set_trace (trace s ++ [EvGetBlockWithTransactions 7]) s))
  /\ (forall bwt e,
        rpc_getBlockWithTransactions w 7 = Ok (Some bwt) ->
        pg_insert_block w (prepare_block 7 bwt) = Rejected e ->
        processBlock 7 w s
        = (Thrown e,
           set_trace (trace s ++ [EvGetBlockWithTransactions 7;
                                  EvInsertBlock (prepare_block 7 bwt)]) s)).
Proof.
  exact (processBlock_fails_before_transactions
           (node 1 chain_0_1_0 no_receipt) (constructor [] [] []) 7).
Defined.

(** ** The indexer: the backfill loop *)

Lemma pass_goes_through_block w n :
  pass_goes_through w n = true ->
  exists bwt,
    rpc_getBlockWithTransactions w n = Ok (Some bwt)
    /\ is_ok (pg_insert_block w (prepare_block n bwt)) = true.
Proof.
  unfold pass_goes_through.
  destruct (rpc_getBlockWithTransactions w n) as [[bwt|]|e];
    try discriminate.
  intros [Hinsert _]%andb_prop. now exists bwt.
Qed.

Lemma handleNewBlock_running b w s :
  isIndexing s = true ->
  exists s' evs,
    handleNewBlock b w s = (Done tt, s')
    /\ isIndexing s' = true
    /\ trace s' = trace s ++ evs
    /\ fetched_blocks evs = [b]
    /\ lastProcessedBlock s'
       = (if pass_goes_through w b then b else lastProcessedBlock s)
    /\ (forall m, m <> b -> block_rows m s' = block_rows m s).
Proof.
  intros Hrunning. rewrite handleNewBlock_eq, Hrunning.
  destruct (processBlock b w s) as [r s'] eqn:Hrun.
  pose proof (processBlock_frame _ _ _ _ _ Hrun)
    as (Hidx & (evs & Htr & Hfetched & _) & Hrows & _).
  apply processBlock_watermark in Hrun
    as [(-> & -> & Hlast)|([e ->] & -> & Hlast)];
    exists s', evs; (split; [reflexivity|]); (split; [congruence|]);
    (split; [assumption|]); (split; [assumption|]); now split.
Qed.

(** The loop with no notification is the loop of the source run alone. *)
Lemma processHistoricalBlocks_among_none fuel w s :
  processHistoricalBlocks_among (replicate fuel []) w s
  = processHistoricalBlocks fuel w s.
Proof.
  revert s. induction fuel as [|fuel IH]; intros s; [reflexivity|].
  cbn [replicate processHistoricalBlocks_among processHistoricalBlocks for_of].
  unfold bind, gets, ret. destruct (isIndexing s); [|reflexivity].
  destruct (historical_step w s) as [[[]|e|] s1]; try reflexivity.
  apply IH.
Qed.

(** One notification handled before a turn. *)
Lemma processHistoricalBlocks_among_notified b blockNumbers later w s :
  isIndexing s = true ->
  processHistoricalBlocks_among ((b :: blockNumbers) :: later) w s
  = processHistoricalBlocks_among (blockNumbers :: later) w
      (snd (handleNewBlock b w s)).
Proof.
  intros Hrunning.
  destruct (handleNewBlock_running b w s Hrunning)
    as (s1 & evs & Hrun & Hidx & _).
  cbn [processHistoricalBlocks_among for_of].
  unfold bind, gets. rewrite Hrunning, Hrun. cbn [snd]. now rewrite Hidx.
Qed.

(** A turn with no notification before it. *)
Lemma processHistoricalBlocks_among_turn later w s :
  isIndexing s = true ->
  processHistoricalBlocks_among ([] :: later) w s
  = match historical_step w s with
    | (Done true, s1) => (Done tt, s1)
    | (Done false, s1) => processHistoricalBlocks_among later w s1
    | (Thrown e, s1) => (Thrown e, s1)
    | (OutOfFuel, s1) => (OutOfFuel, s1)
    end.
Proof.
  intros Hrunning. cbn [processHistoricalBlocks_among for_of].
  unfold bind, gets, ret. rewrite Hrunning.
  destruct (historical_step w s) as [[[]|e|] s1]; reflexivity.
Qed.


(** A turn of the backfill loop at or above the height of the node. *)
Lemma historical_step_caught_up w s latest :
  rpc_getBlockNumber w = Ok latest ->
  latest <= lastProcessedBlock s ->
  historical_step w s
  = (Done true, set_trace (trace s ++ [EvGetBlockNumber]) s).
Proof.
  intros Hlatest Hle. rewrite historical_step_eq, Hlatest. cbn zeta.
  destruct (lastProcessedBlock s + 1 >? latest) eqn:Hgt; [reflexivity|lia].
Qed.


(** The turn that finds the loop at the height of the node leaves it. *)
Lemma backfill_leaves w height s later :
  isIndexing s = true ->
  rpc_getBlockNumber w = Ok height ->
  height <= lastProcessedBlock s ->
  processHistoricalBlocks_among ([] :: later) w s
  = (Done tt, set_trace (trace s ++ [EvGetBlockNumber]) s).
Proof.
  intros Hrunning Hheight Hle.
  rewrite processHistoricalBlocks_among_turn by assumption.
  now rewrite (historical_step_caught_up w s height).
Qed.

(** [j] turns without a notification on a block whose pass fails. *)
Lemma backfill_stuck w height : forall j s later,
  isIndexing s = true ->
  rpc_getBlockNumber w = Ok height ->
  lastProcessedBlock s + 1 <= height ->
  pass_goes_through w (lastProcessedBlock s + 1) = false ->
  exists s1 evs,
    processHistoricalBlocks_among (replicate j [] ++ later) w s
    = processHistoricalBlocks_among later w s1
    /\ isIndexing s1 = true
    /\ lastProcessedBlock s1 = lastProcessedBlock s
    /\ trace s1 = trace s ++ evs
    /\ fetched_blocks evs = replicate j (lastProcessedBlock s + 1)
    /\ waits evs = replicate j 5000.
Proof.
  induction j as [|j IH]; intros s later Hrunning Hheight Hle Hfails.
  - exists s, []. cbn [replicate app]. rewrite app_nil_r. now repeat split.
  - cbn [replicate app]. rewrite processHistoricalBlocks_among_turn by assumption.
    destruct (historical_step_failing_pass w s height Hheight Hle Hfails)
      as (s1 & evs1 & -> & Htr1 & Hfetched1 & _ & Hwaits1 & Hidx1 & Hlast1 & _).
    destruct (IH s1 later) as (s2 & evs2 & Hloop & Hidx2 & Hlast2 & Htr2
                               & Hfetched2 & Hwaits2);
      [congruence | assumption | now rewrite Hlast1.. |].
    exists s2, (evs1 ++ evs2).
    split; [exact Hloop|]. split; [assumption|]. split; [congruence|].
    split; [now rewrite Htr2, Htr1, app_assoc|].
    split.
    + now rewrite fetched_blocks_app, Hfetched1, Hfetched2, Hlast1.
    + now rewrite waits_app, Hwaits1, Hwaits2.
Qed.





(** The loop among notifications, run on the code: with the watermark at
    10 and the node at height 15, the loop alone fetches 11 to 15; when the
    notification of block 15 is handled after the first turn, the loop has
    fetched 11 and is left at once, and blocks 12 to 14 are not in the
    store. *)
Example backfill_among_notifications :
  let w := node 15 empty_chain every_receipt in
  let alone :=
    snd (processHistoricalBlocks_among [[]; []; []; []; []; []] w
           caught_up_at_10) in
  let notified :=
    processHistoricalBlocks_among [[]; [15]; []] w caught_up_at_10 in
  fetched_blocks (drop (length (trace caught_up_at_10)) (trace alone))
  = [11; 12; 13; 14; 15]
  /\ fst notified = Done tt
  /\ fetched_blocks (drop (length (trace caught_up_at_10))
                          (trace (snd notified)))
     = [11; 15]
  /\ getLastProcessedBlock (snd notified) = 15
  /\ map Block.number (blocks (snd notified))
     = [1; 2; 3; 4; 5; 6; 7; 8; 9; 10; 11; 15].
Proof. vm_compute. repeat split. Qed.

(** X10.  While the node rejects the height query, the running backfill
    loop never returns: every turn asks for the height and waits five
    seconds, and neither the tables nor the watermark change. *)
Theorem backfill_waits_for_the_node w s e fuel :
  isRunning s = true ->
  rpc_getBlockNumber w = Rejected e ->
  exists s',
    processHistoricalBlocks fuel w s = (OutOfFuel, s')
    /\ tables s' = tables s
    /\ getLastProcessedBlock s' = getLastProcessedBlock s
    /\ trace s'
       = trace s ++ concat (replicate fuel [EvGetBlockNumber; EvSetTimeout 5000]).
Proof.
  unfold isRunning, getLastProcessedBlock. intros Hrunning Hheight.
  revert s Hrunning. induction fuel as [|fuel IH]; intros s Hrunning;
    cbn [processHistoricalBlocks]; unfold bind at 1, gets; rewrite Hrunning.
  - exists s. cbn. now rewrite app_nil_r.
  - unfold bind at 1. rewrite historical_step_eq, Hheight. cbv beta iota zeta.
    match goal with |- context [processHistoricalBlocks fuel w ?s1] =>
      destruct (IH s1) as (s' & Hloop & Htables & Hlast & Htr);
        [exact Hrunning|]
    end.
    exists s'. split; [exact Hloop|]. split; [exact Htables|].
    split; [exact Hlast|]. rewrite Htr. cbn [trace set_trace replicate concat].
    now rewrite <- !app_assoc.
Qed.

Lemma backfill_waits_for_the_node_witness :
  let w :=
    {| rpc_getNetwork := Ok tt;
       rpc_getBlockNumber := Rejected RpcError;
       rpc_getBlockWithTransactions := fun n => Ok (empty_chain n);
       rpc_getTransactionReceipt := fun h => Ok (every_receipt h);
       pg_select := Ok tt;
       pg_insert_block := fun _ => Ok tt;
       pg_insert_transaction := fun _ => Ok tt;
       pg_insert_contract_interface := fun _ _ => Ok tt;
       now := 1700000600000;
       toISOString := fun _ => "2023-11-14T22:13:20.000Z" |} in
  exists s',
    processHistoricalBlocks 4 w caught_up_at_10 = (OutOfFuel, s')
    /\ tables s' = tables caught_up_at_10
    /\ getLastProcessedBlock s' = getLastProcessedBlock caught_up_at_10
    /\ trace s'
       = trace caught_up_at_10
         ++ concat (replicate 4 [EvGetBlockNumber; EvSetTimeout 5000]).
Proof.
  apply (backfill_waits_for_the_node _ caught_up_at_10 RpcError 4).
  - vm_compute. reflexivity.
  - reflexivity.
Defined.

(** X11.  While the pass of the block after the watermark fails and no
    notification is handled, the running backfill loop never returns and
    never goes past that block: every turn fetches that same block again
    and no other, then waits five seconds, and the watermark stays.  The
    loop leaves the failing block behind as soon as the handler of live
    notifications moves the watermark: when, after [j] such turns, the
    notification of a block at or above the height of the node is handled
    and its pass goes through, the watermark is that block and the next
    turn leaves the loop. *)
Theorem backfill_retries_the_failing_block w s height :
  isRunning s = true ->
  rpc_getBlockNumber w = Ok height ->
  getLastProcessedBlock s + 1 <= height ->
  pass_goes_through w (getLastProcessedBlock s + 1) = false ->
  (forall fuel,
     exists s' evs,
       processHistoricalBlocks_among (replicate fuel []) w s = (OutOfFuel, s')
       /\ processHistoricalBlocks fuel w s = (OutOfFuel, s')
       /\ getLastProcessedBlock s' = getLastProcessedBlock s
       /\ trace s' = trace s ++ evs
       /\ fetched_blocks evs = replicate fuel (getLastProcessedBlock s + 1)
       /\ waits evs = replicate fuel 5000)
  /\ (forall j b,
        height <= b ->
        pass_goes_through w b = true ->
        exists s' evs,
          processHistoricalBlocks_among (replicate j [] ++ [[b]]) w s
          = (Done tt, s')
          /\ getLastProcessedBlock s' = b
          /\ trace s' = trace s ++ evs
          /\ fetched_blocks evs
             = replicate j (getLastProcessedBlock s + 1) ++ [b]).
Proof.
  unfold isRunning, getLastProcessedBlock.
  intros Hrunning Hheight Hle Hfails. split.
  - intros fuel. rewrite <- processHistoricalBlocks_among_none.
    rewrite <- (app_nil_r (replicate fuel [])).
    destruct (backfill_stuck w height fuel s [])
      as (s1 & evs1 & -> & Hidx1 & Hlast1 & Htr1 & Hfetched1 & Hwaits1);
      try assumption.
    exists s1, evs1. cbn [processHistoricalBlocks_among].
    unfold bind, gets. rewrite Hidx1. now repeat split.
  - intros j b Hb Hpass.
    destruct (backfill_stuck w height j s [[b]])
      as (s1 & evs1 & -> & Hidx1 & Hlast1 & Htr1 & Hfetched1 & _);
      try assumption.
    rewrite processHistoricalBlocks_among_notified by assumption.
    destruct (handleNewBlock_running b w s1 Hidx1)
      as (s2 & evs2 & -> & Hidx2 & Htr2 & Hfetched2 & Hlast2 & _).
    cbn [snd]. rewrite Hpass in Hlast2.
    rewrite (backfill_leaves w height) by (assumption || lia).
    eexists _, (evs1 ++ evs2 ++ [EvGetBlockNumber]).
    split; [reflexivity|].
    cbn [isIndexing lastProcessedBlock trace set_trace].
    split; [assumption|].
    split; [now rewrite Htr2, Htr1, <- !app_assoc|].
    rewrite !fetched_blocks_app, Hfetched1, Hfetched2. reflexivity.
Qed.

Lemma backfill_retries_the_failing_block_witness :
  let w := node_rejecting_transactions 2 chain_0_1_0 every_receipt in
  let s := snd (start 0 w (constructor [] [] [])) in
  (forall fuel,
     exists s' evs,
       processHistoricalBlocks_among (replicate fuel []) w s = (OutOfFuel, s')
       /\ processHistoricalBlocks fuel w s = (OutOfFuel, s')
       /\ getLastProcessedBlock s' = getLastProcessedBlock s
       /\ trace s' = trace s ++ evs
       /\ fetched_blocks evs = replicate fuel (getLastProcessedBlock s + 1)
       /\ waits evs = replicate fuel 5000)
  /\ (forall j b,
        2 <= b ->
        pass_goes_through w b = true ->
        exists s' evs,
          processHistoricalBlocks_among (replicate j [] ++ [[b]]) w s
          = (Done tt, s')
          /\ getLastProcessedBlock s' = b
          /\ trace s' = trace s ++ evs
          /\ fetched_blocks evs
             = replicate j (getLastProcessedBlock s + 1) ++ [b]).
Proof.
  apply (backfill_retries_the_failing_block
           (node_rejecting_transactions 2 chain_0_1_0 every_receipt)
           (snd (start 0 (node_rejecting_transactions 2 chain_0_1_0 every_receipt)
                   (constructor [] [] []))) 2).
  - vm_compute. reflexivity.
  - reflexivity.
  - vm_compute. discriminate.
  - vm_compute. reflexivity.
Defined.

(** On the code: block 1 fails three times, then the notification of block
    2 is handled and the loop is left with the watermark at 2; the
    transaction of block 1 is not in the store. *)
Example backfill_leaves_the_failing_block :
  let w := node_rejecting_transactions 2 chain_0_1_0 every_receipt in
  let s := snd (start 0 w (constructor [] [] [])) in
  let run := processHistoricalBlocks_among [[]; []; []; [2]] w s in
  fst run = Done tt
  /\ fetched_blocks (trace (snd run)) = [1; 1; 1; 2]
  /\ waits (trace (snd run)) = [5000; 5000; 5000]
  /\ getLastProcessedBlock (snd run) = 2
  /\ transactions (snd run) = [].
Proof. vm_compute. repeat split. Qed.

(** ** The indexer: what a pass leaves in the store *)

Lemma transaction_loop_untouched n bwt txs w s r s' h :
  for_of txs (process_transaction n bwt) w s = (r, s') ->
  h ∉ map TransactionResponse.hash txs ->
  transaction_rows h s' = transaction_rows h s.
Proof.
  revert s. induction txs as [|tx rest IH]; intros s Hrun Hnotin;
    cbn [for_of map] in *.
  - now injection Hrun as _ <-.
  - apply not_elem_of_cons in Hnotin as [Hne Hnotin].
    unfold bind at 1 in Hrun. rewrite process_transaction_eq in Hrun.
    cbn zeta in Hrun.
    destruct (rpc_getTransactionReceipt w (TransactionResponse.hash tx))
      as [[receipt|]|e].
    + rewrite insertTransaction_eq in Hrun.
      destruct (pg_insert_transaction w _) as [[]|e].
      * rewrite (IH _ Hrun Hnotin). unfold transaction_rows.
        cbn [transactions set_transactions set_trace].
        apply upsert_transaction_other. cbn. congruence.
      * now injection Hrun as _ <-.
    + now rewrite (IH _ Hrun Hnotin).
    + now injection Hrun as _ <-.
Qed.

Lemma transaction_loop_stores n bwt txs w s s' :
  for_of txs (process_transaction n bwt) w s = (Done tt, s') ->
  NoDup (map TransactionResponse.hash txs) ->
  forall tx receipt,
    tx ∈ txs ->
    rpc_getTransactionReceipt w (TransactionResponse.hash tx)
    = Ok (Some receipt) ->
    head (transaction_rows (TransactionResponse.hash tx) s')
    = Some (prepare_transaction n bwt tx receipt (toISOString w)).
Proof.
  revert s. induction txs as [|tx0 rest IH]; intros s Hrun Hnodup tx receipt
    Hin Hreceipt; cbn [for_of map] in *.
  - now apply elem_of_nil in Hin.
  - apply NoDup_cons in Hnodup as [Hfresh Hnodup].
    unfold bind at 1 in Hrun. rewrite process_transaction_eq in Hrun.
    cbn zeta in Hrun.
    apply elem_of_cons in Hin as [->|Hin].
    + rewrite Hreceipt, insertTransaction_eq in Hrun.
      destruct (pg_insert_transaction w _) as [[]|e]; [|discriminate].
      rewrite (transaction_loop_untouched _ _ _ _ _ _ _ _ Hrun Hfresh).
      unfold transaction_rows. cbn [transactions set_transactions set_trace].
      apply (upsert_first_row Transaction.hash _
               transactions_do_update_excluded
               (prepare_transaction n bwt tx0 receipt (toISOString w))).
    + destruct (rpc_getTransactionReceipt w (TransactionResponse.hash tx0))
        as [[receipt0|]|e]; [| |discriminate].
      * rewrite insertTransaction_eq in Hrun.
        destruct (pg_insert_transaction w _) as [[]|e]; [|discriminate].
        now apply (IH _ Hrun).
      * now apply (IH _ Hrun).
Qed.

(** X12.  After a pass in which every fetch and write went through, over
    a block whose transactions have distinct hashes, the store returns
    under the number of the block the row prepared from the block, and
    under the hash of each transaction whose receipt was there the row
    prepared from the transaction and its receipt; the lookup of a
    transaction whose receipt was absent returns what it did before. *)
Theorem processBlock_stores_what_it_prepared w w' s n bwt :
  rpc_getBlockWithTransactions w n = Ok (Some bwt) ->
  pass_goes_through w n = true ->
  NoDup (map TransactionResponse.hash (BlockWithTransactions.transactions bwt)) ->
  pg_select w' = Ok tt ->
  let s' := snd (processBlock n w s) in
  fst (DatabaseService.getBlock n w' s') = Done (Some (prepare_block n bwt))
  /\ (forall tx receipt,
        tx ∈ BlockWithTransactions.transactions bwt ->
        rpc_getTransactionReceipt w (TransactionResponse.hash tx)
        = Ok (Some receipt) ->
        fst (DatabaseService.getTransaction (TransactionResponse.hash tx) w' s')
        = Done (Some (prepare_transaction n bwt tx receipt (toISOString w))))
  /\ (forall tx,
        tx ∈ BlockWithTransactions.transactions bwt ->
        rpc_getTransactionReceipt w (TransactionResponse.hash tx) = Ok None ->
        fst (DatabaseService.getTransaction (TransactionResponse.hash tx) w' s')
        = fst (DatabaseService.getTransaction (TransactionResponse.hash tx) w' s)).
Proof.
  intros Hblock Hpass Hnodup Hselect s'. subst s'.
  destruct (processBlock n w s) as [r s'] eqn:Hrun. cbn [snd].
  destruct (pass_goes_through_block _ _ Hpass) as (bwt' & Hblock' & Hinsert).
  assert (bwt' = bwt) as -> by congruence.
  pose proof (processBlock_stores_block _ _ _ _ _ _ Hblock Hinsert Hrun)
    as (Hrow & _).
  pose proof (processBlock_frame _ _ _ _ _ Hrun) as (_ & _ & _ & Habsent).
  assert (Hall : forallb (transaction_goes_through w n bwt)
                         (BlockWithTransactions.transactions bwt) = true).
  { unfold pass_goes_through in Hpass. rewrite Hblock in Hpass.
    now apply andb_prop in Hpass as [_ ?]. }
  split3.
  - rewrite getBlock_eq, Hselect. cbn [fst]. now rewrite Hrow.
  - intros tx receipt Hin Hreceipt. rewrite getTransaction_eq, Hselect.
    cbn [fst]. f_equal.
    revert Hrun. rewrite processBlock_eq, Hblock. cbn zeta.
    rewrite insertBlock_eq.
    destruct (pg_insert_block w _) as [[]|e]; [|discriminate].
    destruct (for_of _ _ w _) as [r3 s3] eqn:Hloop.
    pose proof (transaction_loop_outcome _ _ _ _ _ _ _ Hloop)
      as [[-> _]|[_ Hfalse]]; [|congruence].
    intros [= <- <-].
    unfold transaction_rows. cbn [transactions set_lastProcessedBlock].
    now apply (transaction_loop_stores _ _ _ _ _ _ Hloop Hnodup).
  - intros tx Hin Hreceipt. rewrite !getTransaction_eq, Hselect. cbn [fst].
    rewrite Habsent; [reflexivity|]. intros receipt. congruence.
Qed.

Lemma processBlock_stores_what_it_prepared_witness :
  let w := node 2 chain_0_1_0 every_receipt in
  let s := constructor [] [] [] in
  let bwt := a_block [a_transfer] in
  let s' := snd (processBlock 1 w s) in
  fst (DatabaseService.getBlock 1 w s') = Done (Some (prepare_block 1 bwt))
  /\ (forall tx receipt,
        tx ∈ BlockWithTransactions.transactions bwt ->
        rpc_getTransactionReceipt w (TransactionResponse.hash tx)
        = Ok (Some receipt) ->
        fst (DatabaseService.getTransaction (TransactionResponse.hash tx) w s')
        = Done (Some (prepare_transaction 1 bwt tx receipt (toISOString w))))
  /\ (forall tx,
        tx ∈ BlockWithTransactions.transactions bwt ->
        rpc_getTransactionReceipt w (TransactionResponse.hash tx) = Ok None ->
        fst (DatabaseService.getTransaction (TransactionResponse.hash tx) w s')
        = fst (DatabaseService.getTransaction (TransactionResponse.hash tx) w s)).
Proof.
  apply (processBlock_stores_what_it_prepared
           (node 2 chain_0_1_0 every_receipt)
           (node 2 chain_0_1_0 every_receipt)
           (constructor [] [] []) 1 (a_block [a_transfer])).
  - reflexivity.
  - vm_compute. reflexivity.
  - apply (bool_decide_unpack _). vm_compute. exact I.
  - reflexivity.
Defined.

(** ** The indexer: restart *)

(** X13.  [start] on a reachable node enters the backfill loop running,
    with the tables untouched and the watermark at the highest block number
    stored (no stored number exceeds it), so that the first block
    backfilled is the one after it; but when the server rejects the read of
    the latest block, the watermark is 0 whatever the store holds. *)
Theorem start_resumes_after_highest_block w s :
  isRunning s = false ->
  rpc_getNetwork w = Ok tt ->
  let s0 := snd (start 0 w s) in
  isRunning s0 = true
  /\ tables s0 = tables s
  /\ (pg_select w = Ok tt ->
      (forall row, row ∈ blocks s ->
                   Block.number row <= getLastProcessedBlock s0)
      /\ (blocks s <> [] ->
          getLastProcessedBlock s0 ∈ map Block.number (blocks s)))
  /\ (is_ok (pg_select w) = false -> getLastProcessedBlock s0 = 0)
  /\ (forall fuel height,
        rpc_getBlockNumber w = Ok height ->
        getLastProcessedBlock s0 + 1 <= height ->
        exists evs rest,
          trace (snd (start (S fuel) w s)) = trace s ++ evs
          /\ fetched_blocks evs = (getLastProcessedBlock s0 + 1) :: rest).
Proof.
  unfold isRunning, getLastProcessedBlock. intros Hstopped Hnet. cbn zeta.
  rewrite (start_eq 0), Hstopped, Hnet. cbn zeta.
  cbn [processHistoricalBlocks]. unfold bind at 1, gets, out_of_fuel.
  cbn [snd isIndexing lastProcessedBlock set_trace set_newBlockCallback
       set_isIndexing set_lastProcessedBlock].
  split; [reflexivity|]. split; [reflexivity|]. split; [|split].
  - intros ->.
    pose proof (order_by_number_desc_limit_1_max (blocks s)) as Hmax.
    destruct (DatabaseService.order_by_number_desc_limit_1 (blocks s))
      as [best|]; cbn [option_map or_zero].
    + destruct Hmax as [Hin Hmax].
      assert (Hbest : (if decide (Block.number best = 0) then 0
                       else Block.number best) = Block.number best)
        by (destruct (decide _); congruence).
      rewrite Hbest. split; [exact Hmax|]. intros _.
      apply list_elem_of_In. apply (in_map Block.number).
      now apply list_elem_of_In.
    + rewrite Hmax. split; [|congruence].
      intros row Hrow. now apply elem_of_nil in Hrow.
  - now destruct (pg_select w).
  - intros fuel height Hheight Hle.
    rewrite start_eq, Hstopped, Hnet. cbn zeta.
    destruct (processHistoricalBlocks (S fuel) w _) as [r s'] eqn:Hloop.
    apply (processHistoricalBlocks_first_fetch _ _ _ height) in Hloop
      as (evs & rest & Htr & Hfetched); [|reflexivity|assumption|assumption].
    cbn [trace set_trace lastProcessedBlock set_newBlockCallback
         set_isIndexing set_lastProcessedBlock] in Htr, Hfetched.
    eexists _, rest. cbn [snd]. rewrite Htr, <- app_assoc.
    split; [reflexivity|]. rewrite fetched_blocks_app. exact Hfetched.
Qed.

Lemma start_resumes_after_highest_block_witness :
  let w := node 15 empty_chain every_receipt in
  let s := stopped_at_10 in
  let s0 := snd (start 0 w s) in
  isRunning s0 = true
  /\ tables s0 = tables s
  /\ (pg_select w = Ok tt ->
      (forall row, row ∈ blocks s ->
                   Block.number row <= getLastProcessedBlock s0)
      /\ (blocks s <> [] ->
          getLastProcessedBlock s0 ∈ map Block.number (blocks s)))
  /\ (is_ok (pg_select w) = false -> getLastProcessedBlock s0 = 0)
  /\ (forall fuel height,
        rpc_getBlockNumber w = Ok height ->
        getLastProcessedBlock s0 + 1 <= height ->
        exists evs rest,
          trace (snd (start (S fuel) w s)) = trace s ++ evs
          /\ fetched_blocks evs = (getLastProcessedBlock s0 + 1) :: rest).
Proof.
  apply (start_resumes_after_highest_block
           (node 15 empty_chain every_receipt) stopped_at_10).
  - vm_compute. reflexivity.
  - reflexivity.
Defined.

(** ** The indexer: what it keeps true of the store *)

Lemma upsert_transaction_elem t rows row :
  row ∈ upsert_transaction t rows -> row = t \/ row ∈ rows.
Proof.
  unfold upsert_transaction.
  induction rows as [|row0 rest IH]; cbn [DatabaseService.insert_on_conflict].
  - intros ->%list_elem_of_singleton. now left.
  - unfold DatabaseService.transactions_conflict at 1.
    case_bool_decide as Hkey.
    + rewrite (transactions_do_update_excluded _ _ Hkey).
      intros [->|Hin]%elem_of_cons; [now left|].
      right. now apply list_elem_of_further.
    + intros [->|Hin]%elem_of_cons; [right; apply list_elem_of_here|].
      destruct (IH Hin) as [->|Hin']; [now left|].
      right. now apply list_elem_of_further.
Qed.

Lemma upsert_block_keeps_numbers b rows n :
  n ∈ map Block.number rows \/ n = Block.number b ->
  n ∈ map Block.number (upsert_block b rows).
Proof.
  rewrite upsert_block_keys. case_bool_decide as Hin.
  - now intros [?| ->].
  - intros [?| ->]; apply elem_of_app; [now left|right].
    apply list_elem_of_here.
Qed.

Lemma transaction_loop_consistent n bwt txs w s r s' :
  for_of txs (process_transaction n bwt) w s = (r, s') ->
  n ∈ map Block.number (blocks s) ->
  store_consistent s -> store_consistent s'.
Proof.
  revert s. induction txs as [|tx rest IH]; intros s Hrun Hstored Hs;
    cbn [for_of] in Hrun.
  - now injection Hrun as _ <-.
  - unfold bind at 1 in Hrun. rewrite process_transaction_eq in Hrun.
    cbn zeta in Hrun.
    destruct (rpc_getTransactionReceipt w (TransactionResponse.hash tx))
      as [[receipt|]|e].
    + rewrite insertTransaction_eq in Hrun.
      destruct (pg_insert_transaction w _) as [[]|e].
      * apply IH in Hrun; [assumption | exact Hstored |].
        destruct Hs as (Hblocks & Htransactions & Hrefs).
        split3; cbn [blocks transactions set_transactions set_trace].
        -- assumption.
        -- now apply upsert_transaction_NoDup.
        -- intros t [->|Hin]%upsert_transaction_elem; [exact Hstored|].
           now apply Hrefs.
      * injection Hrun as _ <-. exact Hs.
    + apply IH in Hrun; assumption.
    + injection Hrun as _ <-. exact Hs.
Qed.

Lemma processBlock_consistent n w s r s' :
  processBlock n w s = (r, s') ->
  store_consistent s -> store_consistent s'.
Proof.
  rewrite processBlock_eq. cbn zeta. intros Hrun Hs.
  destruct (rpc_getBlockWithTransactions w n) as [[bwt|]|e];
    [|injection Hrun as _ <-; exact Hs..].
  rewrite insertBlock_eq in Hrun.
  destruct (pg_insert_block w _) as [[]|e];
    [|injection Hrun as _ <-; exact Hs].
  destruct (for_of _ _ w _) as [r3 s3] eqn:Hloop.
  apply transaction_loop_consistent in Hloop.
  - destruct r3 as [[]|e|]; injection Hrun as _ <-; exact Hloop.
  - cbn [blocks set_blocks set_trace].
    apply upsert_block_keeps_numbers. now right.
  - destruct Hs as (Hblocks & Htransactions & Hrefs).
    split3; cbn [blocks transactions set_blocks set_trace].
    + now apply upsert_block_NoDup.
    + assumption.
    + intros t Hin. apply upsert_block_keeps_numbers. left. now apply Hrefs.
Qed.

Lemma processHistoricalBlocks_consistent fuel w s r s' :
  processHistoricalBlocks fuel w s = (r, s') ->
  store_consistent s -> store_consistent s'.
Proof.
  revert s. induction fuel as [|fuel IH]; intros s;
    cbn [processHistoricalBlocks]; unfold bind at 1, gets;
    destruct (isIndexing s).
  - now intros [= _ <-].
  - now intros [= _ <-].
  - unfold bind at 1. rewrite historical_step_eq. cbn zeta.
    destruct (rpc_getBlockNumber w) as [height|e].
    + destruct (lastProcessedBlock s + 1 >? height).
      * now intros [= _ <-].
      * destruct (processBlock _ w _) as [r1 s1] eqn:Hrun. intros Hloop Hs.
        apply processBlock_consistent in Hrun; [|exact Hs].
        destruct r1 as [[]|e|].
        -- now apply IH in Hloop.
        -- now apply IH in Hloop.
        -- now injection Hloop as _ <-.
    + intros Hloop Hs. now apply IH in Hloop.
  - now intros [= _ <-].
Qed.

(** X14.  Whatever the node and the store answer, [start], [stop] and a
    live notification leave the store with one row per block number, one
    row per transaction hash, and a stored block for every transaction row,
    if it was so before. *)
Theorem store_stays_consistent w s fuel blockNumber :
  store_consistent s ->
  store_consistent (snd (start fuel w s))
  /\ store_consistent (snd (stop w s))
  /\ store_consistent (snd (handleNewBlock blockNumber w s)).
Proof.
  intros Hs. split3.
  - rewrite start_eq. destruct (isIndexing s); [exact Hs|]. cbn zeta.
    destruct (rpc_getNetwork w) as [[]|e]; [|exact Hs].
    destruct (processHistoricalBlocks fuel w _) as [r s'] eqn:Hloop.
    now apply processHistoricalBlocks_consistent in Hloop.
  - rewrite stop_eq. now destruct (isIndexing s).
  - rewrite handleNewBlock_eq. destruct (isIndexing s); [|exact Hs].
    destruct (processBlock blockNumber w s) as [r s'] eqn:Hrun.
    apply processBlock_consistent in Hrun; [|exact Hs].
    now destruct r.
Qed.

Lemma store_stays_consistent_witness :
  let w := node 15 empty_chain every_receipt in
  let s := constructor [] [] [] in
  store_consistent (snd (start 20 w s))
  /\ store_consistent (snd (stop w s))
  /\ store_consistent (snd (handleNewBlock 15 w s)).
Proof.
  apply (store_stays_consistent (node 15 empty_chain every_receipt)
                                (constructor [] [] []) 20 15).
  split3; cbn.
  - apply NoDup_nil_2.
  - apply NoDup_nil_2.
  - intros t Ht. now apply elem_of_nil in Ht.
Defined.

(** ** Interface tags *)

Lemma ascii_toLowerCase_idempotent c :
  ascii_toLowerCase (ascii_toLowerCase c) = ascii_toLowerCase c.
Proof. destruct c as [[] [] [] [] [] [] [] []]; reflexivity. Qed.

Lemma toLowerCase_idempotent s : toLowerCase (toLowerCase s) = toLowerCase s.
Proof.
  induction s as [|c s IH]; cbn; [reflexivity|].
  now rewrite ascii_toLowerCase_idempotent, IH.
Qed.

Lemma insert_on_conflict_ext {R} (c1 c2 : R -> R -> bool)
    (do_update : R -> R -> R) excluded rows :
  (forall row, c1 row excluded = c2 row excluded) ->
  DatabaseService.insert_on_conflict c1 do_update excluded rows
  = DatabaseService.insert_on_conflict c2 do_update excluded rows.
Proof.
  intros Hext. induction rows as [|row rest IH]; cbn; [reflexivity|].
  now rewrite Hext, IH.
Qed.

Lemma contract_interfaces_conflict_key row excluded :
  DatabaseService.contract_interfaces_conflict row excluded
  = bool_decide (interface_key row = interface_key excluded).
Proof.
  unfold DatabaseService.contract_interfaces_conflict, interface_key.
  destruct (decide (ContractInterface.address row
                    = ContractInterface.address excluded)) as [Ha|Ha],
           (decide (ContractInterface.interface_type row
                    = ContractInterface.interface_type excluded)) as [Ht|Ht];
    rewrite ?(bool_decide_eq_true_2 _ Ha), ?(bool_decide_eq_false_2 _ Ha),
            ?(bool_decide_eq_true_2 _ Ht), ?(bool_decide_eq_false_2 _ Ht);
    cbn [andb]; symmetry;
    (apply bool_decide_eq_true_2 || apply bool_decide_eq_false_2); congruence.
Qed.

Lemma upsert_interface_keys row rows :
  map interface_key
      (DatabaseService.insert_on_conflict
         DatabaseService.contract_interfaces_conflict
         DatabaseService.contract_interfaces_do_update row rows)
  = if bool_decide (interface_key row ∈ map interface_key rows)
    then map interface_key rows
    else map interface_key rows ++ [interface_key row].
Proof.
  rewrite (insert_on_conflict_ext _
             (fun row excluded =>
                bool_decide (interface_key row = interface_key excluded)))
    by (intros; apply contract_interfaces_conflict_key).
  now apply (upsert_keys interface_key).
Qed.

Lemma upsert_interface_first_row row rows :
  head (filter (fun row' => interface_key row' = interface_key row)
          (DatabaseService.insert_on_conflict
             DatabaseService.contract_interfaces_conflict
             DatabaseService.contract_interfaces_do_update row rows))
  = Some row.
Proof.
  rewrite (insert_on_conflict_ext _
             (fun row excluded =>
                bool_decide (interface_key row = interface_key excluded)))
    by (intros; apply contract_interfaces_conflict_key).
  apply (upsert_first_row interface_key).
  intros [a t d] [a' t' d']. unfold interface_key. cbn. now intros [= -> ->].
Qed.

Lemma interface_rows_types address s interfaceType :
  interfaceType
    ∈ map ContractInterface.interface_type (interface_rows address s)
  <-> (toLowerCase address, interfaceType)
        ∈ map interface_key (contract_interfaces s).
Proof.
  unfold interface_rows. rewrite !list_elem_of_In, !in_map_iff. split.
  - intros [row [<- Hin]].
    apply list_elem_of_In, list_elem_of_filter in Hin as [Ha Hin].
    exists row. split; [|now apply list_elem_of_In].
    unfold interface_key. now rewrite Ha.
  - intros [row [[= Ha Ht] Hin]]. exists row. split; [assumption|].
    apply list_elem_of_In, list_elem_of_filter. split; [assumption|].
    now apply list_elem_of_In.
Qed.

Lemma getContractInterfaces_eq address w s :
  DatabaseService.getContractInterfaces address w s
  = (Done (match pg_select w with
           | Ok _ => map ContractInterface.interface_type
                         (interface_rows address s)
           | Rejected _ => []
           end),
     set_trace (trace s ++ [EvSelectContractInterfaces (toLowerCase address)]) s).
Proof.
  unfold DatabaseService.getContractInterfaces. unfold_monad.
  destruct (pg_select w) as [[]|e]; reflexivity.
Qed.

(** X15.  Interface tags do not depend on the case of the address: writing
    a tag under an address and under its lower-case form are the same
    call, reading the tags of two addresses that differ in case only gives
    the same answer, and a tag written under one spelling is read under
    the other. *)
Theorem interface_tags_ignore_address_case w w' s address address'
    interfaceType :
  toLowerCase address' = toLowerCase address ->
  DatabaseService.insertContractInterface address' interfaceType w s
  = DatabaseService.insertContractInterface address interfaceType w s
  /\ DatabaseService.insertContractInterface (toLowerCase address)
       interfaceType w s
     = DatabaseService.insertContractInterface address interfaceType w s
  /\ DatabaseService.getContractInterfaces address' w' s
     = DatabaseService.getContractInterfaces address w' s
  /\ (pg_insert_contract_interface w (toLowerCase address) interfaceType
      = Ok tt ->
      pg_select w' = Ok tt ->
      exists tags,
        fst (DatabaseService.getContractInterfaces address' w'
               (snd (DatabaseService.insertContractInterface address
                       interfaceType w s)))
        = Done tags
        /\ interfaceType ∈ tags).
Proof.
  intros Hcase. split4.
  - now rewrite !insertContractInterface_eq, Hcase.
  - now rewrite !insertContractInterface_eq, toLowerCase_idempotent.
  - unfold DatabaseService.getContractInterfaces. now rewrite Hcase.
  - intros Haccepted Hselect.
    rewrite insertContractInterface_eq, Haccepted. cbn zeta. cbn [snd].
    rewrite getContractInterfaces_eq, Hselect. cbn [fst].
    eexists. split; [reflexivity|].
    apply interface_rows_types. rewrite Hcase.
    cbn [contract_interfaces set_contract_interfaces set_trace].
    rewrite upsert_interface_keys.
    case_bool_decide as Hin; [exact Hin|].
    apply elem_of_app. right. apply list_elem_of_here.
Qed.

Lemma interface_tags_ignore_address_case_witness :
  let w := node 10 empty_chain every_receipt in
  let s := constructor [] [] [] in
  DatabaseService.insertContractInterface "0xabcdef" "ERC20" w s
  = DatabaseService.insertContractInterface "0xABCdef" "ERC20" w s
  /\ DatabaseService.insertContractInterface (toLowerCase "0xABCdef")
       "ERC20" w s
     = DatabaseService.insertContractInterface "0xABCdef" "ERC20" w s
  /\ DatabaseService.getContractInterfaces "0xabcdef" w s
     = DatabaseService.getContractInterfaces "0xABCdef" w s
  /\ (pg_insert_contract_interface w (toLowerCase "0xABCdef") "ERC20"
      = Ok tt ->
      pg_select w = Ok tt ->
      exists tags,
        fst (DatabaseService.getContractInterfaces "0xabcdef" w
               (snd (DatabaseService.insertContractInterface "0xABCdef"
                       "ERC20" w s)))
        = Done tags
        /\ "ERC20" ∈ tags).
Proof.
  apply (interface_tags_ignore_address_case
           (node 10 empty_chain every_receipt)
           (node 10 empty_chain every_receipt)
           (constructor [] [] []) "0xABCdef" "0xabcdef" "ERC20").
  vm_compute. reflexivity.
Defined.

(** X16.  Writing a tag that is already stored for the contract adds no
    row: the keys of the table, in order, are what they were, and the row
    of the tag now carries the time of the second write. *)
Theorem insertContractInterface_refreshes_the_row w s address interfaceType :
  pg_insert_contract_interface w (toLowerCase address) interfaceType = Ok tt ->
  (toLowerCase address, interfaceType)
    ∈ map interface_key (contract_interfaces s) ->
  let s' := snd (DatabaseService.insertContractInterface address
                   interfaceType w s) in
  map interface_key (contract_interfaces s')
  = map interface_key (contract_interfaces s)
  /\ length (contract_interfaces s') = length (contract_interfaces s)
  /\ head (filter (fun row =>
                     interface_key row = (toLowerCase address, interfaceType))
                  (contract_interfaces s'))
     = Some (ContractInterface.mk (toLowerCase address) interfaceType (now w)).
Proof.
  intros Haccepted Hstored s'. subst s'.
  rewrite insertContractInterface_eq, Haccepted. cbn zeta.
  cbn [snd contract_interfaces set_contract_interfaces set_trace].
  assert (Hkeys :
    map interface_key
      (DatabaseService.insert_on_conflict
         DatabaseService.contract_interfaces_conflict
         DatabaseService.contract_interfaces_do_update
         (ContractInterface.mk (toLowerCase address) interfaceType (now w))
         (contract_interfaces s))
    = map interface_key (contract_interfaces s)).
  { rewrite upsert_interface_keys.
    now rewrite bool_decide_eq_true_2 by exact Hstored. }
  split3.
  - exact Hkeys.
  - apply (f_equal length) in Hkeys. now rewrite !length_map in Hkeys.
  - apply (upsert_interface_first_row
             (ContractInterface.mk (toLowerCase address) interfaceType (now w))).
Qed.

Lemma insertContractInterface_refreshes_the_row_witness :
  let w := node 10 empty_chain every_receipt in
  let s := snd (DatabaseService.insertContractInterface "0xAB" "ERC20"
                  (node 2 empty_chain every_receipt) (constructor [] [] [])) in
  let s' := snd (DatabaseService.insertContractInterface "0xAB" "ERC20" w s) in
  map interface_key (contract_interfaces s')
  = map interface_key (contract_interfaces s)
  /\ length (contract_interfaces s') = length (contract_interfaces s)
  /\ head (filter (fun row =>
                     interface_key row = (toLowerCase "0xAB", "ERC20"))
                  (contract_interfaces s'))
     = Some (ContractInterface.mk (toLowerCase "0xAB") "ERC20" (now w)).
Proof.
  apply (insertContractInterface_refreshes_the_row
           (node 10 empty_chain every_receipt)
           (snd (DatabaseService.insertContractInterface "0xAB" "ERC20"
                   (node 2 empty_chain every_receipt) (constructor [] [] [])))
           "0xAB" "ERC20").
  - reflexivity.
  - vm_compute. apply list_elem_of_here.
Defined.

Lemma upsert_interface_NoDup row rows :
  NoDup (map interface_key rows) ->
  NoDup (map interface_key
           (DatabaseService.insert_on_conflict
              DatabaseService.contract_interfaces_conflict
              DatabaseService.contract_interfaces_do_update row rows)).
Proof.
  rewrite (insert_on_conflict_ext _
             (fun row excluded =>
                bool_decide (interface_key row = interface_key excluded)))
    by (intros; apply contract_interfaces_conflict_key).
  now apply (upsert_NoDup interface_key).
Qed.

Section DetectLoopOnAnyStore.
Variables (w : World) (address : string) (functions : gset string).
Hypothesis store_accepts :
  forall a i, pg_insert_contract_interface w a i = Ok tt.

Let body : string * list string -> M unit :=
  fun '(interfaceType, requiredFunctions) =>
    if every_has requiredFunctions functions
    then DatabaseService.insertContractInterface address interfaceType
    else ret tt.

Let matching (standards : list (string * list string)) : list string :=
  map fst
    (filter (fun standard : string * list string =>
               (list_to_set (snd standard) : gset string) ⊆ functions)
            standards).

Lemma detect_loop_keys standards : forall s,
  exists s',
    for_of standards body w s = (Done tt, s')
    /\ blocks s' = blocks s
    /\ transactions s' = transactions s
    /\ (forall key,
          key ∈ map interface_key (contract_interfaces s')
          <-> key ∈ map interface_key (contract_interfaces s)
              \/ (key.1 = toLowerCase address /\ key.2 ∈ matching standards))
    /\ (NoDup (map interface_key (contract_interfaces s)) ->
        NoDup (map interface_key (contract_interfaces s')))
    /\ ((forall interfaceType,
           interfaceType ∈ matching standards ->
           (toLowerCase address, interfaceType)
             ∈ map interface_key (contract_interfaces s)) ->
        map interface_key (contract_interfaces s')
        = map interface_key (contract_interfaces s)).
Proof.
  subst body matching.
  induction standards as [|[interfaceType required] rest IH]; intros s;
    cbn [for_of].
  - exists s. cbn [filter map]. split; [reflexivity|].
    split; [reflexivity|]. split; [reflexivity|]. split; [|split; [auto|auto]].
    intros key. split; [now left|].
    intros [?|[_ Hin]]; [assumption | now apply elem_of_nil in Hin].
  - unfold bind at 1. destruct (every_has required functions) eqn:Hevery.
    + rewrite insertContractInterface_eq, store_accepts. cbn zeta.
      rewrite filter_cons_True by now apply every_has_subseteq.
      cbn [map fst].
      match goal with |- context [for_of rest _ w ?s1] =>
        destruct (IH s1) as (s' & Hrun & Hblocks & Htransactions & Hkeys
                             & Hnodup & Hsame)
      end.
      cbn [blocks transactions contract_interfaces set_contract_interfaces
           set_trace] in Hblocks, Htransactions, Hkeys, Hnodup, Hsame.
      exists s'. split; [exact Hrun|]. split; [exact Hblocks|].
      split; [exact Htransactions|]. split; [|split].
      * intros [a t]. rewrite Hkeys, upsert_interface_keys.
        change (interface_key
                  (ContractInterface.mk (toLowerCase address) interfaceType
                                        (now w)))
          with (toLowerCase address, interfaceType).
        cbn [fst snd]. rewrite (elem_of_cons _ t interfaceType).
        case_bool_decide as Hin.
        -- split.
           { intros [?|[-> ?]]; [now left|].
             right. split; [reflexivity | now right]. }
           intros [?|[-> [->|?]]]; [now left | now left | right; now split].
        -- rewrite elem_of_app, list_elem_of_singleton. split.
           ++ intros [[?|[= -> ->]]|[-> ?]]; [now left | | ].
              ** right. split; [reflexivity | now left].
              ** right. split; [reflexivity | now right].
           ++ intros [?|[-> [->|?]]];
                [now left; left | now left; right | right; now split].
      * intros Hs. now apply Hnodup, upsert_interface_NoDup.
      * intros Hstored. rewrite Hsame.
        -- rewrite upsert_interface_keys.
           rewrite bool_decide_eq_true_2; [reflexivity|].
           apply Hstored, list_elem_of_here.
        -- intros t Ht. rewrite upsert_interface_keys.
           assert ((toLowerCase address, t)
                     ∈ map interface_key (contract_interfaces s))
             by now apply Hstored, list_elem_of_further.
           case_bool_decide; [assumption|]. apply elem_of_app. now left.
    + unfold ret at 1.
      rewrite filter_cons_False.
      2:{ rewrite <- every_has_subseteq. cbn [snd]. congruence. }
      apply IH.
Qed.

End DetectLoopOnAnyStore.

(** X17.  On any store that accepts the writes, [detectAndStoreInterfaces]
    returns, leaves blocks and transactions alone, removes no tag of any
    contract, and adds for the contract exactly the standards its function
    names satisfy; the table keeps one row per contract and tag; and a
    second run, at any later time, leaves the keys of the table, in order,
    as the first run left them. *)
Theorem detectAndStoreInterfaces_only_adds_tags w w2 s address abi :
  (forall a i, pg_insert_contract_interface w a i = Ok tt) ->
  (forall a i, pg_insert_contract_interface w2 a i = Ok tt) ->
  exists s' s'',
    detectAndStoreInterfaces address abi w s = (Done tt, s')
    /\ detectAndStoreInterfaces address abi w2 s' = (Done tt, s'')
    /\ blocks s' = blocks s
    /\ transactions s' = transactions s
    /\ (forall a interfaceType,
          (a, interfaceType) ∈ map interface_key (contract_interfaces s')
          <-> (a, interfaceType) ∈ map interface_key (contract_interfaces s)
              \/ (a = toLowerCase address
                  /\ interfaceType ∈ classify (functions_of abi)))
    /\ (NoDup (map interface_key (contract_interfaces s)) ->
        NoDup (map interface_key (contract_interfaces s')))
    /\ map interface_key (contract_interfaces s'')
       = map interface_key (contract_interfaces s').
Proof.
  intros Haccepts Haccepts2. unfold detectAndStoreInterfaces. cbn zeta.
  destruct (detect_loop_keys w address (functions_of abi) Haccepts
              interfaceDetectors s)
    as (s' & Hrun & Hblocks & Htransactions & Hkeys & Hnodup & _).
  destruct (detect_loop_keys w2 address (functions_of abi) Haccepts2
              interfaceDetectors s')
    as (s'' & Hrun2 & _ & _ & _ & _ & Hsame).
  exists s', s''. split; [exact Hrun|]. split; [exact Hrun2|].
  split; [exact Hblocks|]. split; [exact Htransactions|].
  split; [|split; [exact Hnodup|]].
  - intros a interfaceType. apply (Hkeys (a, interfaceType)).
  - apply Hsame. intros interfaceType Hin.
    apply (Hkeys (toLowerCase address, interfaceType)). right. now split.
Qed.

Lemma detectAndStoreInterfaces_only_adds_tags_witness :
  let w := node 10 empty_chain every_receipt in
  let s := caught_up_at_10 in
  let address := "0xAbCdEf0000000000000000000000000000000001" in
  let abi :=
    abi_of_functions
      ["balanceOf"; "transfer"; "approve"; "allowance"; "transferFrom"] in
  exists s' s'',
    detectAndStoreInterfaces address abi w s = (Done tt, s')
    /\ detectAndStoreInterfaces address abi w s' = (Done tt, s'')
    /\ blocks s' = blocks s
    /\ transactions s' = transactions s
    /\ (forall a interfaceType,
          (a, interfaceType) ∈ map interface_key (contract_interfaces s')
          <-> (a, interfaceType) ∈ map interface_key (contract_interfaces s)
              \/ (a = toLowerCase address
                  /\ interfaceType ∈ classify (functions_of abi)))
    /\ (NoDup (map interface_key (contract_interfaces s)) ->
        NoDup (map interface_key (contract_interfaces s')))
    /\ map interface_key (contract_interfaces s'')
       = map interface_key (contract_interfaces s').
Proof.
  apply (detectAndStoreInterfaces_only_adds_tags
           (node 10 empty_chain every_receipt)
           (node 10 empty_chain every_receipt) caught_up_at_10
           "0xAbCdEf0000000000000000000000000000000001"
           (abi_of_functions
              ["balanceOf"; "transfer"; "approve"; "allowance"; "transferFrom"]));
    reflexivity.
Defined.

Lemma detect_loop_rejected w address functions standards interfaceType rest e s :
  map fst
    (filter (fun standard : string * list string =>
               (list_to_set (snd standard) : gset string) ⊆ functions)
            standards)
  = interfaceType :: rest ->
  pg_insert_contract_interface w (toLowerCase address) interfaceType
  = Rejected e ->
  for_of standards
    (fun '(interfaceType, requiredFunctions) =>
       if every_has requiredFunctions functions
       then DatabaseService.insertContractInterface address interfaceType
       else ret tt) w s
  = (Thrown e,
     set_trace (trace s ++ [EvInsertContractInterface (toLowerCase address)
                                                       interfaceType]) s).
Proof.
  intros Hfirst Hrejected.
  induction standards as [|[name required] others IH]; [discriminate|].
  cbn [for_of]. unfold bind at 1.
  destruct (every_has required functions) eqn:Hevery.
  - rewrite filter_cons_True in Hfirst by now apply every_has_subseteq.
    injection Hfirst as -> _.
    now rewrite insertContractInterface_eq, Hrejected.
  - rewrite filter_cons_False in Hfirst.
    2:{ rewrite <- every_has_subseteq. cbn [snd]. congruence. }
    unfold ret at 1. now apply IH.
Qed.

(** X18.  When the store rejects the write of the first standard that the
    contract satisfies, [detectAndStoreInterfaces] throws that error at
    once: that write is the only call made, no table has changed, and the
    other standards the contract satisfies are not written. *)
Theorem detectAndStoreInterfaces_stops_at_rejected_write w s address abi
    interfaceType rest e :
  classify (functions_of abi) = interfaceType :: rest ->
  pg_insert_contract_interface w (toLowerCase address) interfaceType
  = Rejected e ->
  exists s',
    detectAndStoreInterfaces address abi w s = (Thrown e, s')
    /\ tables s' = tables s
    /\ trace s'
       = trace s ++ [EvInsertContractInterface (toLowerCase address)
                                               interfaceType].
Proof.
  intros Hfirst Hrejected. unfold detectAndStoreInterfaces. cbn zeta.
  rewrite (detect_loop_rejected _ _ _ _ _ _ _ _ Hfirst Hrejected).
  now eexists.
Qed.

Lemma detectAndStoreInterfaces_stops_at_rejected_write_witness :
  let w :=
    {| rpc_getNetwork := Ok tt;
       rpc_getBlockNumber := Ok 10;
       rpc_getBlockWithTransactions := fun n => Ok (empty_chain n);
       rpc_getTransactionReceipt := fun h => Ok (every_receipt h);
       pg_select := Ok tt;
       pg_insert_block := fun _ => Ok tt;
       pg_insert_transaction := fun _ => Ok tt;
       pg_insert_contract_interface := fun _ _ => Rejected PgError;
       now := 1700000600000;
       toISOString := fun _ => "2023-11-14T22:13:20.000Z" |} in
  let abi :=
    abi_of_functions
      ["balanceOf"; "transfer"; "approve"; "allowance"; "transferFrom";
       "ownerOf"; "safeTransferFrom"] in
  exists s',
    detectAndStoreInterfaces "0xAB" abi w (constructor [] [] [])
    = (Thrown PgError, s')
    /\ tables s' = tables (constructor [] [] [])
    /\ trace s'
       = trace (constructor [] [] [])
         ++ [EvInsertContractInterface (toLowerCase "0xAB") "ERC20"].
Proof.
  apply (detectAndStoreInterfaces_stops_at_rejected_write _
           (constructor [] [] []) "0xAB"
           (abi_of_functions
              ["balanceOf"; "transfer"; "approve"; "allowance"; "transferFrom";
               "ownerOf"; "safeTransferFrom"])
           "ERC20" ["ERC721"] PgError).
  - vm_compute. reflexivity.
  - reflexivity.
Defined.

(** X19.  The detector looks at the entries of type [function] only, and
    at their names only: a standard matched by an ABI is matched by every
    ABI whose function entries carry at least the same names, and entries
    of another type (events, constructor, errors) never change the
    outcome, whatever their names. *)
Theorem detector_reads_function_names_only abi abi' others requiredFunctions :
  (forall item, item ∈ others -> AbiItem.type_ item <> "function") ->
  every_has requiredFunctions (functions_of (abi ++ others))
  = every_has requiredFunctions (functions_of abi)
  /\ every_has requiredFunctions (functions_of (others ++ abi))
     = every_has requiredFunctions (functions_of abi)
  /\ ((forall item, item ∈ abi -> AbiItem.type_ item = "function" ->
         exists item', item' ∈ abi' /\ AbiItem.type_ item' = "function"
                       /\ AbiItem.name item' = AbiItem.name item) ->
      every_has requiredFunctions (functions_of abi) = true ->
      every_has requiredFunctions (functions_of abi') = true).
Proof.
  intros Hothers.
  assert (Hnone : filter (fun item => AbiItem.type_ item = "function") others
                  = []).
  { induction others as [|item rest IH]; [reflexivity|].
    rewrite filter_cons_False by (apply Hothers, list_elem_of_here).
    apply IH. intros item' Hin. now apply Hothers, list_elem_of_further. }
  split3.
  - unfold functions_of. now rewrite filter_app, Hnone, app_nil_r.
  - unfold functions_of. now rewrite filter_app, Hnone.
  - intros Hnames. rewrite !every_has_subseteq. intros Hsub name Hname.
    apply Hsub, elem_of_functions_of in Hname as (item & Hin & Htype & <-).
    apply elem_of_functions_of. now apply Hnames.
Qed.

Lemma detector_reads_function_names_only_witness :
  let abi := abi_of_functions ["ownerOf"; "approve"; "transferFrom";
                               "safeTransferFrom"] in
  let abi' := abi_of_functions ["name"; "safeTransferFrom"; "transferFrom";
                                "approve"; "ownerOf"; "ownerOf"] in
  let others := [AbiItem.mk "event" "balanceOf"; AbiItem.mk "event" "transfer"] in
  let requiredFunctions :=
    ["ownerOf"; "approve"; "transferFrom"; "safeTransferFrom"] in
  every_has requiredFunctions (functions_of (abi ++ others))
  = every_has requiredFunctions (functions_of abi)
  /\ every_has requiredFunctions (functions_of (others ++ abi))
     = every_has requiredFunctions (functions_of abi)
  /\ ((forall item, item ∈ abi -> AbiItem.type_ item = "function" ->
         exists item', item' ∈ abi' /\ AbiItem.type_ item' = "function"
                       /\ AbiItem.name item' = AbiItem.name item) ->
      every_has requiredFunctions (functions_of abi) = true ->
      every_has requiredFunctions (functions_of abi') = true).
Proof.
  apply (detector_reads_function_names_only
           (abi_of_functions ["ownerOf"; "approve"; "transferFrom";
                              "safeTransferFrom"])
           (abi_of_functions ["name"; "safeTransferFrom"; "transferFrom";
                              "approve"; "ownerOf"; "ownerOf"])
           [AbiItem.mk "event" "balanceOf"; AbiItem.mk "event" "transfer"]
           ["ownerOf"; "approve"; "transferFrom"; "safeTransferFrom"]).
  intros item Hin.
  apply elem_of_cons in Hin as [->|Hin]; [discriminate|].
  apply list_elem_of_singleton in Hin as ->. discriminate.
Defined.

(** ** The store: ordered and paged reads *)

#[local] Instance by_index_asc_total : Total by_index_asc.
Proof. intros a b. unfold by_index_asc. lia. Qed.

#[local] Instance by_index_asc_trans : Transitive by_index_asc.
Proof. intros a b c. unfold by_index_asc. lia. Qed.

#[local] Instance latest_first_total : Total latest_first.
Proof. intros a b. unfold latest_first. lia. Qed.

#[local] Instance latest_first_trans : Transitive latest_first.
Proof. intros a b c. unfold latest_first. lia. Qed.

Lemma getTransactionsByBlock_eq blockNumber w s :
  DatabaseQueries.getTransactionsByBlock blockNumber w s
  = (Done (match pg_select w with
           | Ok _ =>
               order_by by_index_asc
                 (filter (fun row => Transaction.block_number row = blockNumber)
                         (transactions s))
           | Rejected _ => []
           end), s).
Proof.
  unfold DatabaseQueries.getTransactionsByBlock, query. unfold_monad.
  destruct (pg_select w) as [[]|e]; reflexivity.
Qed.

Lemma getTransactionsByAddress_eq address limit offset w s :
  DatabaseQueries.getTransactionsByAddress address limit offset w s
  = (Done (match pg_select w,
                 limit_offset limit offset
                   (order_by latest_first
                      (filter (involves address) (transactions s))) with
           | Ok _, Ok page => page
           | _, _ => []
           end), s).
Proof.
  unfold DatabaseQueries.getTransactionsByAddress, query. unfold_monad.
  destruct (pg_select w) as [[]|e]; [|reflexivity].
  destruct (limit_offset _ _ _); reflexivity.
Qed.

Lemma getLatestTransactions_eq limit offset w s :
  DatabaseQueries.getLatestTransactions limit offset w s
  = (Done (match pg_select w,
                 limit_offset limit offset
                   (order_by latest_first (transactions s)) with
           | Ok _, Ok page => page
           | _, _ => []
           end), s).
Proof.
  unfold DatabaseQueries.getLatestTransactions, query. unfold_monad.
  destruct (pg_select w) as [[]|e]; [|reflexivity].
  destruct (limit_offset _ _ _); reflexivity.
Qed.

(** X20.  [getTransactionsByBlock] never throws and changes nothing.  When
    the server answers, it returns the stored rows of the block, each as
    often as it is stored, by ascending position in the block; when the
    server rejects the query it returns the empty list. *)
Theorem getTransactionsByBlock_sorted_rows_of_the_block w s blockNumber :
  exists rows,
    DatabaseQueries.getTransactionsByBlock blockNumber w s = (Done rows, s)
    /\ (pg_select w = Ok tt ->
        rows ≡ₚ filter (fun row => Transaction.block_number row = blockNumber)
                       (transactions s)
        /\ StronglySorted by_index_asc rows)
    /\ (is_ok (pg_select w) = false -> rows = []).
Proof.
  rewrite getTransactionsByBlock_eq. eexists. split; [reflexivity|]. split.
  - intros ->. unfold order_by. split.
    + apply merge_sort_Permutation.
    + apply StronglySorted_merge_sort; apply _.
  - now destruct (pg_select w).
Qed.

Lemma limit_offset_page {A} (limit offset : Z) (rows : list A) :
  0 <= limit <= bigint_max -> 0 <= offset <= bigint_max ->
  limit_offset limit offset rows
  = Ok (take (Z.to_nat limit) (drop (Z.to_nat offset) rows)).
Proof.
  intros Hl Ho. unfold limit_offset.
  destruct (limit <? 0) eqn:El; [lia|].
  destruct (offset <? 0) eqn:Eo; [lia|].
  destruct (bigint_max <? limit) eqn:El'; [lia|].
  destruct (bigint_max <? offset) eqn:Eo'; [lia|]. reflexivity.
Qed.

Lemma limit_offset_out_of_range {A} (limit offset : Z) (rows : list A) :
  bigint_max < limit \/ bigint_max < offset ->
  limit_offset limit offset rows = Rejected PgError.
Proof.
  intros Hout. unfold limit_offset.
  destruct (limit <? 0); [reflexivity|].
  destruct (offset <? 0); [reflexivity|].
  destruct (bigint_max <? limit) eqn:El; [reflexivity|].
  destruct (bigint_max <? offset) eqn:Eo; [reflexivity|]. lia.
Qed.

Lemma StronglySorted_take_drop {A} (R : relation A) (l : list A) n m :
  StronglySorted R l -> StronglySorted R (take n (drop m l)).
Proof.
  intros Hl. rewrite <- (take_drop m l) in Hl.
  apply StronglySorted_app_1_r in Hl.
  rewrite <- (take_drop n (drop m l)) in Hl.
  now apply StronglySorted_app_1_l in Hl.
Qed.

Lemma elem_of_take_drop {A} (l : list A) n m x :
  x ∈ take n (drop m l) -> x ∈ l.
Proof.
  intros Hx. now apply subseteq_take, subseteq_drop in Hx.
Qed.

(** Two transactions that [latest_first] puts either way round are at the
    same place. *)
Lemma latest_first_antisymmetric a b :
  latest_first a b -> latest_first b a -> position a = position b.
Proof.
  unfold latest_first, position. intros Hab Hba. f_equal; lia.
Qed.

(** Rows at different places have one sorted arrangement only. *)
Lemma sorted_by_position_unique (l1 : list Transaction.t) : forall l2,
  NoDup (map position l1) ->
  StronglySorted latest_first l1 ->
  StronglySorted latest_first l2 ->
  l1 ≡ₚ l2 ->
  l1 = l2.
Proof.
  induction l1 as [|x l1 IH]; intros l2 Hnodup Hs1 Hs2 Hperm.
  - now apply Permutation_nil_l in Hperm.
  - destruct l2 as [|y l2]; [now apply Permutation_nil_r in Hperm|].
    cbn [map] in Hnodup. apply NoDup_cons in Hnodup as [Hx Hnodup].
    apply StronglySorted_inv in Hs1 as [Hs1 Hx1].
    apply StronglySorted_inv in Hs2 as [Hs2 Hy2].
    assert (x = y) as <-.
    { assert (Hxin : x ∈ y :: l2) by (rewrite <- Hperm; apply list_elem_of_here).
      assert (Hyin : y ∈ x :: l1) by (rewrite Hperm; apply list_elem_of_here).
      apply elem_of_cons in Hxin as [Heq|Hxin]; [assumption|].
      apply elem_of_cons in Hyin as [Heq|Hyin]; [now symmetry|].
      rewrite Forall_forall in Hx1, Hy2.
      pose proof (latest_first_antisymmetric _ _ (Hx1 _ Hyin) (Hy2 _ Hxin))
        as Hsame.
      destruct Hx. rewrite Hsame. apply list_elem_of_In, in_map.
      now apply list_elem_of_In. }
    f_equal. apply IH; try assumption. now apply Permutation_cons_inv in Hperm.
Qed.

Lemma NoDup_map_filter {A B} (f : A -> B) (P : A -> Prop)
    `{!forall x, Decision (P x)} (l : list A) :
  NoDup (map f l) -> NoDup (map f (filter P l)).
Proof.
  induction l as [|x l IH]; cbn [map]; intros Hnodup; [constructor|].
  apply NoDup_cons in Hnodup as [Hx Hnodup].
  destruct (decide (P x)) as [HP|HP].
  - rewrite filter_cons_True by assumption. cbn [map].
    apply NoDup_cons. split; [|now apply IH].
    intros Hin. apply Hx.
    apply list_elem_of_In, in_map_iff in Hin as (x' & Hfx & Hin).
    apply list_elem_of_In, list_elem_of_filter in Hin as [_ Hin].
    rewrite <- Hfx. apply list_elem_of_In, in_map. now apply list_elem_of_In.
  - rewrite filter_cons_False by assumption. now apply IH.
Qed.

(** For rows at different places, [ORDER BY] gives the one sorted
    arrangement, whatever the algorithm. *)
Lemma order_by_latest_first_unique (rows sorted : list Transaction.t) :
  NoDup (map position rows) ->
  sorted ≡ₚ rows ->
  StronglySorted latest_first sorted ->
  order_by latest_first rows = sorted.
Proof.
  intros Hnodup Hperm Hsorted. symmetry.
  apply sorted_by_position_unique; try assumption.
  - now rewrite (Permutation_map position Hperm).
  - unfold order_by. apply StronglySorted_merge_sort; apply _.
  - unfold order_by. now rewrite merge_sort_Permutation.
Qed.

(** X21.  The paged reads [getLatestTransactions] and
    [getTransactionsByAddress] never throw and change nothing.  Limit and
    offset are JavaScript numbers, exact on the integers up to
    [Number.MAX_SAFE_INTEGER], and go to the server as [bigint] parameters.
    While the server answers, the stored transactions are at different
    places of the chain, and limit and offset are not negative and, added
    up, safe integers: a page is the stretch of at most [limit] rows after
    the first [offset] rows of the stored transactions (by address: of those
    sent from or to the address) arranged latest block first and, within a
    block, highest position first; and the page after a page, put behind
    it, is the page of both limits together.  When the server rejects the
    query, and when a limit or an offset is above the range of [bigint],
    the reads return the empty list. *)
Theorem pages_are_ordered_and_compose
    w s address limit limit' offset sorted asorted :
  0 <= limit -> 0 <= limit' -> 0 <= offset ->
  offset + limit + limit' <= MAX_SAFE_INTEGER ->
  NoDup (map position (transactions s)) ->
  sorted ≡ₚ transactions s ->
  StronglySorted latest_first sorted ->
  asorted ≡ₚ filter (involves address) (transactions s) ->
  StronglySorted latest_first asorted ->
  (pg_select w = Ok tt ->
   DatabaseQueries.getLatestTransactions limit offset w s
   = (Done (take (Z.to_nat limit) (drop (Z.to_nat offset) sorted)), s)
   /\ DatabaseQueries.getTransactionsByAddress address limit offset w s
      = (Done (take (Z.to_nat limit) (drop (Z.to_nat offset) asorted)), s)
   /\ (exists page next both,
         DatabaseQueries.getLatestTransactions limit offset w s
         = (Done page, s)
         /\ DatabaseQueries.getLatestTransactions limit' (offset + limit) w s
            = (Done next, s)
         /\ DatabaseQueries.getLatestTransactions (limit + limit') offset w s
            = (Done both, s)
         /\ page ++ next = both
         /\ (length page <= Z.to_nat limit)%nat
         /\ StronglySorted latest_first page
         /\ (forall row, row ∈ page -> row ∈ transactions s))
   /\ (exists page next both,
         DatabaseQueries.getTransactionsByAddress address limit offset w s
         = (Done page, s)
         /\ DatabaseQueries.getTransactionsByAddress address limit'
              (offset + limit) w s
            = (Done next, s)
         /\ DatabaseQueries.getTransactionsByAddress address (limit + limit')
              offset w s
            = (Done both, s)
         /\ page ++ next = both
         /\ (length page <= Z.to_nat limit)%nat
         /\ StronglySorted latest_first page
         /\ (forall row, row ∈ page ->
                         row ∈ transactions s /\ involves address row)))
  /\ (is_ok (pg_select w) = false ->
      DatabaseQueries.getLatestTransactions limit offset w s = (Done [], s)
      /\ DatabaseQueries.getTransactionsByAddress address limit offset w s
         = (Done [], s))
  /\ (forall l o,
        bigint_max < l \/ bigint_max < o ->
        DatabaseQueries.getLatestTransactions l o w s = (Done [], s)
        /\ DatabaseQueries.getTransactionsByAddress address l o w s
           = (Done [], s)).
Proof.
  intros Hlimit Hlimit' Hoffset Hsafe Hnodup Hperm Hsorted Haperm Hasorted.
  assert (Hbig : MAX_SAFE_INTEGER <= bigint_max) by (vm_compute; discriminate).
  assert (Hcompose : forall rows : list Transaction.t,
    take (Z.to_nat limit) (drop (Z.to_nat offset) rows)
    ++ take (Z.to_nat limit') (drop (Z.to_nat (offset + limit)) rows)
    = take (Z.to_nat (limit + limit')) (drop (Z.to_nat offset) rows)).
  { intros rows. rewrite !Z2Nat.inj_add by lia.
    rewrite <- drop_drop. apply take_take_drop. }
  split; [|split].
  - intros Hselect.
    rewrite !getLatestTransactions_eq, !getTransactionsByAddress_eq, Hselect.
    rewrite !limit_offset_page by lia.
    rewrite (order_by_latest_first_unique (transactions s) sorted)
      by assumption.
    rewrite (order_by_latest_first_unique
               (filter (involves address) (transactions s)) asorted)
      by (try assumption; now apply NoDup_map_filter).
    split; [reflexivity|]. split; [reflexivity|]. split.
    + eexists _, _, _. repeat (split; [reflexivity|]).
      split; [apply Hcompose|]. split; [rewrite length_take; lia|].
      split; [now apply StronglySorted_take_drop|].
      intros row Hrow%elem_of_take_drop. now rewrite <- Hperm.
    + eexists _, _, _. repeat (split; [reflexivity|]).
      split; [apply Hcompose|]. split; [rewrite length_take; lia|].
      split; [now apply StronglySorted_take_drop|].
      intros row Hrow%elem_of_take_drop. rewrite Haperm in Hrow.
      apply list_elem_of_filter in Hrow as [? ?]. now split.
  - intros Hselect.
    rewrite getLatestTransactions_eq, getTransactionsByAddress_eq.
    now destruct (pg_select w).
  - intros l o Hout.
    rewrite getLatestTransactions_eq, getTransactionsByAddress_eq.
    rewrite !limit_offset_out_of_range by assumption.
    now destruct (pg_select w).
Qed.

Lemma pages_are_ordered_and_compose_witness :
  let w := node 1 two_transfers receipts_in_order in
  let s := two_transfers_stored in
  let sorted := reverse (transactions s) in
  (pg_select w = Ok tt ->
   DatabaseQueries.getLatestTransactions 1 0 w s
   = (Done (take (Z.to_nat 1) (drop (Z.to_nat 0) sorted)), s)
   /\ DatabaseQueries.getTransactionsByAddress "0x02" 1 0 w s
      = (Done (take (Z.to_nat 1) (drop (Z.to_nat 0) sorted)), s)
   /\ (exists page next both,
         DatabaseQueries.getLatestTransactions 1 0 w s = (Done page, s)
         /\ DatabaseQueries.getLatestTransactions 1 (0 + 1) w s
            = (Done next, s)
         /\ DatabaseQueries.getLatestTransactions (1 + 1) 0 w s
            = (Done both, s)
         /\ page ++ next = both
         /\ (length page <= Z.to_nat 1)%nat
         /\ StronglySorted latest_first page
         /\ (forall row, row ∈ page -> row ∈ transactions s))
   /\ (exists page next both,
         DatabaseQueries.getTransactionsByAddress "0x02" 1 0 w s
         = (Done page, s)
         /\ DatabaseQueries.getTransactionsByAddress "0x02" 1 (0 + 1) w s
            = (Done next, s)
         /\ DatabaseQueries.getTransactionsByAddress "0x02" (1 + 1) 0 w s
            = (Done both, s)
         /\ page ++ next = both
         /\ (length page <= Z.to_nat 1)%nat
         /\ StronglySorted latest_first page
         /\ (forall row, row ∈ page ->
                         row ∈ transactions s /\ involves "0x02" row)))
  /\ (is_ok (pg_select w) = false ->
      DatabaseQueries.getLatestTransactions 1 0 w s = (Done [], s)
      /\ DatabaseQueries.getTransactionsByAddress "0x02" 1 0 w s
         = (Done [], s))
  /\ (forall l o,
        bigint_max < l \/ bigint_max < o ->
        DatabaseQueries.getLatestTransactions l o w s = (Done [], s)
        /\ DatabaseQueries.getTransactionsByAddress "0x02" l o w s
           = (Done [], s)).
Proof.
  apply (pages_are_ordered_and_compose
           (node 1 two_transfers receipts_in_order) two_transfers_stored
           "0x02" 1 1 0
           (reverse (transactions two_transfers_stored))
           (reverse (transactions two_transfers_stored))).
  - lia.
  - lia.
  - lia.
  - vm_compute. discriminate.
  - apply (bool_decide_unpack _). vm_compute. exact I.
  - apply reverse_Permutation.
  - apply (bool_decide_unpack _). vm_compute. exact I.
  - apply (bool_decide_unpack _). vm_compute. exact I.
  - apply (bool_decide_unpack _). vm_compute. exact I.
Defined.

(** The pages on the code: the two transfers of block 1, the one at
    position 1 first; and a limit above the range of [bigint] gives no
    row. *)
Example pages_of_two_transfers :
  let w := node 1 two_transfers receipts_in_order in
  let s := two_transfers_stored in
  let hashes page := map Transaction.hash page in
  let latest l o :=
    match fst (DatabaseQueries.getLatestTransactions l o w s) with
    | Done page => hashes page
    | _ => []
    end in
  latest 1 0 = ["0xbb"]
  /\ latest 1 1 = ["0xaa"]
  /\ latest 2 0 = ["0xbb"; "0xaa"]
  /\ latest 9223372036854775808 0 = [].
Proof. vm_compute. repeat split. Qed.

(** X22.  A negative limit or offset makes the server reject the paged
    reads, which then return the empty list, whatever the store holds. *)
Theorem negative_page_is_empty w s address limit offset :
  limit < 0 \/ offset < 0 ->
  DatabaseQueries.getLatestTransactions limit offset w s = (Done [], s)
  /\ DatabaseQueries.getTransactionsByAddress address limit offset w s
     = (Done [], s).
Proof.
  intros Hnegative.
  rewrite getLatestTransactions_eq, getTransactionsByAddress_eq.
  unfold limit_offset.
  assert ((limit <? 0) || (offset <? 0) = true) as ->.
  { apply orb_true_iff. rewrite !Z.ltb_lt. exact Hnegative. }
  now destruct (pg_select w).
Qed.

Lemma negative_page_is_empty_witness :
  let w := node 2 chain_0_1_0 every_receipt in
  let s := snd (start 3 w (constructor [] [] [])) in
  DatabaseQueries.getLatestTransactions (-1) 0 w s = (Done [], s)
  /\ DatabaseQueries.getTransactionsByAddress "0x01" (-1) 0 w s = (Done [], s).
Proof.
  apply (negative_page_is_empty
           (node 2 chain_0_1_0 every_receipt)
           (snd (start 3 (node 2 chain_0_1_0 every_receipt)
                   (constructor [] [] [])))
           "0x01" (-1) 0).
  left. lia.
Defined.

(** ** The verifier: comparing bytecodes *)

Lemma prefix_append pattern s :
  String.prefix pattern s = true
  <-> exists rest, s = String.append pattern rest.
Proof.
  revert s. induction pattern as [|c pattern IH]; intros s.
  - split; [now exists s | now destruct s].
  - destruct s as [|c' s]; cbn.
    + split; [discriminate | now intros [rest ?]].
    + destruct (Ascii.ascii_dec c c') as [->|Hne].
      * rewrite IH. split; intros [rest Hrest]; exists rest; cbn in *;
          [now rewrite Hrest | now injection Hrest].
      * split; [discriminate|]. intros [rest Hrest]. cbn in Hrest.
        injection Hrest as Hc _. congruence.
Qed.

Lemma string_drop_append pattern rest :
  string_drop (String.length pattern) (String.append pattern rest) = rest.
Proof. induction pattern as [|c pattern IH]; cbn; [now destruct rest | exact IH]. Qed.

Lemma replace_first_spec pattern s :
  (replace_first pattern s = s
   /\ forall pre post,
        s <> String.append pre (String.append pattern post))
  \/ exists pre post,
       s = String.append pre (String.append pattern post)
       /\ replace_first pattern s = String.append pre post.
Proof.
  induction s as [|c s IH]; cbn [replace_first].
  - destruct (String.prefix pattern EmptyString) eqn:Hprefix.
    + right. apply prefix_append in Hprefix as [rest Hrest].
      exists EmptyString, rest. cbn [String.append]. split; [exact Hrest|].
      rewrite Hrest at 1. apply string_drop_append.
    + left. split; [reflexivity|]. intros [|c pre] post; cbn; [|discriminate].
      intros Heq. assert (String.prefix pattern EmptyString = true)
        by (apply prefix_append; now exists post). congruence.
  - destruct (String.prefix pattern (String c s)) eqn:Hprefix.
    + right. apply prefix_append in Hprefix as [rest Hrest].
      exists EmptyString, rest. cbn [String.append]. split; [exact Hrest|].
      rewrite Hrest at 1. apply string_drop_append.
    + destruct IH as [[Hsame Hnone]|(pre & post & Hs & Hcut)].
      * left. split; [now rewrite Hsame|].
        intros [|c' pre] post; cbn [String.append].
        -- intros Heq. assert (String.prefix pattern (String c s) = true)
             by (apply prefix_append; now exists post). congruence.
        -- intros [= -> Heq]. now apply (Hnone pre post).
      * right. exists (String c pre), post. cbn [String.append].
        split; [now rewrite Hs | now rewrite Hcut].
Qed.

(** X23.  [compareBytecode] compares the compiled code with the deployed
    code from which the first occurrence of the constructor arguments is
    cut out.  So: without arguments, or with arguments that do not occur
    in the deployed code, it is plain equality; arguments at the front of
    the deployed code are cut; and a match always means that the compiled
    code is the deployed code, whole or with one copy of the arguments
    cut out. *)
Theorem compareBytecode_cuts_one_occurrence compiled deployed args :
  compareBytecode compiled deployed EmptyString
  = bool_decide (compiled = deployed)
  /\ compareBytecode compiled (String.append args compiled) args = true
  /\ ((forall pre post,
         deployed <> String.append pre (String.append args post)) ->
      compareBytecode compiled deployed args
      = bool_decide (compiled = deployed))
  /\ (compareBytecode compiled deployed args = true ->
      compiled = deployed
      \/ exists pre post,
           deployed = String.append pre (String.append args post)
           /\ compiled = String.append pre post).
Proof.
  unfold compareBytecode. cbn zeta. split4.
  - now destruct deployed.
  - apply bool_decide_eq_true_2.
    assert (Hprefix : String.prefix args (String.append args compiled) = true)
      by (apply prefix_append; now exists compiled).
    destruct (String.append args compiled) as [|c s] eqn:Happ;
      cbn [replace_first]; rewrite Hprefix, <- Happ;
      now rewrite string_drop_append.
  - intros Hnone.
    destruct (replace_first_spec args deployed)
      as [[-> _]|(pre & post & Hs & _)]; [reflexivity|].
    now destruct (Hnone pre post).
  - intros Hmatch%bool_decide_eq_true_1.
    destruct (replace_first_spec args deployed)
      as [[Hsame _]|(pre & post & Hs & Hcut)].
    + left. congruence.
    + right. exists pre, post. split; [assumption | congruence].
Qed.

Lemma compareBytecode_cuts_one_occurrence_witness :
  compareBytecode "6080abcd" "6080ffabcd" EmptyString
  = bool_decide ("6080abcd" = "6080ffabcd")
  /\ compareBytecode "6080abcd" (String.append "ff" "6080abcd") "ff" = true
  /\ ((forall pre post,
         "6080ffabcd" <> String.append pre (String.append "ff" post)) ->
      compareBytecode "6080abcd" "6080ffabcd" "ff"
      = bool_decide ("6080abcd" = "6080ffabcd"))
  /\ (compareBytecode "6080abcd" "6080ffabcd" "ff" = true ->
      "6080abcd" = "6080ffabcd"
      \/ exists pre post,
           "6080ffabcd" = String.append pre (String.append "ff" post)
           /\ "6080abcd" = String.append pre post).
Proof.
  exact (compareBytecode_cuts_one_occurrence "6080abcd" "6080ffabcd" "ff").
Defined.

(** ** The verifier: records and verification *)

Lemma updateVerificationStatus_eq address status error vw vs :
  VerificationStore.updateVerificationStatus address status error vw vs
  = match pg_update_verification vw (toLowerCase address) status with
    | Answered _ =>
        (Returned tt,
         mkVerifierSys (sys vs)
           (map (fun row =>
                   if decide (ContractVerification.address row
                              = toLowerCase address)
                   then VerificationStore.set_status status error
                          (now (indexer_world vw)) row
                   else row)
                (contract_verifications vs)))
    | Failed err => (Raised err, vs)
    end.
Proof.
  unfold VerificationStore.updateVerificationStatus, vtry_catch, vbind, vasks,
         vawait, vmodify_verifications, vthrow.
  destruct (pg_update_verification vw _ _); reflexivity.
Qed.

Lemma verifyContract_eq verification vw vs :
  verifyContract verification vw vs
  = VerificationStore.updateVerificationStatus
      (ContractVerification.address verification) failure
      (Some (match rpc_getCode vw (ContractVerification.address verification) with
             | Answered _ => "Compilation not implemented"
             | Failed error => error_message error
             end)) vw vs.
Proof.
  unfold verifyContract, vtry_catch at 1, vbind at 1, vawait at 1.
  destruct (rpc_getCode vw _) as [code|error]; reflexivity.
Qed.

(** X24.  [verifyContract] never verifies a contract.  Whatever the node
    and the server answer, it writes no interface tag and leaves the
    indexer and its tables alone, adds and removes no verification record,
    and marks no record as a success; when the server accepts the update,
    it returns and every record of the address reads: failure, not
    verified, with the message "Compilation not implemented" (or, when the
    code of the contract could not be fetched, the message of that error);
    when the server rejects the update, the rejection is thrown and the
    records are what they were. *)
Theorem verifyContract_never_succeeds vw vs verification :
  let vs' := snd (verifyContract verification vw vs) in
  let address := toLowerCase (ContractVerification.address verification) in
  let message :=
    match rpc_getCode vw (ContractVerification.address verification) with
    | Answered _ => "Compilation not implemented"
    | Failed error => error_message error
    end in
  sys vs' = sys vs
  /\ map ContractVerification.address (contract_verifications vs')
     = map ContractVerification.address (contract_verifications vs)
  /\ (forall row,
        row ∈ contract_verifications vs' ->
        ContractVerification.verification_status row = success ->
        row ∈ contract_verifications vs)
  /\ match pg_update_verification vw address failure with
     | Answered _ =>
         fst (verifyContract verification vw vs) = Returned tt
         /\ forall row,
              row ∈ contract_verifications vs' ->
              ContractVerification.address row = address ->
              ContractVerification.verification_status row = failure
              /\ ContractVerification.is_verified row = false
              /\ ContractVerification.verification_error row = Some message
     | Failed error =>
         fst (verifyContract verification vw vs) = Raised error
         /\ contract_verifications vs' = contract_verifications vs
     end.
Proof.
  cbn zeta. rewrite verifyContract_eq, updateVerificationStatus_eq.
  destruct (pg_update_verification vw _ failure) as [[]|error];
    cbn [fst snd sys contract_verifications]; [|now split4].
  split4; [reflexivity | | | split; [reflexivity|]].
  - rewrite map_map. apply map_ext. intros row. now destruct (decide _).
  - intros row' Hin%list_elem_of_In. apply in_map_iff in Hin as [row [<- Hin]].
    destruct (decide _); [discriminate|]. intros _. now apply list_elem_of_In.
  - intros row' Hin%list_elem_of_In. apply in_map_iff in Hin as [row [<- Hin]].
    destruct (decide _) as [Ha|Ha]; [now intros _|]. cbn. congruence.
Qed.

(** The same on a submitted record, evaluated. *)
Example verifyContract_on_a_submitted_record :
  let vw := verifier_world (node 10 empty_chain every_receipt) in
  let vs' := snd (verifyContract a_verification vw verification_submitted) in
  fst (verifyContract a_verification vw verification_submitted) = Returned tt
  /\ map (fun row => (ContractVerification.address row,
                      ContractVerification.verification_status row,
                      ContractVerification.is_verified row,
                      ContractVerification.verification_error row))
         (contract_verifications vs')
     = [("0xabcd01", failure, false, Some "Compilation not implemented")]
  /\ contract_interfaces (sys vs') = [].
Proof. vm_compute. repeat split. Qed.

Lemma verifications_do_update_key row excluded :
  ContractVerification.address
    (VerificationStore.verifications_do_update row excluded)
  = ContractVerification.address row.
Proof. reflexivity. Qed.

Lemma verifications_do_update_excluded row excluded :
  ContractVerification.address row = ContractVerification.address excluded ->
  VerificationStore.verifications_do_update row excluded = excluded.
Proof.
  destruct excluded. unfold VerificationStore.verifications_do_update. cbn.
  now intros ->.
Qed.

Lemma insertContractVerification_eq verification vw vs :
  VerificationStore.insertContractVerification verification vw vs
  = match pg_insert_verification vw
            (VerificationStore.proposed_row verification) with
    | Answered _ =>
        (Returned tt,
         mkVerifierSys (sys vs)
           (DatabaseService.insert_on_conflict
              VerificationStore.verifications_conflict
              VerificationStore.verifications_do_update
              (VerificationStore.proposed_row verification)
              (contract_verifications vs)))
    | Failed err => (Raised err, vs)
    end.
Proof.
  unfold VerificationStore.insertContractVerification, vtry_catch, vbind,
         vawait, vmodify_verifications, vthrow.
  destruct (pg_insert_verification vw _); reflexivity.
Qed.

Lemma getContractVerification_eq address vw vs :
  VerificationStore.getContractVerification address vw vs
  = (Returned
       (match pg_select_verification vw with
        | Answered _ =>
            head (filter (fun row => ContractVerification.address row
                                     = toLowerCase address)
                         (contract_verifications vs))
        | Failed _ => None
        end), vs).
Proof.
  unfold VerificationStore.getContractVerification, vtry_catch, vbind, vawait,
         vret.
  destruct (pg_select_verification vw); reflexivity.
Qed.

(** X25.  A verification record that the server accepts is stored under
    the lower-case form of its address: [getContractVerification] returns
    it, with that address, for every spelling of the address; storing it
    again leaves the table as it was; and on a table with one record per
    address it adds no second record for a contract that has one. *)
Theorem verification_record_round_trip vw vs verification address :
  pg_insert_verification vw (VerificationStore.proposed_row verification)
  = Answered tt ->
  pg_select_verification vw = Answered tt ->
  toLowerCase address
  = toLowerCase (ContractVerification.address verification) ->
  let vs' :=
    snd (VerificationStore.insertContractVerification verification vw vs) in
  fst (VerificationStore.getContractVerification address vw vs')
  = Returned (Some (VerificationStore.proposed_row verification))
  /\ snd (VerificationStore.insertContractVerification verification vw vs')
     = vs'
  /\ (NoDup (map ContractVerification.address (contract_verifications vs)) ->
      NoDup (map ContractVerification.address (contract_verifications vs'))
      /\ (toLowerCase (ContractVerification.address verification)
            ∈ map ContractVerification.address (contract_verifications vs) ->
          length (contract_verifications vs')
          = length (contract_verifications vs))).
Proof.
  intros Haccepted Hselect Hcase vs'. subst vs'.
  rewrite !insertContractVerification_eq, Haccepted.
  cbn [snd sys contract_verifications]. split3.
  - rewrite getContractVerification_eq, Hselect, Hcase. cbn [fst].
    f_equal.
    apply (upsert_first_row ContractVerification.address _
             verifications_do_update_excluded
             (VerificationStore.proposed_row verification)).
  - f_equal.
    apply (upsert_idempotent ContractVerification.address _
             verifications_do_update_excluded).
  - intros Hnodup. split.
    + now apply (upsert_NoDup ContractVerification.address _
                   verifications_do_update_key).
    + intros Hin.
      pose proof (upsert_keys ContractVerification.address _
                    verifications_do_update_key
                    (VerificationStore.proposed_row verification)
                    (contract_verifications vs)) as Hkeys.
      rewrite bool_decide_eq_true_2 in Hkeys by exact Hin.
      apply (f_equal length) in Hkeys. now rewrite !length_map in Hkeys.
Qed.

Lemma verification_record_round_trip_witness :
  let vw := verifier_world (node 10 empty_chain every_receipt) in
  let vs := mkVerifierSys caught_up_at_10 [] in
  let vs' :=
    snd (VerificationStore.insertContractVerification a_verification vw vs) in
  fst (VerificationStore.getContractVerification "0xABCD01" vw vs')
  = Returned (Some (VerificationStore.proposed_row a_verification))
  /\ snd (VerificationStore.insertContractVerification a_verification vw vs')
     = vs'
  /\ (NoDup (map ContractVerification.address (contract_verifications vs)) ->
      NoDup (map ContractVerification.address (contract_verifications vs'))
      /\ (toLowerCase (ContractVerification.address a_verification)
            ∈ map ContractVerification.address (contract_verifications vs) ->
          length (contract_verifications vs')
          = length (contract_verifications vs))).
Proof.
  apply (verification_record_round_trip
           (verifier_world (node 10 empty_chain every_receipt))
           (mkVerifierSys caught_up_at_10 []) a_verification "0xABCD01").
  - reflexivity.
  - reflexivity.
  - vm_compute. reflexivity.
Defined.

(** X26.  [updateVerificationStatus] changes the records of the given
    address only, whatever its spelling, and of those the status, the
    error text, the verified flag (true for a success only) and the time;
    it adds and removes no record; and for an address without a record it
    returns normally with the table as it was. *)
Theorem updateVerificationStatus_touches_one_address vw vs address status
    error :
  pg_update_verification vw (toLowerCase address) status = Answered tt ->
  let vs' :=
    snd (VerificationStore.updateVerificationStatus address status error
           vw vs) in
  fst (VerificationStore.updateVerificationStatus address status error vw vs)
  = Returned tt
  /\ sys vs' = sys vs
  /\ length (contract_verifications vs') = length (contract_verifications vs)
  /\ (forall i row,
        contract_verifications vs !! i = Some row ->
        contract_verifications vs' !! i
        = Some (if decide (ContractVerification.address row
                           = toLowerCase address)
                then VerificationStore.set_status status error
                       (now (indexer_world vw)) row
                else row))
  /\ (toLowerCase address
        ∉ map ContractVerification.address (contract_verifications vs) ->
      vs' = vs)
  /\ (forall row,
        row ∈ contract_verifications vs' ->
        ContractVerification.address row = toLowerCase address ->
        ContractVerification.verification_status row = status
        /\ ContractVerification.verification_error row = error
        /\ ContractVerification.is_verified row = bool_decide (status = success)).
Proof.
  intros Haccepted vs'. subst vs'.
  rewrite updateVerificationStatus_eq, Haccepted.
  cbn [fst snd sys contract_verifications].
  split; [reflexivity|]. split; [reflexivity|]. split; [apply length_map|].
  split; [|split].
  - intros i row Hrow.
    change (map ?f ?l) with (f <$> l).
    now rewrite list_lookup_fmap, Hrow.
  - intros Hnone. destruct vs as [s rows]. cbn in *. f_equal.
    induction rows as [|row rest IH]; [reflexivity|]. cbn [map] in *.
    apply not_elem_of_cons in Hnone as [Hne Hnone].
    rewrite decide_False by congruence. now rewrite IH.
  - intros row' Hin%list_elem_of_In. apply in_map_iff in Hin as [row [<- Hin]].
    destruct (decide _) as [Ha|Ha]; [now intros _|]. congruence.
Qed.

Lemma updateVerificationStatus_touches_one_address_witness :
  let vw := verifier_world (node 10 empty_chain every_receipt) in
  let vs := verification_submitted in
  let vs' :=
    snd (VerificationStore.updateVerificationStatus "0xABCD01" success None
           vw vs) in
  fst (VerificationStore.updateVerificationStatus "0xABCD01" success None vw vs)
  = Returned tt
  /\ sys vs' = sys vs
  /\ length (contract_verifications vs') = length (contract_verifications vs)
  /\ (forall i row,
        contract_verifications vs !! i = Some row ->
        contract_verifications vs' !! i
        = Some (if decide (ContractVerification.address row
                           = toLowerCase "0xABCD01")
                then VerificationStore.set_status success None
                       (now (indexer_world vw)) row
                else row))
  /\ (toLowerCase "0xABCD01"
        ∉ map ContractVerification.address (contract_verifications vs) ->
      vs' = vs)
  /\ (forall row,
        row ∈ contract_verifications vs' ->
        ContractVerification.address row = toLowerCase "0xABCD01" ->
        ContractVerification.verification_status row = success
        /\ ContractVerification.verification_error row = None
        /\ ContractVerification.is_verified row = bool_decide (success = success)).
Proof.
  apply (updateVerificationStatus_touches_one_address
           (verifier_world (node 10 empty_chain every_receipt))
           verification_submitted "0xABCD01" success None).
  reflexivity.
Defined.

(** ** The indexer: processing a block again *)

Section Replay.
Context {R K : Type} `{EqDecision K} (key : R -> K).
Variable do_update : R -> R -> R.
Hypothesis do_update_key :
  forall row excluded, key (do_update row excluded) = key row.
Hypothesis do_update_excluded :
  forall row excluded, key row = key excluded -> do_update row excluded = excluded.

Let upsert :=
  DatabaseService.insert_on_conflict
    (fun row excluded => bool_decide (key row = key excluded)) do_update.
Let replay (rows table : list R) : list R :=
  fold_left (fun table row => upsert row table) rows table.
Let lookup (k : K) (table : list R) : option R :=
  head (filter (fun row => key row = k) table).

Lemma table_ext (t1 t2 : list R) :
  NoDup (map key t1) ->
  map key t1 = map key t2 ->
  (forall k, lookup k t1 = lookup k t2) ->
  t1 = t2.
Proof.
  subst lookup. cbn beta.
  revert t2. induction t1 as [|r1 t1 IH]; intros [|r2 t2] Hnodup Hkeys Hrows;
    try discriminate; [reflexivity|].
  cbn [map] in *. injection Hkeys as Hkey Hkeys.
  apply NoDup_cons in Hnodup as [Hfresh Hnodup].
  pose proof (Hrows (key r1)) as Hfirst.
  rewrite filter_cons_True in Hfirst by reflexivity.
  rewrite filter_cons_True in Hfirst by congruence.
  injection Hfirst as <-. f_equal. apply IH; [assumption..|].
  intros k. specialize (Hrows k).
  destruct (decide (key r1 = k)) as [<-|Hne].
  - rewrite !(no_row_under_absent_key key); [reflexivity| |assumption].
    now rewrite <- Hkeys.
  - now rewrite !filter_cons_False in Hrows by assumption.
Qed.

Lemma replay_snoc rows row table :
  replay (rows ++ [row]) table = upsert row (replay rows table).
Proof. subst replay. cbn beta. now rewrite fold_left_app. Qed.

Lemma replay_keeps_keys rows table k :
  k ∈ map key table -> k ∈ map key (replay rows table).
Proof.
  induction rows as [|row rows IH] using rev_ind; [easy|].
  intros Hk. rewrite replay_snoc. subst upsert.
  rewrite (upsert_keys key _ do_update_key).
  case_bool_decide; [now apply IH|]. apply elem_of_app. left. now apply IH.
Qed.

Lemma replay_has_keys rows table row :
  row ∈ rows -> key row ∈ map key (replay rows table).
Proof.
  induction rows as [|row' rows IH] using rev_ind;
    [intros Hin; now apply elem_of_nil in Hin|].
  intros Hin. rewrite replay_snoc. subst upsert.
  rewrite (upsert_keys key _ do_update_key).
  apply elem_of_app in Hin as [Hin| ->%list_elem_of_singleton].
  - case_bool_decide; [now apply IH|]. apply elem_of_app. left. now apply IH.
  - case_bool_decide; [assumption|]. apply elem_of_app. right.
    apply list_elem_of_here.
Qed.

Lemma replay_same_keys rows table :
  (forall row, row ∈ rows -> key row ∈ map key table) ->
  map key (replay rows table) = map key table.
Proof.
  induction rows as [|row rows IH] using rev_ind; [easy|].
  intros Hin. rewrite replay_snoc. subst upsert.
  rewrite (upsert_keys key _ do_update_key).
  rewrite IH by (intros; apply Hin, elem_of_app; now left).
  rewrite bool_decide_eq_true_2; [reflexivity|].
  apply Hin, elem_of_app. right. apply list_elem_of_here.
Qed.

Lemma replay_NoDup rows table :
  NoDup (map key table) -> NoDup (map key (replay rows table)).
Proof.
  induction rows as [|row rows IH] using rev_ind; [easy|].
  intros Hnodup. rewrite replay_snoc. subst upsert.
  now apply (upsert_NoDup key _ do_update_key), IH.
Qed.

Lemma replay_lookup rows t1 t2 k :
  (k ∉ map key rows -> lookup k t1 = lookup k t2) ->
  lookup k (replay rows t1) = lookup k (replay rows t2).
Proof.
  subst lookup. cbn beta.
  induction rows as [|row rows IH] using rev_ind.
  - intros Hsame. apply Hsame, not_elem_of_nil.
  - intros Hsame. rewrite !replay_snoc. subst upsert.
    destruct (decide (key row = k)) as [<-|Hne].
    + now rewrite !(upsert_first_row key _ do_update_excluded).
    + rewrite !(upsert_keys_other key _ do_update_key) by assumption.
      apply IH. intros Hk. apply Hsame. rewrite map_app.
      intros [?|Hin]%elem_of_app; [contradiction|].
      cbn in Hin. apply list_elem_of_singleton in Hin. congruence.
Qed.

Lemma replay_untouched rows table k :
  k ∉ map key rows -> lookup k (replay rows table) = lookup k table.
Proof.
  subst lookup. cbn beta.
  induction rows as [|row rows IH] using rev_ind; [easy|].
  rewrite map_app. intros Hk. rewrite replay_snoc. subst upsert.
  rewrite (upsert_keys_other key _ do_update_key).
  - apply IH. intros Hin. apply Hk, elem_of_app. now left.
  - intros <-. apply Hk, elem_of_app. right. apply list_elem_of_here.
Qed.

Lemma replay_idempotent rows table :
  NoDup (map key table) ->
  replay rows (replay rows table) = replay rows table.
Proof.
  intros Hnodup. apply table_ext.
  - now apply replay_NoDup, replay_NoDup.
  - apply replay_same_keys. intros row Hrow. now apply replay_has_keys.
  - intros k. destruct (decide (k ∈ map key rows)) as [Hin|Hout].
    + now apply replay_lookup.
    + now rewrite replay_untouched.
Qed.

End Replay.

Lemma upsert_transactions_idempotent rows table :
  NoDup (map Transaction.hash table) ->
  upsert_transactions rows (upsert_transactions rows table)
  = upsert_transactions rows table.
Proof.
  apply (replay_idempotent Transaction.hash _ transactions_do_update_key
           transactions_do_update_excluded).
Qed.

Lemma transaction_loop_replay n bwt txs w s s' :
  for_of txs (process_transaction n bwt) w s = (Done tt, s') ->
  transactions s'
  = upsert_transactions (rows_of_pass w n bwt txs) (transactions s).
Proof.
  unfold upsert_transactions, rows_of_pass.
  revert s. induction txs as [|tx rest IH]; intros s Hrun; cbn [for_of] in Hrun.
  - now injection Hrun as <-.
  - unfold bind at 1 in Hrun. rewrite process_transaction_eq in Hrun.
    cbn zeta in Hrun. cbn [omap list_omap].
    destruct (rpc_getTransactionReceipt w (TransactionResponse.hash tx))
      as [[receipt|]|e]; [| |discriminate].
    + rewrite insertTransaction_eq in Hrun.
      destruct (pg_insert_transaction w _) as [[]|e]; [|discriminate].
      rewrite (IH _ Hrun). reflexivity.
    + rewrite (IH _ Hrun). reflexivity.
Qed.

(** X27.  A pass in which every fetch and write goes through leaves in the
    store the upsert of the block row and then, in the order of the block,
    of one row for each transaction whose receipt was there, and nothing
    else.  On a store with one row per transaction hash, the same pass run
    a second time (a block notified twice, a backfill after a restart)
    returns again and leaves the three tables exactly as the first pass
    left them. *)
Theorem processBlock_again_changes_nothing w s n bwt :
  rpc_getBlockWithTransactions w n = Ok (Some bwt) ->
  pass_goes_through w n = true ->
  NoDup (map Transaction.hash (transactions s)) ->
  let s1 := snd (processBlock n w s) in
  let s2 := snd (processBlock n w s1) in
  fst (processBlock n w s) = Done tt
  /\ fst (processBlock n w s1) = Done tt
  /\ tables s1
     = (upsert_block (prepare_block n bwt) (blocks s),
        upsert_transactions
          (rows_of_pass w n bwt (BlockWithTransactions.transactions bwt))
          (transactions s),
        contract_interfaces s)
  /\ tables s2 = tables s1
  /\ getLastProcessedBlock s2 = n.
Proof.
  intros Hblock Hpass Hnodup.
  assert (Hpass_eq : forall s0,
    fst (processBlock n w s0) = Done tt
    /\ tables (snd (processBlock n w s0))
       = (upsert_block (prepare_block n bwt) (blocks s0),
          upsert_transactions
            (rows_of_pass w n bwt (BlockWithTransactions.transactions bwt))
            (transactions s0),
          contract_interfaces s0)
    /\ lastProcessedBlock (snd (processBlock n w s0)) = n).
  { intros s0. destruct (processBlock n w s0) as [r s'] eqn:Hrun.
    pose proof (processBlock_watermark _ _ _ _ _ Hrun)
      as [(-> & _ & Hlast)|(_ & Hfalse & _)]; [|congruence].
    split; [reflexivity|]. split; [|exact Hlast].
    revert Hrun. rewrite processBlock_eq, Hblock. cbn zeta.
    rewrite insertBlock_eq.
    destruct (pg_insert_block w _) as [[]|e]; [|discriminate].
    destruct (for_of _ _ w _) as [r3 s3] eqn:Hloop.
    pose proof (transaction_loop_frame _ _ _ _ _ _ _ Hloop) as (Hout & _).
    injection Hout as _ _ _ Hblocks Hinterfaces.
    destruct r3 as [[]|e|]; intros [= <-].
    apply transaction_loop_replay in Hloop.
    unfold tables. cbn [snd blocks transactions contract_interfaces
                        set_lastProcessedBlock].
    now rewrite Hblocks, Hloop, Hinterfaces. }
  cbn zeta.
  destruct (Hpass_eq s) as (Hdone1 & Htables1 & _).
  destruct (Hpass_eq (snd (processBlock n w s))) as (Hdone2 & Htables2 & Hlast2).
  split; [exact Hdone1|]. split; [exact Hdone2|]. split; [exact Htables1|].
  split; [|exact Hlast2].
  rewrite Htables2, Htables1. unfold tables in Htables1.
  injection Htables1 as Hblocks1 Htransactions1 Hinterfaces1.
  rewrite Hblocks1, Htransactions1, Hinterfaces1.
  rewrite upsert_block_idempotent.
  rewrite upsert_transactions_idempotent by exact Hnodup. reflexivity.
Qed.

Lemma processBlock_again_changes_nothing_witness :
  let w := node 2 chain_0_1_0 every_receipt in
  let s := constructor [] [] [] in
  let bwt := a_block [a_transfer] in
  let s1 := snd (processBlock 1 w s) in
  let s2 := snd (processBlock 1 w s1) in
  fst (processBlock 1 w s) = Done tt
  /\ fst (processBlock 1 w s1) = Done tt
  /\ tables s1
     = (upsert_block (prepare_block 1 bwt) (blocks s),
        upsert_transactions
          (rows_of_pass w 1 bwt (BlockWithTransactions.transactions bwt))
          (transactions s),
        contract_interfaces s)
  /\ tables s2 = tables s1
  /\ getLastProcessedBlock s2 = 1.
Proof.
  apply (processBlock_again_changes_nothing
           (node 2 chain_0_1_0 every_receipt) (constructor [] [] []) 1
           (a_block [a_transfer])).
  - reflexivity.
  - vm_compute. reflexivity.
  - apply (bool_decide_unpack _). vm_compute. exact I.
Defined.

(** ** The indexer: restart after a failed pass *)

Lemma transaction_loop_rows_accepted n bwt txs w s r s' row :
  for_of txs (process_transaction n bwt) w s = (r, s') ->
  row ∈ transactions s' ->
  row ∈ transactions s \/ is_ok (pg_insert_transaction w row) = true.
Proof.
  revert s. induction txs as [|tx rest IH]; intros s Hrun Hin;
    cbn [for_of] in Hrun.
  - injection Hrun as _ <-. now left.
  - unfold bind at 1 in Hrun. rewrite process_transaction_eq in Hrun.
    cbn zeta in Hrun.
    destruct (rpc_getTransactionReceipt w (TransactionResponse.hash tx))
      as [[receipt|]|e].
    + rewrite insertTransaction_eq in Hrun.
      destruct (pg_insert_transaction w
                  (prepare_transaction n bwt tx receipt (toISOString w)))
        as [[]|e] eqn:Haccepted.
      * destruct (IH _ Hrun Hin) as [Hin'|?]; [|now right].
        cbn [transactions set_transactions set_trace] in Hin'.
        apply upsert_transaction_elem in Hin' as [->|?]; [right|now left].
        now rewrite Haccepted.
      * injection Hrun as _ <-. now left.
    + destruct (IH _ Hrun Hin) as [?|?]; [now left | now right].
    + injection Hrun as _ <-. now left.
Qed.

(** X28.  The watermark of a restarted service is read from the block
    rows, and a pass writes the block row before the transaction rows.  So
    when the pass of a block above every stored block has its block row
    accepted and a transaction row rejected, it throws with the watermark
    unchanged and the rejected row missing from the store; and a new
    service started on the tables it leaves enters the backfill loop with
    the watermark at that very block, whose pass it therefore never runs
    again: the first block it fetches is the next one. *)
Theorem restart_skips_a_partly_written_block w w' s n bwt tx receipt e :
  (forall row, row ∈ blocks s -> Block.number row < n) ->
  rpc_getBlockWithTransactions w n = Ok (Some bwt) ->
  pg_insert_block w (prepare_block n bwt) = Ok tt ->
  tx ∈ BlockWithTransactions.transactions bwt ->
  rpc_getTransactionReceipt w (TransactionResponse.hash tx)
  = Ok (Some receipt) ->
  pg_insert_transaction w (prepare_transaction n bwt tx receipt (toISOString w))
  = Rejected e ->
  prepare_transaction n bwt tx receipt (toISOString w) ∉ transactions s ->
  rpc_getNetwork w' = Ok tt ->
  pg_select w' = Ok tt ->
  let s1 := snd (processBlock n w s) in
  let restarted :=
    constructor (blocks s1) (transactions s1) (contract_interfaces s1) in
  (exists e', fst (processBlock n w s) = Thrown e')
  /\ getLastProcessedBlock s1 = getLastProcessedBlock s
  /\ (prepare_transaction n bwt tx receipt (toISOString w) ∉ transactions s1)
  /\ getLastProcessedBlock (snd (start 0 w' restarted)) = n
  /\ (forall fuel height,
        rpc_getBlockNumber w' = Ok height ->
        n + 1 <= height ->
        exists evs rest,
          trace (snd (start (S fuel) w' restarted)) = evs
          /\ fetched_blocks evs = (n + 1) :: rest).
Proof.
  intros Habove Hblock Hinsert Hin Hreceipt Hrejected Hmissing Hnet Hselect.
  cbn zeta. destruct (processBlock n w s) as [r s1] eqn:Hrun. cbn [fst snd].
  assert (Hpass : pass_goes_through w n = false).
  { unfold pass_goes_through. rewrite Hblock, Hinsert. cbn [is_ok andb].
    now apply (transaction_loop_rejected w n bwt _ tx receipt e). }
  pose proof (processBlock_watermark _ _ _ _ _ Hrun)
    as [(_ & Htrue & _)|([e' ->] & _ & Hlast)]; [congruence|].
  assert (Hs1 : blocks s1 = upsert_block (prepare_block n bwt) (blocks s)
                /\ (prepare_transaction n bwt tx receipt (toISOString w)
                      ∉ transactions s1)).
  { revert Hrun. rewrite processBlock_eq, Hblock. cbn zeta.
    rewrite insertBlock_eq, Hinsert.
    destruct (for_of _ _ w _) as [r3 s3] eqn:Hloop.
    pose proof (transaction_loop_frame _ _ _ _ _ _ _ Hloop) as (Hout & _).
    injection Hout as _ _ _ Hblocks _.
    assert (prepare_transaction n bwt tx receipt (toISOString w)
              ∉ transactions s3).
    { intros Hstored.
      destruct (transaction_loop_rows_accepted _ _ _ _ _ _ _ _ Hloop Hstored)
        as [Hold|Haccepted].
      - now apply Hmissing.
      - now rewrite Hrejected in Haccepted. }
    destruct r3 as [[]|e3|]; intros [= <- <-] || intros [= <-]; now split. }
  destruct Hs1 as [Hblocks1 Hmissing1].
  assert (Hlatest :
    or_zero (option_map Block.number
               (DatabaseService.order_by_number_desc_limit_1 (blocks s1))) = n).
  { pose proof (order_by_number_desc_limit_1_max (blocks s1)) as Hmax.
    assert (Hn : n ∈ map Block.number (blocks s1)).
    { rewrite Hblocks1. apply upsert_block_keeps_numbers. now right. }
    destruct (DatabaseService.order_by_number_desc_limit_1 (blocks s1))
      as [best|].
    - destruct Hmax as [Hbest Hmax]. cbn [option_map or_zero].
      assert (Block.number best = n) as ->.
      { apply list_elem_of_In, in_map_iff in Hn as [row [Hrow Hin']].
        apply list_elem_of_In, Hmax in Hin'.
        assert (Hbest' : Block.number best ∈ map Block.number (blocks s1))
          by (apply list_elem_of_In, in_map, list_elem_of_In, Hbest).
        rewrite Hblocks1, upsert_block_keys in Hbest'.
        assert (Block.number best ∈ map Block.number (blocks s)
                \/ Block.number best = n) as [Hold|?]; [| |assumption].
        - case_bool_decide; [now left|].
          apply elem_of_app in Hbest' as [?|Heq%list_elem_of_singleton];
            [now left | now right].
        - apply list_elem_of_In, in_map_iff in Hold as [row' [Hrow' Hin'']].
          apply list_elem_of_In, Habove in Hin''. lia. }
      now destruct (decide (n = 0)).
    - rewrite Hmax in Hn. now apply elem_of_nil in Hn. }
  split; [now exists e'|]. split; [exact Hlast|]. split; [exact Hmissing1|].
  split.
  - rewrite start_eq.
    change (isIndexing (constructor _ _ _)) with false. cbv iota.
    rewrite Hnet, Hselect. cbn zeta.
    change (blocks (constructor (blocks s1) _ _)) with (blocks s1).
    rewrite Hlatest. reflexivity.
  - intros fuel height Hheight Hle.
    rewrite start_eq.
    change (isIndexing (constructor _ _ _)) with false. cbv iota.
    rewrite Hnet, Hselect. cbn zeta.
    change (blocks (constructor (blocks s1) _ _)) with (blocks s1).
    rewrite Hlatest.
    destruct (processHistoricalBlocks (S fuel) w' _) as [r2 s2] eqn:Hloop.
    apply (processHistoricalBlocks_first_fetch _ _ _ height) in Hloop
      as (evs & rest & Htr & Hfetched); [|reflexivity|assumption|assumption].
    cbn [trace set_trace lastProcessedBlock set_newBlockCallback
         set_isIndexing set_lastProcessedBlock app] in Htr, Hfetched.
    eexists _, rest. cbn [snd]. split; [reflexivity|].
    rewrite Htr, fetched_blocks_app. exact Hfetched.
Qed.

Lemma restart_skips_a_partly_written_block_witness :
  let w := node_rejecting_transactions 2 chain_0_1_0 every_receipt in
  let w' := node 2 chain_0_1_0 every_receipt in
  let s := constructor [] [] [] in
  let bwt := a_block [a_transfer] in
  let row := prepare_transaction 1 bwt a_transfer a_receipt (toISOString w) in
  let s1 := snd (processBlock 1 w s) in
  let restarted :=
    constructor (blocks s1) (transactions s1) (contract_interfaces s1) in
  (exists e', fst (processBlock 1 w s) = Thrown e')
  /\ getLastProcessedBlock s1 = getLastProcessedBlock s
  /\ (row ∉ transactions s1)
  /\ getLastProcessedBlock (snd (start 0 w' restarted)) = 1
  /\ (forall fuel height,
        rpc_getBlockNumber w' = Ok height ->
        1 + 1 <= height ->
        exists evs rest,
          trace (snd (start (S fuel) w' restarted)) = evs
          /\ fetched_blocks evs = (1 + 1) :: rest).
Proof.
  apply (restart_skips_a_partly_written_block
           (node_rejecting_transactions 2 chain_0_1_0 every_receipt)
           (node 2 chain_0_1_0 every_receipt)
           (constructor [] [] []) 1 (a_block [a_transfer]) a_transfer
           a_receipt PgError).
  - intros row Hrow. now apply elem_of_nil in Hrow.
  - reflexivity.
  - reflexivity.
  - apply list_elem_of_here.
  - reflexivity.
  - reflexivity.
  - apply not_elem_of_nil.
  - reflexivity.
  - reflexivity.
Defined.
